(** * AutoTrade-Shell operator tools: [tools/del_dir.py] and [tools/xmledit.py]

    A shallow embedding of the two command-line tools and the properties
    their specification states about them.

    - [DelDir]: the active-marker resolver [load_active_tmp_dir] and the
      sweeper [cleanup_tmp_dirs], run over an explicit file-system tree by a
      stack machine that follows [os.walk] (top-down, [followlinks=False],
      [onerror=None]).
    - [XmlEdit]: the element tree of [xml.etree.ElementTree], the viewer
      [view_configs], the mutator [update_config] and the entry point [main]. *)

From Stdlib Require Import List String Ascii Bool Arith Lia.
Import ListNotations.
Local Open Scope string_scope.
Local Open Scope list_scope.
Set Warnings "-register-all".

(** ** Python string helpers shared by both tools *)

Module Py.

(** A Python [str] is modelled by a Rocq [string]; one [ascii] stands for one
    code point. *)

Definition truthy (s : string) : bool :=
  match s with EmptyString => false | String _ _ => true end.

(** [str.isspace] on one code point (the code points below 256). *)
Definition is_space (c : ascii) : bool :=
  let n := nat_of_ascii c in
  (((9 <=? n) && (n <=? 13)) || ((28 <=? n) && (n <=? 32))
   || (n =? 133) || (n =? 160))%nat.

Fixpoint lstrip (s : string) : string :=
  match s with
  | EmptyString => EmptyString
  | String c s' => if is_space c then lstrip s' else s
  end.

Definition reverse (s : string) : string :=
  string_of_list_ascii (rev (list_ascii_of_string s)).

Definition rstrip (s : string) : string := reverse (lstrip (reverse s)).

(** [s.strip()] *)
Definition strip (s : string) : string := rstrip (lstrip s).

(** [s.startswith(p)] *)
Definition startswith (s p : string) : bool := String.prefix p s.

(** [c * n] for a one-character string [c]. *)
Fixpoint repeat_char (c : ascii) (n : nat) : string :=
  match n with
  | 0 => EmptyString
  | S n' => String c (repeat_char c n')
  end.

(** [s.ljust(w)]: pad with spaces on the right up to width [w]; never
    truncates. *)
Definition ljust (s : string) (w : nat) : string :=
  s ++ repeat_char " "%char (w - String.length s).

(** [str(s)] of a value that is a string already. *)
Definition str (s : string) : string := s.

End Py.

(** ** [tools/del_dir.py] *)

Module DelDir.

Definition TMP_DIR : string := "/tmp".
Definition TARGET_LOG : string := "fx_debug_log.txt".

(** *** The file system

    The tree below the file-system root.  The model covers trees without
    symbolic links: [os.walk] is called with [followlinks=False] and never
    descends into one, and without links [os.path.realpath] of a path
    yielded by the walk is that path itself. *)

Inductive node : Type :=
| File : node
| Dir : list (string * node) -> node.

(** A path is the list of its components below [/]; [TMP_DIR] is [["tmp"]]. *)
Definition path := list string.

Definition TMP_PATH : path := ["tmp"].

(** [os.path.join(top, name)] on component lists. *)
Definition join (top : path) (name : string) : path := top ++ [name].

(** The absolute path string of a component list. *)
Definition path_str (p : path) : string :=
  String.concat "" (map (String.append "/") p).

Definition is_dir (t : node) : bool :=
  match t with Dir _ => true | File => false end.

Fixpoint lookup_entry (n : string) (es : list (string * node)) : option node :=
  match es with
  | [] => None
  | (m, c) :: es' => if String.eqb m n then Some c else lookup_entry n es'
  end.

Fixpoint lookup (t : node) (p : path) : option node :=
  match p with
  | [] => Some t
  | n :: p' =>
      match t with
      | Dir es =>
          match lookup_entry n es with
          | Some c => lookup c p'
          | None => None
          end
      | File => None
      end
  end.

(** The names of the sub-directories and of the other entries of a
    directory, in listing order: the two lists [os.walk] builds from
    [os.scandir]. *)
Definition dir_names (es : list (string * node)) : list string :=
  map fst (filter (fun e => is_dir (snd e)) es).

Definition file_names (es : list (string * node)) : list string :=
  map fst (filter (fun e => negb (is_dir (snd e))) es).

(** [os.scandir(top)]: [None] stands for the [OSError] raised when [top] is
    missing or is not a directory. *)
Definition scandir (fs : node) (top : path) : option (list string * list string) :=
  match lookup fs top with
  | Some (Dir es) => Some (dir_names es, file_names es)
  | _ => None
  end.

Fixpoint update_entry (n : string) (f : node -> node) (es : list (string * node))
  : list (string * node) :=
  match es with
  | [] => []
  | (m, c) :: es' =>
      if String.eqb m n then (m, f c) :: es' else (m, c) :: update_entry n f es'
  end.

Definition remove_entry (n : string) (es : list (string * node))
  : list (string * node) :=
  filter (fun e => negb (String.eqb (fst e) n)) es.

(** A successful [shutil.rmtree(p)]: the entry at [p] and everything below it
    is gone. *)
Fixpoint rmtree (p : path) (t : node) : node :=
  match t with
  | File => t
  | Dir es =>
      match p with
      | [] => t
      | [n] => Dir (remove_entry n es)
      | n :: p' => Dir (update_entry n (rmtree p') es)
      end
  end.

(** *** Output lines *)

Inductive event : Type :=
| Info (active_dir : string)
| Warn
| Skip (root_real : string)
| Delete (root_real : string)
| Error (root_real : string).

Section Tool.

(** [os.path.realpath] on a line of the marker file. *)
Variable realpath : string -> string.

(** Whether [shutil.rmtree] succeeds on a directory.  A failing call raises,
    is caught and reported; the model takes the failing call to have removed
    nothing. *)
Variable rmtree_ok : string -> bool.

(** *** [load_active_tmp_dir]

    The marker file is given by the result of [f.readlines()]; [None] when
    [os.path.exists(LAST_TEMP_FILE)] is false. *)

Fixpoint first_tmp_line (lines : list string) : option string :=
  match lines with
  | [] => None
  | line :: rest =>
      if Py.startswith line "/tmp/" then Some (realpath line)
      else first_tmp_line rest
  end.

Definition load_active_tmp_dir (marker : option (list string)) : option string :=
  match marker with
  | None => None
  | Some readlines =>
      let lines :=
        map Py.strip (filter (fun line => Py.truthy (Py.strip line)) readlines) in
      first_tmp_line (rev lines)
  end.

(** *** [cleanup_tmp_dirs] *)

Section Sweep.

Variable active_dir : option string.

(** [active_dir and root_real == active_dir] *)
Definition is_active (root_real : string) : bool :=
  match active_dir with
  | Some a => Py.truthy a && String.eqb root_real a
  | None => false
  end.

(** The body of the [for] loop for one triple yielded by the walk. *)
Definition visit (root : path) (files : list string) (fs : node)
  : node * list event :=
  if existsb (String.eqb TARGET_LOG) files then
    let root_real := path_str root in
    if is_active root_real then (fs, [Skip root_real])
    else if rmtree_ok root_real then (rmtree root fs, [Delete root_real])
    else (fs, [Delete root_real; Error root_real])
  else (fs, []).

(** The walk and the loop together: [os.walk] keeps a stack of paths still to
    list; each step pops one, lists it in the current file system (a failed
    listing is dropped silently), hands the triple to the loop body, and then
    pushes the sub-directories it had listed. *)
Record wstate : Type := mk_wstate
  { w_fs : node; w_stack : list path; w_out : list event }.

Fixpoint run (fuel : nat) (st : wstate) : option (node * list event) :=
  match fuel with
  | 0 => None
  | S fuel' =>
      match w_stack st with
      | [] => Some (w_fs st, w_out st)
      | top :: rest =>
          match scandir (w_fs st) top with
          | None => run fuel' (mk_wstate (w_fs st) rest (w_out st))
          | Some (dirs, files) =>
              let '(fs', evs) := visit top files (w_fs st) in
              run fuel' (mk_wstate fs' (map (join top) dirs ++ rest)
                                   (w_out st ++ evs))
          end
      end
  end.

End Sweep.

(** The number of directories of a tree bounds the number of listings. *)
Fixpoint count_dirs (t : node) : nat :=
  match t with
  | File => 0
  | Dir es => S (list_sum (map (fun e => count_dirs (snd e)) es))
  end.

Definition banner (active_dir : option string) : list event :=
  match active_dir with
  | Some a => if Py.truthy a then [Info a] else [Warn]
  | None => [Warn]
  end.

Definition sweep (active_dir : option string) (fs : node)
  : option (node * list event) :=
  run active_dir (2 + count_dirs fs)
      (mk_wstate fs [TMP_PATH] (banner active_dir)).

Definition cleanup_tmp_dirs (marker : option (list string)) (fs : node)
  : option (node * list event) :=
  sweep (load_active_tmp_dir marker) fs.

(** *** The sweep by recursion on the tree

    What the walk and the loop body amount to on a directory [t] found at
    [root]: the directory that remains ([None] when it was removed) and the
    lines printed, in the order of the walk. *)

Definition sweep_entries_with
    (f : string -> node -> option node * list event)
    (es : list (string * node)) : list (string * node) * list event :=
  fold_right
    (fun e acc =>
       let '(r, evs) := f (fst e) (snd e) in
       (match r with Some c' => (fst e, c') :: fst acc | None => fst acc end,
        evs ++ snd acc))
    ([], []) es.

Section SweepTree.

Variable active_dir : option string.

Fixpoint sweep_node (root : path) (t : node) : option node * list event :=
  match t with
  | File => (Some File, [])
  | Dir es =>
      let below :=
        sweep_entries_with (fun n c => sweep_node (join root n) c) es in
      let root_real := path_str root in
      if existsb (String.eqb TARGET_LOG) (file_names es) then
        if is_active active_dir root_real then
          (Some (Dir (fst below)), Skip root_real :: snd below)
        else if rmtree_ok root_real then (None, [Delete root_real])
        else (Some (Dir (fst below)),
              Delete root_real :: Error root_real :: snd below)
      else (Some (Dir (fst below)), snd below)
  end.

Definition sweep_entries (root : path) (es : list (string * node))
  : list (string * node) * list event :=
  sweep_entries_with (fun n c => sweep_node (join root n) c) es.

End SweepTree.

End Tool.

(** Put a node at a path, or remove what is there. *)
Fixpoint replace (p : path) (t' : node) (t : node) : node :=
  match p with
  | [] => t'
  | n :: p' =>
      match t with
      | Dir es => Dir (update_entry n (replace p' t') es)
      | File => t
      end
  end.

Definition place (p : path) (r : option node) (fs : node) : node :=
  match r with
  | Some t' => replace p t' fs
  | None => rmtree p fs
  end.

(** Names are unique within every directory. *)
Fixpoint nodupb (l : list string) : bool :=
  match l with
  | [] => true
  | x :: l' => negb (existsb (String.eqb x) l') && nodupb l'
  end.

Fixpoint wf_names (t : node) : bool :=
  match t with
  | File => true
  | Dir es => nodupb (map fst es) && forallb (fun e => wf_names (snd e)) es
  end.

Definition has_sentinel (es : list (string * node)) : bool :=
  existsb (String.eqb TARGET_LOG) (file_names es).

Definition opt_cons (n : string) (r : option node) (l : list (string * node))
  : list (string * node) :=
  match r with Some c' => (n, c') :: l | None => l end.

(** The result of the whole sweep, by the recursion on the tree. *)
Definition sweep_tree (rmtree_ok : string -> bool) (active_dir : option string)
    (fs : node) : node * list event :=
  match lookup fs TMP_PATH with
  | Some (Dir es) =>
      let '(r, evs) := sweep_node rmtree_ok active_dir TMP_PATH (Dir es) in
      (place TMP_PATH r fs, banner active_dir ++ evs)
  | _ => (fs, banner active_dir)
  end.

(** No directory of the tree holds the sentinel file. *)
Fixpoint sentinel_free (t : node) : bool :=
  match t with
  | File => true
  | Dir es =>
      negb (has_sentinel es) && forallb (fun e => sentinel_free (snd e)) es
  end.

(** Every directory of the tree [t] found at [root] that holds the sentinel
    file is the active one. *)
Fixpoint settled (active_dir : option string) (root : path) (t : node) : bool :=
  match t with
  | File => true
  | Dir es =>
      (negb (has_sentinel es) || is_active active_dir (path_str root))
      && forallb (fun e => settled active_dir (join root (fst e)) (snd e)) es
  end.

Definition is_error (e : event) : bool :=
  match e with Error _ => true | _ => false end.

Definition is_delete (e : event) : bool :=
  match e with Delete _ => true | _ => false end.

(** [q] is a proper ancestor of the position [p]: [p = q ++ r] with [r]
    non-empty. *)
Definition proper_prefix (q p : path) : Prop :=
  exists r, r <> [] /\ p = q ++ r.

(** The directory found at [p] holds the sentinel file. *)
Definition sentinel_at (fs : node) (p : path) : Prop :=
  exists es, lookup fs p = Some (Dir es) /\ has_sentinel es = true.

(** What [run] does with the directory [t] on top of the stack: it goes on
    as from the tree that the recursion leaves. *)
Definition walks (rmtree_ok : string -> bool) (active_dir : option string)
    (t : node) : Prop :=
  forall p fs rest out fuel res,
    wf_names t = true -> p <> [] -> lookup fs p = Some t -> is_dir t = true ->
    run rmtree_ok active_dir fuel
        (mk_wstate (place p (fst (sweep_node rmtree_ok active_dir p t)) fs) rest
                   (out ++ snd (sweep_node rmtree_ok active_dir p t)))
    = Some res ->
    run rmtree_ok active_dir (count_dirs t + fuel) (mk_wstate fs (p :: rest) out)
    = Some res.

Definition no_error (evs : list event) : Prop := forall s, ~ In (Error s) evs.

(** No directory strictly above the position [q] holds the sentinel file,
    unless it is the active one. *)
Definition spared (active_dir : option string) (root : path) (t : node)
    (q : path) : Prop :=
  forall q1 es1, proper_prefix q1 q -> lookup t q1 = Some (Dir es1) ->
    has_sentinel es1 = false
    \/ is_active active_dir (path_str (root ++ q1)) = true.

(** Where a line of the sweep of [t] comes from: a directory of [t] that
    holds the sentinel file. *)
Definition reported (rmtree_ok : string -> bool) (active_dir : option string)
    (root : path) (t : node) (ev : event) : Prop :=
  exists q es',
    lookup t q = Some (Dir es') /\ has_sentinel es' = true /\
    let s := path_str (root ++ q) in
    (ev = Skip s /\ is_active active_dir s = true)
    \/ (ev = Delete s /\ is_active active_dir s = false)
    \/ (ev = Error s /\ is_active active_dir s = false /\ rmtree_ok s = false).

(** *** The statements of the specification *)






(** "The directory and its contents remain untouched": what is found at the
    active directory after the sweep is what was there before. *)
Definition frame_claim (rmtree_ok : string -> bool) (active_dir : option string)
    (fs : node) : Prop :=
  forall fs' evs q,
    sweep rmtree_ok active_dir fs = Some (fs', evs) ->
    sentinel_at fs (TMP_PATH ++ q) ->
    is_active active_dir (path_str (TMP_PATH ++ q)) = true ->
    lookup fs' (TMP_PATH ++ q) = lookup fs (TMP_PATH ++ q).

(** "Running it twice in a row with no intervening external changes
    produces no additional deletions on the second run and no errors", for
    every state of the file system.  Each run reads the marker file and
    resolves its line with [os.path.realpath] against the file system it
    finds, so [realpath] is given the tree. *)
Definition idempotence_claim (realpath : node -> string -> string)
    (rmtree_ok : string -> bool) (marker : option (list string)) (fs : node)
  : Prop :=
  forall fs1 evs1,
    cleanup_tmp_dirs (realpath fs) rmtree_ok marker fs = Some (fs1, evs1) ->
    existsb is_error evs1 = false ->
    exists fs2 evs2,
      cleanup_tmp_dirs (realpath fs1) rmtree_ok marker fs1 = Some (fs2, evs2)
      /\ existsb is_delete evs2 = false /\ existsb is_error evs2 = false.

(** *** Example trees *)

Definition always_ok (root_real : string) : bool := true.

(** [/tmp/abc] and [/tmp/def] hold the sentinel file; [/tmp/def] also holds
    a plain sub-directory [run] and a sub-directory [old] with a sentinel
    file of its own. *)
Definition fs_two_dirs : node :=
  Dir [("opt", Dir []);
       ("tmp", Dir [("abc", Dir [(TARGET_LOG, File)]);
                    ("def", Dir [(TARGET_LOG, File);
                                 ("run", Dir [("state.json", File)]);
                                 ("old", Dir [(TARGET_LOG, File)])]);
                    ("notes.txt", File)])].


(** [/tmp/old] holds the sentinel file and the entry [link], a symbolic
    link to [/tmp/work]; [/tmp/work/x] holds the sentinel file.  The walk
    does not follow the link and the loop looks for the sentinel among the
    names of the files only, so the tree holds the link as an entry that is
    not a directory; what the link does shows in [realpath]. *)
Definition fs_linked : node :=
  Dir [("tmp", Dir [("old", Dir [(TARGET_LOG, File); ("link", File)]);
                    ("work", Dir [("x", Dir [(TARGET_LOG, File)])])])].

(** [os.path.realpath] on that file system: as long as [/tmp/old/link] is
    there, [/tmp/old/link/x] is [/tmp/work/x]; any other path, and this one
    once the link is gone, is what it is. *)
Definition realpath_through_link (fs : node) (line : string) : string :=
  if String.eqb line "/tmp/old/link/x" then
    match lookup fs ["tmp"; "old"; "link"] with
    | Some _ => "/tmp/work/x"
    | None => line
    end
  else line.

End DelDir.

(** ** [tools/xmledit.py] *)

Module XmlEdit.

Definition XML_PATH : string := "/opt/Innovations/System/bot_config.xml".

(** *** Element trees

    An [xml.etree.ElementTree.Element]: tag, attributes, text, children and
    tail.  A missing text or tail is [None], as in Python. *)

Inductive element : Type :=
| Element (tag : string) (attrib : list (string * string))
          (text : option string) (children : list element)
          (tail : option string).

Definition tag (e : element) : string :=
  match e with Element t _ _ _ _ => t end.
Definition attrib (e : element) : list (string * string) :=
  match e with Element _ a _ _ _ => a end.
Definition text (e : element) : option string :=
  match e with Element _ _ x _ _ => x end.
Definition children (e : element) : list element :=
  match e with Element _ _ _ cs _ => cs end.
Definition tail (e : element) : option string :=
  match e with Element _ _ _ _ x => x end.

(** An element of the tree is referred to by its position: the child indices
    that lead to it from the root.  The loops of the tool hold references to
    elements of the one tree and assign through them. *)
Abbreviation position := (list nat).

Fixpoint get (e : element) (pos : position) : option element :=
  match pos with
  | [] => Some e
  | i :: pos' =>
      match nth_error (children e) i with
      | Some c => get c pos'
      | None => None
      end
  end.

Fixpoint update_nth {A : Type} (i : nat) (f : A -> A) (l : list A) {struct l}
  : list A :=
  match l with
  | [] => []
  | x :: l' =>
      match i with
      | 0 => f x :: l'
      | S i' => x :: update_nth i' f l'
      end
  end.

(** [elem.text = new_text] for the element at [pos]. *)
Fixpoint set_text (pos : position) (new_text : option string) (e : element)
  : element :=
  match e with
  | Element tg at_ tx cs tl =>
      match pos with
      | [] => Element tg at_ new_text cs tl
      | i :: pos' =>
          Element tg at_ tx (update_nth i (set_text pos' new_text) cs) tl
      end
  end.

(** [elem.get(key)] *)
Fixpoint attr_get (key : string) (a : list (string * string)) : option string :=
  match a with
  | [] => None
  | (k, v) :: a' => if String.eqb k key then Some v else attr_get key a'
  end.

(** The proper descendants of an element with their positions, in document
    order. *)
Fixpoint iter_below (e : element) : list (position * element) :=
  match e with
  | Element _ _ _ cs _ =>
      (fix go (i : nat) (l : list element) : list (position * element) :=
         match l with
         | [] => []
         | c :: l' =>
             ((([i], c) :: map (fun pe => (i :: fst pe, snd pe)) (iter_below c))
              ++ go (S i) l')
         end) 0 cs
  end.

(** The listing of the children [cs], the first of them at index [k]. *)
Fixpoint iter_children (k : nat) (cs : list element) : list (position * element) :=
  match cs with
  | [] => []
  | c :: cs' =>
      (([k], c) :: map (fun pe => (k :: fst pe, snd pe)) (iter_below c))
      ++ iter_children (S k) cs'
  end.

(** [root.findall(".//table")] *)
Definition findall_table (root : element) : list (position * element) :=
  filter (fun pe => String.eqb (tag (snd pe)) "table") (iter_below root).

Definition is_column (name : string) (e : element) : bool :=
  String.eqb (tag e) "column"
  && match attr_get "name" (attrib e) with
     | Some v => String.eqb v name
     | None => false
     end.

Fixpoint find_from (name : string) (i : nat) (l : list element)
  : option (nat * element) :=
  match l with
  | [] => None
  | c :: l' => if is_column name c then Some (i, c) else find_from name (S i) l'
  end.

(** [table.find("./column[@name='...']")]: the first matching child, with
    its index. *)
Definition find_column (name : string) (table : element)
  : option (nat * element) :=
  find_from name 0 (children table).

(** *** [view_configs] *)

(** [x or ""] *)
Definition or_empty (x : option string) : string :=
  match x with Some s => s | None => "" end.

(** How an f-string shows a value that is a string or [None]. *)
Definition fmt (x : option string) : string :=
  match x with Some s => s | None => "None" end.

Definition row : Type := string * string * option string.

Record collected : Type := mk_collected
  { rows : list row; max_key_len : nat; max_val_len : nat }.

(** One turn of the collecting loop. *)
Definition collect_table (acc : collected) (table : element) : collected :=
  let key := find_column "key" table in
  let value := find_column "value" table in
  let ettc := find_column "ettc" table in
  match key, value with
  | Some (_, key), Some (_, value) =>
      let k := or_empty (text key) in
      let v := or_empty (text value) in
      let d := match ettc with Some (_, e) => text e | None => Some "" end in
      mk_collected (rows acc ++ [(k, v, d)])
                   (Nat.max (max_key_len acc) (String.length k))
                   (Nat.max (max_val_len acc) (String.length v))
  | _, _ => acc
  end.

Definition collect (root : element) : collected :=
  fold_left collect_table (map snd (findall_table root)) (mk_collected [] 0 0).

Definition header_line (kw vw : nat) : string :=
  Py.ljust "KEY" kw ++ "  " ++ Py.ljust "VALUE" vw ++ "  " ++ "DESCRIPTION".

Definition divider_line (kw vw : nat) : string :=
  Py.repeat_char "-"%char (kw + vw + 15).

Definition row_line (kw vw : nat) (r : row) : string :=
  let '(k, v, d) := r in
  Py.ljust k kw ++ "  " ++ Py.ljust v vw ++ "  " ++ fmt d.

(** The lines printed by [view_configs]. *)
Definition view_configs (root : element) : list string :=
  let c := collect root in
  let kw := max_key_len c in
  let vw := max_val_len c in
  [" "; header_line kw vw; divider_line kw vw] ++ map (row_line kw vw) (rows c).

(** The table of the specification: the tables that have a key column and
    a value column, each turned into its row. *)
Definition has_key_and_value (table : element) : bool :=
  match find_column "key" table, find_column "value" table with
  | Some _, Some _ => true
  | _, _ => false
  end.

Definition column_text (name : string) (table : element) : option string :=
  match find_column name table with
  | Some (_, c) => text c
  | None => None
  end.

Definition row_of (table : element) : row :=
  (or_empty (column_text "key" table),
   or_empty (column_text "value" table),
   match find_column "ettc" table with
   | Some (_, e) => text e
   | None => Some ""
   end).

Definition included_rows (root : element) : list row :=
  map row_of (filter has_key_and_value (map snd (findall_table root))).

Definition key_of (r : row) : string := fst (fst r).
Definition value_of (r : row) : string := snd (fst r).

(** *** [update_config] *)

Inductive exception : Type :=
| AttributeError
| EOFError
| OSError
| ParseError.

Inductive result (A : Type) : Type :=
| Return (a : A)
| Raise (exc : exception).
Arguments Return {A} a.
Arguments Raise {A} exc.

Inductive message : Type :=
| MsgUsage
| MsgXmlNotFound
| MsgInvalidArgs
| MsgTable (lines : list string)
| MsgUpdated (target_key : string) (old : option string) (new_value : string)
| MsgKeyNotFound (target_key : string)
| MsgRestarting
| MsgRestartDone
| MsgRestartSkipped
| MsgRestartFailed
| MsgInterrupted.

(** [key is not None and key.text == target_key] *)
Definition key_matches (key : option (nat * element)) (target_key : string)
  : bool :=
  match key with
  | Some (_, k) =>
      match text k with
      | Some s => String.eqb s target_key
      | None => false
      end
  | None => false
  end.

(** The [for] loop over the tables found: the tree after the call, the line
    printed and the value returned, or the exception raised. *)
Fixpoint update_loop (root : element) (target_key new_value : string)
    (tables : list (position * element))
  : result (element * message * bool) :=
  match tables with
  | [] => Return (root, MsgKeyNotFound target_key, false)
  | (pos, table) :: rest =>
      let key := find_column "key" table in
      let value := find_column "value" table in
      if key_matches key target_key then
        match value with
        | None => Raise AttributeError
        | Some (i, value) =>
            let old := text value in
            Return (set_text (pos ++ [i]) (Some (Py.str new_value)) root,
                    MsgUpdated target_key old new_value, true)
        end
      else update_loop root target_key new_value rest
  end.

Definition update_config (root : element) (target_key new_value : string)
  : result (element * message * bool) :=
  update_loop root target_key new_value (findall_table root).

(** The table that [update_config] stops at: the first one whose key column
    has the target key as its text. *)
Definition matches (target_key : string) (pe : position * element) : bool :=
  key_matches (find_column "key" (snd pe)) target_key.

Definition first_match (root : element) (target_key : string)
  : option (position * element) :=
  find (matches target_key) (findall_table root).

(** That table has a value column (or there is no such table). *)
Definition first_match_has_value (root : element) (target_key : string) : bool :=
  match first_match root target_key with
  | Some (_, table) =>
      match find_column "value" table with Some _ => true | None => false end
  | None => true
  end.

(** The content of an entry: the texts of its key, value and description
    columns, each [None] when the table has no such column. *)
Definition entry : Type :=
  option (option string) * option (option string) * option (option string).

Definition column_content (name : string) (table : element)
  : option (option string) :=
  option_map (fun c => text (snd c)) (find_column name table).

Definition entry_of (table : element) : entry :=
  (column_content "key" table, column_content "value" table,
   column_content "ettc" table).

Definition entries (root : element) : list entry :=
  map (fun pe => entry_of (snd pe)) (findall_table root).

Definition set_value (new_value : string) (e : entry) : entry :=
  (fst (fst e), Some (Some new_value), snd e).

Fixpoint position_eqb (p q : position) : bool :=
  match p, q with
  | [], [] => true
  | i :: p', j :: q' => Nat.eqb i j && position_eqb p' q'
  | _, _ => false
  end.

(** The entries after the value of the table at [pos] was set. *)
Definition entries_with_value (root : element) (pos : position)
    (new_value : string) : list entry :=
  map (fun pe => if position_eqb (fst pe) pos
                 then set_value new_value (entry_of (snd pe))
                 else entry_of (snd pe))
      (findall_table root).

(** The row that the viewer shows for an entry, when it shows one. *)
Definition complete (e : entry) : bool :=
  match e with
  | (Some _, Some _, _) => true
  | _ => false
  end.

Definition row_of_entry (e : entry) : row :=
  let '(k, v, d) := e in
  (or_empty (match k with Some x => x | None => None end),
   or_empty (match v with Some x => x | None => None end),
   match d with Some x => x | None => Some "" end).

(** What remains of [q] below [p], when [q] lies at or below [p]. *)
Fixpoint strip_prefix (p q : position) : option position :=
  match p, q with
  | [], _ => Some q
  | i :: p', j :: q' => if Nat.eqb i j then strip_prefix p' q' else None
  | _ :: _, [] => None
  end.

(** A listed element after [set_text q x] on the tree it is listed from. *)
Definition touch (q : position) (x : option string) (pe : position * element)
  : position * element :=
  (fst pe,
   match strip_prefix (fst pe) q with
   | Some q' => set_text q' x (snd pe)
   | None => snd pe
   end).

(** *** [tree.write(XML_PATH, encoding="utf-8", xml_declaration=True)]

    The serializer of [xml.etree.ElementTree], for trees without namespaces,
    comments or processing instructions: the list of the strings it hands to
    the file's [write], in order. *)

Definition dquote : string := String "034"%char EmptyString.

Fixpoint replace_chars (f : ascii -> option string) (s : string) : string :=
  match s with
  | EmptyString => EmptyString
  | String c s' =>
      match f c with
      | Some r => r ++ replace_chars f s'
      | None => String c (replace_chars f s')
      end
  end.

Definition cdata_entity (c : ascii) : option string :=
  if Ascii.eqb c "&" then Some "&amp;"
  else if Ascii.eqb c "<" then Some "&lt;"
  else if Ascii.eqb c ">" then Some "&gt;"
  else None.

Definition attrib_entity (c : ascii) : option string :=
  if Ascii.eqb c "&" then Some "&amp;"
  else if Ascii.eqb c "<" then Some "&lt;"
  else if Ascii.eqb c ">" then Some "&gt;"
  else if Ascii.eqb c "034" then Some "&quot;"
  else if Ascii.eqb c "013" then Some "&#13;"
  else if Ascii.eqb c "010" then Some "&#10;"
  else if Ascii.eqb c "009" then Some "&#09;"
  else None.

Definition escape_cdata (s : string) : string := replace_chars cdata_entity s.
Definition escape_attrib (s : string) : string := replace_chars attrib_entity s.

Definition truthy_opt (x : option string) : bool :=
  match x with Some s => Py.truthy s | None => false end.

Definition write_attr (kv : string * string) : string :=
  " " ++ fst kv ++ "=" ++ dquote ++ escape_attrib (snd kv) ++ dquote.

Definition write_text (x : option string) : list string :=
  match x with
  | Some s => if Py.truthy s then [escape_cdata s] else []
  | None => []
  end.

Fixpoint serialize_xml (e : element) : list string :=
  match e with
  | Element tg at_ tx cs tl =>
      [("<" ++ tg)%string] ++ map write_attr at_
      ++ (if truthy_opt tx || negb (Nat.eqb (List.length cs) 0) then
            [">"] ++ write_text tx ++ flat_map serialize_xml cs
            ++ [("</" ++ tg ++ ">")%string]
          else [" />"])
      ++ write_text tl
  end.

Definition xml_declaration : string :=
  "<?xml version='1.0' encoding='utf-8'?>" ++ String "010"%char EmptyString.

Inductive file_op : Type :=
| OpenTruncate (path : string)
| WriteChunk (path : string) (data : string)
| CloseFile (path : string)
| Rename (src dst : string).

(** The file operations of the call: the target is opened for writing, which
    empties it, and the pieces are written to it in turn. *)
Definition tree_write (path : string) (root : element) : list file_op :=
  [OpenTruncate path]
  ++ map (WriteChunk path) (xml_declaration :: serialize_xml root)
  ++ [CloseFile path].

(** What the file holds once all of it is written. *)
Definition written (root : element) : string :=
  String.concat EmptyString (xml_declaration :: serialize_xml root).

(** The files on disk, by path, and the effect of one operation. *)
Definition disk : Type := string -> option string.

Definition store (d : disk) (path : string) (x : option string) : disk :=
  fun p => if String.eqb p path then x else d p.

Definition apply_op (d : disk) (op : file_op) : disk :=
  match op with
  | OpenTruncate p => store d p (Some EmptyString)
  | WriteChunk p data =>
      match d p with
      | Some old => store d p (Some (old ++ data)%string)
      | None => d
      end
  | CloseFile _ => d
  | Rename src dst => store (store d dst (d src)) src None
  end.

Definition apply_ops (d : disk) (ops : list file_op) : disk :=
  fold_left apply_op ops d.

(** *** [ET.parse]

    The parser, for documents made of a declaration, elements with
    attributes, and character data with the predefined and the decimal
    character references: the documents the serializer writes.  It does
    what an XML parser must: line ends become a line feed, white space in
    attribute values becomes a space, control characters are refused, and
    an element without character data has no text.  [None] stands for
    [ParseError], and for a document that this model does not read: one
    with a comment, a processing instruction, a CDATA section or a document
    type, and one that declares or uses a namespace ([uses_namespaces]
    below), which [ET.parse] reads with other names than the ones
    written. *)

Definition is_xml_space (c : ascii) : bool :=
  let n := nat_of_ascii c in
  ((n =? 32) || (n =? 9) || (n =? 10) || (n =? 13))%nat.

Definition is_control (c : ascii) : bool :=
  let n := nat_of_ascii c in ((n <? 32) && negb (is_xml_space c))%nat.

Definition is_name_end (c : ascii) : bool :=
  is_xml_space c || Ascii.eqb c "/" || Ascii.eqb c ">" || Ascii.eqb c "="
  || Ascii.eqb c "<".

Fixpoint read_name (s : string) : string * string :=
  match s with
  | EmptyString => (EmptyString, EmptyString)
  | String c s' =>
      if is_name_end c then (EmptyString, s)
      else let '(n, r) := read_name s' in (String c n, r)
  end.

Fixpoint skip_space (s : string) : string :=
  match s with
  | EmptyString => EmptyString
  | String c s' => if is_xml_space c then skip_space s' else s
  end.

Fixpoint drop (n : nat) (s : string) : string :=
  match n, s with
  | S n', String _ s' => drop n' s'
  | _, _ => s
  end.

Definition digit (c : ascii) : option nat :=
  let n := nat_of_ascii c in
  if ((48 <=? n) && (n <=? 57))%nat then Some (n - 48) else None.

(** The digits of a decimal character reference, up to the semicolon. *)
Fixpoint read_decimal (acc : nat) (s : string) : option (nat * string) :=
  match s with
  | EmptyString => None
  | String c s' =>
      if Ascii.eqb c ";" then Some (acc, s')
      else match digit c with
           | Some d => read_decimal (10 * acc + d) s'
           | None => None
           end
  end.

(** The reference that starts after an ampersand. *)
Definition read_reference (s : string) : option (ascii * string) :=
  if String.prefix "amp;" s then Some ("&"%char, drop 4 s)
  else if String.prefix "lt;" s then Some ("<"%char, drop 3 s)
  else if String.prefix "gt;" s then Some (">"%char, drop 3 s)
  else if String.prefix "quot;" s then Some ("034"%char, drop 5 s)
  else if String.prefix "apos;" s then Some ("'"%char, drop 5 s)
  else match s with
       | String "#" (String d s') =>
           match digit d with
           | Some _ =>
               match read_decimal 0 (String d s') with
               | Some (n, r) =>
                   if ((n <? 256) && negb (is_control (ascii_of_nat n))
                       && negb (n =? 0))%nat
                   then Some (ascii_of_nat n, r) else None
               | None => None
               end
           | None => None
           end
       | _ => None
       end.

(** Character data up to the next tag. *)
Fixpoint read_chardata (fuel : nat) (s : string) : option (string * string) :=
  match fuel with
  | 0 => None
  | S fuel' =>
      match s with
      | EmptyString => Some (EmptyString, EmptyString)
      | String c s' =>
          if Ascii.eqb c "<" then Some (EmptyString, s)
          else if Ascii.eqb c "&" then
            match read_reference s' with
            | Some (x, r) =>
                match read_chardata fuel' r with
                | Some (t, r') => Some (String x t, r')
                | None => None
                end
            | None => None
            end
          else if Ascii.eqb c "013" then
            let r := match s' with
                     | String "010" s'' => s''
                     | _ => s'
                     end in
            match read_chardata fuel' r with
            | Some (t, r') => Some (String "010" t, r')
            | None => None
            end
          else if is_control c then None
          else
            match read_chardata fuel' s' with
            | Some (t, r') => Some (String c t, r')
            | None => None
            end
      end
  end.

(** An attribute value up to the closing quote [q]. *)
Fixpoint read_attvalue (fuel : nat) (q : ascii) (s : string)
  : option (string * string) :=
  match fuel with
  | 0 => None
  | S fuel' =>
      match s with
      | EmptyString => None
      | String c s' =>
          if Ascii.eqb c q then Some (EmptyString, s')
          else if Ascii.eqb c "<" then None
          else if Ascii.eqb c "&" then
            match read_reference s' with
            | Some (x, r) =>
                match read_attvalue fuel' q r with
                | Some (t, r') => Some (String x t, r')
                | None => None
                end
            | None => None
            end
          else if Ascii.eqb c "013" then
            let r := match s' with
                     | String "010" s'' => s''
                     | _ => s'
                     end in
            match read_attvalue fuel' q r with
            | Some (t, r') => Some (String " " t, r')
            | None => None
            end
          else if is_control c then None
          else
            match read_attvalue fuel' q s' with
            | Some (t, r') =>
                Some (String (if is_xml_space c then " "%char else c) t, r')
            | None => None
            end
      end
  end.

(** The attributes of a start tag, up to its [>] or [/>]. *)
Fixpoint read_attrs (fuel : nat) (acc : list (string * string)) (s : string)
  : option (list (string * string) * string) :=
  match fuel with
  | 0 => None
  | S fuel' =>
      let s1 := skip_space s in
      match s1 with
      | EmptyString => None
      | String c _ =>
          if Ascii.eqb c ">" || Ascii.eqb c "/" then Some (rev acc, s1)
          else
            let '(name, s2) := read_name s1 in
            if negb (Py.truthy name) then None
            else if existsb (fun kv => String.eqb (fst kv) name) acc then None
            else
              match skip_space s2 with
              | String "=" s3 =>
                  match skip_space s3 with
                  | String q s4 =>
                      if Ascii.eqb q "034" || Ascii.eqb q "'" then
                        match read_attvalue fuel' q s4 with
                        | Some (v, s5) =>
                            read_attrs fuel' ((name, v) :: acc) s5
                        | None => None
                        end
                      else None
                  | EmptyString => None
                  end
              | _ => None
              end
      end
  end.

Definition text_of (s : string) : option string :=
  if Py.truthy s then Some s else None.

Definition set_tail (e : element) (tl : option string) : element :=
  match e with Element tg at_ tx cs _ => Element tg at_ tx cs tl end.

(** The children of an element and their tails, up to the [</] of its end
    tag; [parse_elem] reads one child from after its [<]. *)
Fixpoint parse_content (parse_elem : string -> option (element * string))
    (chars : nat) (n : nat) (acc : list element) (r : string)
  : option (list element * string) :=
  match n with
  | 0 => None
  | S n' =>
      match r with
      | String c1 (String c2 r1) =>
          if negb (Ascii.eqb c1 "<") then None
          else if Ascii.eqb c2 "/" then Some (rev acc, r1)
          else
            match parse_elem (String c2 r1) with
            | Some (e, r2) =>
                match read_chardata chars r2 with
                | Some (tl, r3) =>
                    parse_content parse_elem chars n'
                                  (set_tail e (text_of tl) :: acc) r3
                | None => None
                end
            | None => None
            end
      | _ => None
      end
  end.

(** An element, from after the [<] of its start tag to the [>] of its end
    tag. *)
Fixpoint parse_element (fuel : nat) (s : string) : option (element * string) :=
  match fuel with
  | 0 => None
  | S fuel' =>
      let '(name, s1) := read_name s in
      if negb (Py.truthy name) then None
      else
        match read_attrs fuel [] s1 with
        | Some (attrs, String "/" (String ">" s2)) =>
            Some (Element name attrs None [] None, s2)
        | Some (attrs, String ">" s2) =>
            match read_chardata fuel s2 with
            | Some (tx, s3) =>
                match parse_content (parse_element fuel') fuel fuel [] s3 with
                | Some (cs, s4) =>
                    let '(close, s5) := read_name s4 in
                    match skip_space s5 with
                    | String ">" s6 =>
                        if String.eqb close name then
                          Some (Element name attrs (text_of tx) cs None, s6)
                        else None
                    | _ => None
                    end
                | None => None
                end
            | None => None
            end
        | _ => None
        end
  end.

(** After the [<?xml ... ] of a declaration: what follows its [?>]. *)
Fixpoint skip_declaration (s : string) : option string :=
  match s with
  | EmptyString => None
  | String "?" (String ">" r) => Some r
  | String _ s' => skip_declaration s'
  end.

(** Where the parser leaves this model: a name with a colon in it, or an
    attribute named [xmlns].  [ET.parse] takes these for namespace prefixes
    and declarations; it then gives names of the form [{uri}local], drops
    the declarations from the attributes, or refuses the document. *)
Fixpoint has_colon (s : string) : bool :=
  match s with
  | EmptyString => false
  | String c s' => Ascii.eqb c ":" || has_colon s'
  end.

Fixpoint uses_namespaces (e : element) : bool :=
  match e with
  | Element tg at_ _ cs _ =>
      has_colon tg
      || existsb (fun kv => has_colon (fst kv) || String.eqb (fst kv) "xmlns") at_
      || existsb uses_namespaces cs
  end.

Definition ET_parse (s : string) : option element :=
  let fuel := S (String.length s) in
  let body :=
    if String.prefix "<?xml" s then skip_declaration (drop 5 s) else Some s in
  match body with
  | Some b =>
      match skip_space b with
      | String "<" r =>
          match parse_element fuel r with
          | Some (root, rest) =>
              match skip_space rest with
              | EmptyString => if uses_namespaces root then None else Some root
              | String _ _ => None
              end
          | None => None
          end
      | _ => None
      end
  | None => None
  end.

(** *** [load_xml], [ask_restart] and [main] *)

(** What [ET.parse(XML_PATH)] does. *)
Inductive loaded : Type :=
| FileNotFound
| Unparsable
| Loaded (root : element).

(** What [input()] does. *)
Inductive answer : Type :=
| Typed (line : string)
| CtrlC
| EndOfInput.

(** What [subprocess.run(..., check=True)] does: the script runs and exits
    with status 0; it exits with another status ([CalledProcessError]); the
    operator interrupts it ([KeyboardInterrupt]); or it cannot be started,
    being missing or not executable ([OSError]). *)
Inductive restart_run : Type :=
| Exit0
| ExitNonzero
| RunCtrlC
| CannotStart.

(** What [tree.write] does: it completes, or it raises [OSError] after some
    of its file operations (none of them when the file cannot be opened). *)
Inductive write_run : Type :=
| WriteDone
| WriteRaises (done : nat).

Inductive effect : Type :=
| Print (m : message)
| Prompt
| FileOp (op : file_op)
| Subprocess (cmd : string).

Record outcome : Type := mk_outcome { trace : list effect; status : nat }.

Definition lower_char (c : ascii) : ascii :=
  let n := nat_of_ascii c in
  if ((65 <=? n) && (n <=? 90))%nat then ascii_of_nat (n + 32) else c.

Fixpoint lower (s : string) : string :=
  match s with
  | EmptyString => EmptyString
  | String c s' => String (lower_char c) (lower s')
  end.

(** The effects of [ask_restart], and the exception that leaves it. *)
Definition ask_restart (typed : answer) (run : restart_run)
  : list effect * option exception :=
  match typed with
  | Typed line =>
      let ans := lower (Py.strip line) in
      if String.eqb ans "y" || String.eqb ans "yes" then
        ([Prompt; Print MsgRestarting; Subprocess "/opt/tools/Restart.sh"]
         ++ match run with
            | Exit0 => [Print MsgRestartDone]
            | ExitNonzero => [Print MsgRestartFailed]
            | RunCtrlC => [Print MsgInterrupted]
            | CannotStart => []
            end,
         match run with CannotStart => Some OSError | _ => None end)
      else ([Prompt; Print MsgRestartSkipped], None)
  | CtrlC => ([Prompt; Print MsgInterrupted], None)
  | EndOfInput => ([Prompt], Some EOFError)
  end.

(** [main], for the command line [argv] (program name first), the outcome of
    parsing the file, what [tree.write] does, the operator's answer and the
    restart script's run.  An exception that nothing catches ends the
    process with status 1. *)
Definition main_w (argv : list string) (file : loaded) (write : write_run)
    (typed : answer) (run : restart_run) : outcome :=
  if (List.length argv <? 2)%nat then mk_outcome [Print MsgUsage] 0
  else
    match file with
    | FileNotFound => mk_outcome [Print MsgXmlNotFound] 1
    | Unparsable => mk_outcome [] 1
    | Loaded root =>
        if String.eqb (nth 1 argv EmptyString) "view" then
          mk_outcome [Print (MsgTable (view_configs root))] 0
        else if negb (List.length argv =? 3)%nat then
          mk_outcome [Print MsgInvalidArgs] 1
        else
          let key := nth 1 argv EmptyString in
          let value := nth 2 argv EmptyString in
          match update_config root key value with
          | Raise _ => mk_outcome [] 1
          | Return (root', msg, true) =>
              match write with
              | WriteRaises done =>
                  mk_outcome
                    (Print msg
                     :: map FileOp (firstn done (tree_write XML_PATH root')))
                    1
              | WriteDone =>
                  let '(effs, exc) := ask_restart typed run in
                  mk_outcome
                    (Print msg :: map FileOp (tree_write XML_PATH root') ++ effs)
                    (match exc with Some _ => 1 | None => 0 end)
              end
          | Return (_, msg, false) => mk_outcome [Print msg] 0
          end
    end.

(** The runs of [main] in which [tree.write] completes. *)
Definition main (argv : list string) (file : loaded) (typed : answer)
    (run : restart_run) : outcome :=
  main_w argv file WriteDone typed run.

(** *** What the file carries

    The documents that are read back from the file as they were written:
    plain names, no attribute named [xmlns], no empty text, no carriage
    return or control character. *)

(** The character data written for a text or a tail. *)
Definition ser_text (x : option string) : string :=
  String.concat EmptyString (write_text x).

Definition name_char (c : ascii) : bool :=
  let n := nat_of_ascii c in
  (((65 <=? n) && (n <=? 90)) || ((97 <=? n) && (n <=? 122))
   || ((48 <=? n) && (n <=? 57)) || (n =? 95) || (n =? 45) || (n =? 46))%nat.

Definition name_start (c : ascii) : bool :=
  let n := nat_of_ascii c in
  (((65 <=? n) && (n <=? 90)) || ((97 <=? n) && (n <=? 122)) || (n =? 95))%nat.

Fixpoint all_chars (p : ascii -> bool) (s : string) : bool :=
  match s with
  | EmptyString => true
  | String c s' => p c && all_chars p s'
  end.

(** A name without a namespace: a letter or underscore, then letters,
    digits, [_], [-] and [.]. *)
Definition name_ok (s : string) : bool :=
  match s with
  | EmptyString => false
  | String c _ => name_start c && all_chars name_char s
  end.

(** A character that character data carries unchanged. *)
Definition text_char (c : ascii) : bool :=
  negb (is_control c) && negb (Ascii.eqb c "013") && negb (Ascii.eqb c "000").

(** A character that an attribute value carries unchanged. *)
Definition attr_char (c : ascii) : bool :=
  negb (is_control c) && negb (Ascii.eqb c "000").

Definition text_ok (x : option string) : bool :=
  match x with
  | None => true
  | Some s => Py.truthy s && all_chars text_char s
  end.

Fixpoint attrs_ok (a : list (string * string)) : bool :=
  match a with
  | [] => true
  | (k, v) :: a' =>
      name_ok k && all_chars attr_char v
      && negb (existsb (fun kv => String.eqb (fst kv) k) a') && attrs_ok a'
  end.

(** No attribute is named [xmlns]: written to the file, such an attribute
    is a namespace declaration, which the parser takes out of the attributes
    and applies to the names. *)
Definition plain_attrs (a : list (string * string)) : bool :=
  forallb (fun kv => negb (String.eqb (fst kv) "xmlns")) a.

(** A tree that the file carries as it is. *)
Fixpoint storable (e : element) : bool :=
  match e with
  | Element tg at_ tx cs tl =>
      plain_attrs at_ && name_ok tg && attrs_ok at_ && text_ok tx && text_ok tl
      && forallb storable cs
  end.

(** What may follow a name, and what may follow character data. *)
Definition ends_name (rest : string) : bool :=
  match rest with
  | EmptyString => true
  | String c _ => is_name_end c
  end.

Definition starts_tag (rest : string) : bool :=
  match rest with
  | EmptyString => true
  | String c _ => Ascii.eqb c "<"
  end.

(** The attributes as written. *)
Definition ser_attrs (a : list (string * string)) : string :=
  String.concat EmptyString (map write_attr a).

(** What follows the attributes: white space, then the end of the tag. *)
Definition ends_start_tag (rest : string) : bool :=
  match skip_space rest with
  | EmptyString => false
  | String c _ => Ascii.eqb c ">" || Ascii.eqb c "/"
  end.

Definition has_content (tx : option string) (cs : list element) : bool :=
  truthy_opt tx || negb (Nat.eqb (List.length cs) 0).

(** What the file holds of an element after the [<] of its start tag, its
    tail left out. *)
Fixpoint body (e : element) : string :=
  match e with
  | Element tg at_ tx cs _ =>
      (tg ++ ser_attrs at_
       ++ (if has_content tx cs then
             ">" ++ ser_text tx
             ++ (fix kids (l : list element) : string :=
                   match l with
                   | [] => EmptyString
                   | c :: l' => "<" ++ body c ++ ser_text (tail c) ++ kids l'
                   end) cs
             ++ "</" ++ tg ++ ">"
           else " />"))%string
  end.

Fixpoint ser_children (cs : list element) : string :=
  match cs with
  | [] => EmptyString
  | c :: cs' => ("<" ++ body c ++ ser_text (tail c) ++ ser_children cs')%string
  end.


(** *** The statements of the specification *)

(** The table in the words of the specification.  An entry is a [table]
    element anywhere below the root; its key, value and description are the
    texts of its first child [column] elements with the [name] attribute
    [key], [value] and [ettc]. *)
Module Shown.

Definition is_named_column (name : string) (c : element) : bool :=
  String.eqb (tag c) "column"
  && match find (fun kv => String.eqb (fst kv) "name") (attrib c) with
     | Some kv => String.eqb (snd kv) name
     | None => false
     end.

Definition column_named (name : string) (entry : element) : option element :=
  find (is_named_column name) (children entry).

(** The entries in document order: an element comes before the elements
    below it, and these before the elements that follow it. *)
Fixpoint entries_in_order (e : element) : list element :=
  match e with
  | Element _ _ _ cs _ =>
      flat_map (fun c => (if String.eqb (tag c) "table" then [c] else [])
                         ++ entries_in_order c) cs
  end.

Definition has_both (entry : element) : bool :=
  match column_named "key" entry, column_named "value" entry with
  | Some _, Some _ => true
  | _, _ => false
  end.

(** A key or a value without text is shown empty. *)
Definition shown_text (c : option element) : string :=
  match c with
  | Some (Element _ _ (Some s) _ _) => s
  | _ => EmptyString
  end.

Definition key_text (entry : element) : string :=
  shown_text (column_named "key" entry).

Definition value_text (entry : element) : string :=
  shown_text (column_named "value" entry).

(** The description is empty without an [ettc] column, and is how Python
    prints [None] when that column has no text. *)
Definition description_text (entry : element) : string :=
  match column_named "ettc" entry with
  | Some (Element _ _ (Some s) _ _) => s
  | Some (Element _ _ None _ _) => "None"
  | None => EmptyString
  end.

(** [s] followed by the spaces that bring it to the width [w], if any. *)
Definition pad (s : string) (w : nat) : string :=
  s ++ string_of_list_ascii (List.repeat " "%char (w - String.length s)).

Definition line (kw vw : nat) (k v d : string) : string :=
  pad k kw ++ "  " ++ pad v vw ++ "  " ++ d.

Definition dashes (n : nat) : string :=
  string_of_list_ascii (List.repeat "-"%char n).

(** The entries included, and the widths of the two columns. *)
Definition included (root : element) : list element :=
  filter has_both (entries_in_order root).

Definition key_width (root : element) : nat :=
  list_max (map (fun e => String.length (key_text e)) (included root)).

Definition value_width (root : element) : nat :=
  list_max (map (fun e => String.length (value_text e)) (included root)).

Definition table (root : element) : list string :=
  let kw := key_width root in
  let vw := value_width root in
  [" "; line kw vw "KEY" "VALUE" "DESCRIPTION"; dashes (kw + vw + 15)]
  ++ map (fun e => line kw vw (key_text e) (value_text e) (description_text e))
         (included root).

End Shown.

Definition has_key (key : string) (e : entry) : bool :=
  match fst (fst e) with
  | Some (Some s) => String.eqb s key
  | _ => false
  end.

(** The value of the first entry with the given key. *)
Definition value_for (key : string) (es : list entry)
  : option (option (option string)) :=
  option_map (fun e => snd (fst e)) (find (has_key key) es).


(** "Write to a temp file in the same directory, then rename over the
    target", so that whenever the writing stops the target holds the
    original document or the new one. *)
Definition atomic_save_claim (root : element) (original : string) : Prop :=
  let ops := tree_write XML_PATH root in
  (exists tmp, tmp <> XML_PATH /\ In (Rename tmp XML_PATH) ops)
  /\ forall n,
       let d := apply_ops (store (fun _ => None) XML_PATH (Some original))
                          (firstn n ops) in
       d XML_PATH = Some original \/ d XML_PATH = Some (written root).

(** "Any other argument count prints usage and exits 0; missing document
    file exits 1; unmatched key prints an error and exits with success". *)
Definition cli_claim (argv : list string) (file : loaded) (typed : answer)
    (run : restart_run) : Prop :=
  let o := main argv file typed run in
  (List.length argv <> 2 -> List.length argv <> 3 ->
   trace o = [Print MsgUsage] /\ status o = 0)
  /\ (file = FileNotFound ->
      List.length argv = 2 \/ List.length argv = 3 -> status o = 1)
  /\ (forall root, file = Loaded root -> List.length argv = 3 ->
      nth 1 argv EmptyString <> "view" ->
      first_match root (nth 1 argv EmptyString) = None ->
      trace o = [Print (MsgKeyNotFound (nth 1 argv EmptyString))]
      /\ status o = 0).

Definition targets (path : string) (op : file_op) : bool :=
  match op with
  | OpenTruncate p | WriteChunk p _ | CloseFile p => String.eqb p path
  | Rename _ _ => false
  end.

Definition file_ops (effs : list effect) : list file_op :=
  flat_map (fun e => match e with FileOp op => [op] | _ => [] end) effs.

(** *** Example documents *)

Definition column (name : string) (content : option string) : element :=
  Element "column" [("name", name)] content [] None.

Definition table_ (cols : list element) : element :=
  Element "table" [("name", "bot_config")] None cols None.

(** Two complete entries, one with a description. *)
Definition config_doc : element :=
  Element "database" [] None
    [table_ [column "key" (Some "poll_interval"); column "value" (Some "30");
             column "ettc" (Some "seconds between polls")];
     table_ [column "key" (Some "symbol"); column "value" (Some "USDJPY")]]
    None.

(** The first table with the key [poll_interval] has no value column. *)
Definition config_doc_key_only : element :=
  Element "database" [] None
    [table_ [column "key" (Some "poll_interval")];
     table_ [column "key" (Some "poll_interval"); column "value" (Some "30")]]
    None.

(** Tables at the top, in another element and in a table; tables without a
    key or without a value column; key, value and description columns
    without text. *)
Definition view_sample_doc : element :=
  Element "database" [] None
    [table_ [column "key" (Some "poll_interval"); column "value" (Some "30");
             column "ettc" (Some "seconds")];
     table_ [column "key" (Some "orphan")];
     Element "group" [] None
       [table_ [column "value" (Some "lost")];
        table_ [column "key" None; column "value" (Some "x");
                column "ettc" None;
                table_ [column "key" (Some "in");
                        column "value" (Some "nested")]]]
       None;
     table_ [column "key" (Some "symbol"); column "value" None]]
    None.

(** One table with two key columns, [a] before [b]. *)
Definition two_key_columns_doc : element :=
  Element "database" [] None
    [table_ [column "key" (Some "a"); column "key" (Some "b");
             column "value" (Some "1")]]
    None.


End XmlEdit.

(** * Proofs *)
Module DelDirFacts.
Import DelDir.

(** Induction on trees, with the hypothesis for every entry of a directory. *)
Lemma node_ind' (P : node -> Prop) :
  P File ->
  (forall es, Forall (fun e => P (snd e)) es -> P (Dir es)) ->
  forall t, P t.
Proof.
  intros HF HD. fix IH 1. intros [|es]; [exact HF|]. apply HD.
  induction es as [|[n c] es IHes]; constructor; [apply IH | exact IHes].
Qed.

(** *** Association lists *)

Lemma existsb_eqb_In (x : string) (l : list string) :
  existsb (String.eqb x) l = true <-> In x l.
Proof.
  rewrite existsb_exists. split.
  - intros [y [Hy Heq]]. apply String.eqb_eq in Heq. now subst.
  - intros H. exists x. split; [exact H | apply String.eqb_refl].
Qed.

Lemma nodupb_NoDup (l : list string) : nodupb l = true -> NoDup l.
Proof.
  induction l as [|x l IH]; simpl; intros H; constructor.
  - apply andb_prop in H. destruct H as [H _]. intros Hin.
    apply existsb_eqb_In in Hin. rewrite Hin in H. discriminate.
  - apply IH. apply andb_prop in H. tauto.
Qed.

Lemma wf_names_Dir (es : list (string * node)) :
  wf_names (Dir es) = true ->
  NoDup (map fst es) /\ Forall (fun e => wf_names (snd e) = true) es.
Proof.
  simpl. intros H. apply andb_prop in H. destruct H as [H1 H2]. split.
  - now apply nodupb_NoDup.
  - apply Forall_forall. intros e He. rewrite forallb_forall in H2. now apply H2.
Qed.

Lemma lookup_entry_app_notin n done l :
  ~ In n (map fst done) -> lookup_entry n (done ++ l) = lookup_entry n l.
Proof.
  induction done as [|[m c] done IH]; simpl; intros H; [reflexivity|].
  destruct (String.eqb_spec m n) as [->|Hne]; [tauto|]. apply IH. tauto.
Qed.

Lemma lookup_entry_In n c es : lookup_entry n es = Some c -> In (n, c) es.
Proof.
  induction es as [|[m d] es IH]; simpl; [discriminate|].
  destruct (String.eqb_spec m n) as [->|Hne].
  - intros [= ->]. now left.
  - intros H. right. now apply IH.
Qed.

Lemma In_lookup_entry n c es :
  NoDup (map fst es) -> In (n, c) es -> lookup_entry n es = Some c.
Proof.
  induction es as [|[m d] es IH]; simpl; [tauto|].
  intros Hnd [Heq|Hin].
  - inversion Heq; subst. now rewrite String.eqb_refl.
  - inversion Hnd as [|? ? Hnotin Hnd']; subst.
    destruct (String.eqb_spec m n) as [->|Hne].
    + exfalso. apply Hnotin. apply (in_map fst) in Hin. exact Hin.
    + now apply IH.
Qed.

Lemma lookup_entry_update n f es :
  lookup_entry n (update_entry n f es) = option_map f (lookup_entry n es).
Proof.
  induction es as [|[m c] es IH]; simpl; [reflexivity|].
  destruct (String.eqb_spec m n) as [->|Hne]; simpl.
  - now rewrite String.eqb_refl.
  - destruct (String.eqb_spec m n); [contradiction | exact IH].
Qed.

Lemma lookup_entry_update_other n m f es :
  m <> n -> lookup_entry n (update_entry m f es) = lookup_entry n es.
Proof.
  intros Hne. induction es as [|[k c] es IH]; simpl; [reflexivity|].
  destruct (String.eqb_spec k m) as [->|Hkm]; simpl.
  - destruct (String.eqb_spec m n); [contradiction | reflexivity].
  - destruct (String.eqb_spec k n); [reflexivity | exact IH].
Qed.

Lemma lookup_entry_remove n es : lookup_entry n (remove_entry n es) = None.
Proof.
  induction es as [|[m c] es IH]; simpl; [reflexivity|].
  destruct (String.eqb_spec m n) as [->|Hne]; simpl; [exact IH|].
  destruct (String.eqb_spec m n); [contradiction | exact IH].
Qed.

Lemma lookup_entry_remove_other n m es :
  m <> n -> lookup_entry n (remove_entry m es) = lookup_entry n es.
Proof.
  intros Hne. induction es as [|[k c] es IH]; simpl; [reflexivity|].
  destruct (String.eqb_spec k m) as [->|Hkm]; simpl.
  - destruct (String.eqb_spec m n); [contradiction | exact IH].
  - destruct (String.eqb_spec k n); [reflexivity | exact IH].
Qed.

Lemma update_entry_twice n f g es :
  update_entry n g (update_entry n f es) = update_entry n (fun c => g (f c)) es.
Proof.
  induction es as [|[m c] es IH]; simpl; [reflexivity|].
  destruct (String.eqb_spec m n) as [->|Hne]; simpl.
  - now rewrite String.eqb_refl.
  - destruct (String.eqb_spec m n); [contradiction|]. now rewrite IH.
Qed.

Lemma update_entry_ext n f g es c :
  lookup_entry n es = Some c -> f c = g c ->
  update_entry n f es = update_entry n g es.
Proof.
  induction es as [|[m d] es IH]; simpl; [discriminate|].
  destruct (String.eqb_spec m n) as [->|Hne].
  - intros [= ->] ->. reflexivity.
  - intros H1 H2. now rewrite IH.
Qed.

Lemma update_entry_split n f done c todo :
  ~ In n (map fst done) ->
  update_entry n f (done ++ (n, c) :: todo) = done ++ (n, f c) :: todo.
Proof.
  induction done as [|[m d] done IH]; simpl; intros H.
  - now rewrite String.eqb_refl.
  - destruct (String.eqb_spec m n) as [->|Hne]; [tauto|]. rewrite IH; tauto.
Qed.

Lemma remove_entry_notin n es : ~ In n (map fst es) -> remove_entry n es = es.
Proof.
  induction es as [|[m d] es IH]; simpl; intros H; [reflexivity|].
  destruct (String.eqb_spec m n) as [->|Hne]; [tauto|]. simpl. rewrite IH; tauto.
Qed.

Lemma remove_entry_split n done c todo :
  ~ In n (map fst done) -> ~ In n (map fst todo) ->
  remove_entry n (done ++ (n, c) :: todo) = done ++ todo.
Proof.
  intros H1 H2. unfold remove_entry. rewrite filter_app. simpl.
  rewrite String.eqb_refl. simpl.
  fold (remove_entry n done). fold (remove_entry n todo).
  now rewrite !remove_entry_notin.
Qed.

(** *** Paths *)

Lemma lookup_app fs p q :
  lookup fs (p ++ q) =
  match lookup fs p with Some t => lookup t q | None => None end.
Proof.
  revert fs. induction p as [|n p IH]; intros fs; simpl; [reflexivity|].
  destruct fs as [|es]; [reflexivity|].
  destruct (lookup_entry n es); [apply IH | reflexivity].
Qed.

Lemma lookup_replace p : forall fs x t',
  lookup fs p = Some x -> lookup (replace p t' fs) p = Some t'.
Proof.
  induction p as [|n p IH]; intros fs x t'; simpl; [reflexivity|].
  destruct fs as [|es]; [discriminate|].
  rewrite lookup_entry_update.
  destruct (lookup_entry n es) as [c|]; [|discriminate]. simpl. apply IH.
Qed.

Lemma rmtree_cons n q es :
  q <> [] -> rmtree (n :: q) (Dir es) = Dir (update_entry n (rmtree q) es).
Proof. destruct q; [congruence | reflexivity]. Qed.

Lemma lookup_rmtree p : forall fs q,
  p <> [] -> lookup (rmtree p fs) (p ++ q) = None.
Proof.
  induction p as [|n p IH]; intros fs q Hp; [congruence|].
  destruct fs as [|es]; [reflexivity|].
  destruct p as [|m p].
  - simpl. now rewrite lookup_entry_remove.
  - rewrite rmtree_cons by discriminate. simpl lookup.
    rewrite lookup_entry_update.
    destruct (lookup_entry n es) as [c|]; [|reflexivity]. simpl.
    apply (IH c q). discriminate.
Qed.

Lemma place_cons n q r es :
  q <> [] -> place (n :: q) r (Dir es) = Dir (update_entry n (place q r) es).
Proof.
  intros Hq. destruct r as [t'|]; simpl place.
  - reflexivity.
  - now apply rmtree_cons.
Qed.

Lemma place_join p : forall fs x done n c todo r,
  lookup fs p = Some x ->
  ~ In n (map fst done) -> ~ In n (map fst todo) ->
  place (join p n) r (replace p (Dir (done ++ (n, c) :: todo)) fs)
  = replace p (Dir (done ++ opt_cons n r todo)) fs.
Proof.
  induction p as [|m p IH]; intros fs x done n c todo r Hl Hd Ht.
  - simpl. destruct r as [c'|]; simpl.
    + now rewrite update_entry_split.
    + now rewrite remove_entry_split.
  - simpl in Hl. destruct fs as [|es]; [discriminate|].
    destruct (lookup_entry m es) as [c0|] eqn:Hm; [|discriminate].
    change (join (m :: p) n) with (m :: join p n). simpl replace.
    rewrite place_cons by (unfold join; destruct p; discriminate).
    rewrite update_entry_twice. f_equal.
    apply update_entry_ext with (c := c0); [exact Hm|].
    now apply IH with (x := x).
Qed.

(** *** The walk against the recursion on the tree *)

Section Walk.

Variable rmtree_ok : string -> bool.
Variable active_dir : option string.

Local Abbreviation run := (run rmtree_ok active_dir).
Local Abbreviation visit := (visit rmtree_ok active_dir).
Local Abbreviation sweep_node := (sweep_node rmtree_ok active_dir).
Local Abbreviation sweep_entries := (sweep_entries rmtree_ok active_dir).
Local Abbreviation walks := (walks rmtree_ok active_dir).

Lemma run_mono fuel : forall st res k,
  run fuel st = Some res -> run (k + fuel) st = Some res.
Proof.
  induction fuel as [|fuel IH]; intros st res k H; [discriminate|].
  rewrite Nat.add_succ_r. simpl in *.
  destruct (w_stack st) as [|top rest]; [exact H|].
  destruct (scandir (w_fs st) top) as [[dirs files]|].
  - destruct (visit top files (w_fs st)) as [fs' evs]. now apply IH.
  - now apply IH.
Qed.

Lemma run_le fuel fuel' st res :
  fuel <= fuel' -> run fuel st = Some res -> run fuel' st = Some res.
Proof.
  intros Hle H. replace fuel' with ((fuel' - fuel) + fuel) by lia.
  now apply run_mono.
Qed.

(** Paths whose listing fails are popped one by one. *)
Lemma run_drain ps : forall fs rest out fuel,
  (forall p, In p ps -> scandir fs p = None) ->
  run (List.length ps + fuel) (mk_wstate fs (ps ++ rest) out)
  = run fuel (mk_wstate fs rest out).
Proof.
  induction ps as [|p ps IH]; intros fs rest out fuel H; [reflexivity|].
  simpl. rewrite (H p) by now left. apply IH. intros q Hq. apply H. now right.
Qed.

Lemma sweep_entries_nil root : sweep_entries root [] = ([], []).
Proof. reflexivity. Qed.

Lemma sweep_entries_cons root n c es :
  sweep_entries root ((n, c) :: es)
  = (opt_cons n (fst (sweep_node (join root n) c)) (fst (sweep_entries root es)),
     snd (sweep_node (join root n) c) ++ snd (sweep_entries root es)).
Proof.
  unfold sweep_entries, sweep_entries_with. simpl.
  destruct (sweep_node (join root n) c) as [[c'|] evs]; reflexivity.
Qed.

Lemma sweep_node_Dir root es :
  sweep_node root (Dir es)
  = if has_sentinel es then
      if is_active active_dir (path_str root) then
        (Some (Dir (fst (sweep_entries root es))),
         Skip (path_str root) :: snd (sweep_entries root es))
      else if rmtree_ok (path_str root) then (None, [Delete (path_str root)])
      else (Some (Dir (fst (sweep_entries root es))),
            Delete (path_str root) :: Error (path_str root)
              :: snd (sweep_entries root es))
    else (Some (Dir (fst (sweep_entries root es))), snd (sweep_entries root es)).
Proof. reflexivity. Qed.

Lemma sweep_node_File root : sweep_node root File = (Some File, []).
Proof. reflexivity. Qed.

Lemma dir_names_cons n c es :
  dir_names ((n, c) :: es) = if is_dir c then n :: dir_names es else dir_names es.
Proof. unfold dir_names. simpl. now destruct (is_dir c). Qed.

Lemma length_dir_names_le es :
  List.length (dir_names es) <= list_sum (map (fun e => count_dirs (snd e)) es).
Proof.
  induction es as [|[n c] es IH]; [apply Nat.le_refl|].
  rewrite dir_names_cons. simpl. destruct c as [|ds]; simpl; lia.
Qed.

Lemma list_sum_cons a l : list_sum (a :: l) = a + list_sum l.
Proof. reflexivity. Qed.

Lemma run_children todo : forall done p fs x rest out fuel res,
  Forall (fun e => walks (snd e)) todo ->
  NoDup (map fst (done ++ todo)) ->
  Forall (fun e => wf_names (snd e) = true) todo ->
  p <> [] -> lookup fs p = Some x ->
  run fuel (mk_wstate
              (replace p (Dir (done ++ fst (sweep_entries p todo))) fs) rest
              (out ++ snd (sweep_entries p todo))) = Some res ->
  run (list_sum (map (fun e => count_dirs (snd e)) todo) + fuel)
      (mk_wstate (replace p (Dir (done ++ todo)) fs)
                 (map (join p) (dir_names todo) ++ rest) out) = Some res.
Proof.
  induction todo as [|[n c] todo IH];
    intros done p fs x rest out fuel res HW Hnd Hwf Hp Hl H.
  - rewrite sweep_entries_nil in H. simpl in H. rewrite !app_nil_r in H.
    simpl. rewrite app_nil_r. exact H.
  - inversion HW as [|? ? Hc HW']; subst. inversion Hwf as [|? ? Hwc Hwf']; subst.
    simpl in Hc, Hwc.
    rewrite map_app in Hnd. simpl in Hnd.
    assert (Hnd' := NoDup_remove_1 _ _ _ Hnd).
    assert (Hnotin := NoDup_remove_2 _ _ _ Hnd).
    assert (Hdone : ~ In n (map fst done)).
    { intros Hin. apply Hnotin. apply in_or_app. now left. }
    assert (Htodo : ~ In n (map fst todo)).
    { intros Hin. apply Hnotin. apply in_or_app. now right. }
    rewrite sweep_entries_cons in H. simpl fst in H. simpl snd in H.
    rewrite dir_names_cons. cbn [map snd]. rewrite list_sum_cons.
    destruct c as [|ds].
    + (* a file: not pushed *)
      cbn [is_dir count_dirs]. rewrite Nat.add_0_l.
      rewrite sweep_node_File in H. simpl in H.
      replace (done ++ (n, File) :: todo) with ((done ++ [(n, File)]) ++ todo)
        by (now rewrite <- app_assoc).
      apply IH with (x := x); try assumption.
      * rewrite !map_app. simpl. now rewrite <- app_assoc.
      * now rewrite <- app_assoc.
    + (* a directory: walked before its later siblings *)
      cbn [is_dir map app].
      rewrite <- Nat.add_assoc.
      apply Hc; try assumption; try reflexivity.
      * unfold join; destruct p; discriminate.
      * unfold join. rewrite lookup_app.
        rewrite (lookup_replace p fs x _ Hl). simpl.
        rewrite lookup_entry_app_notin by assumption. simpl.
        now rewrite String.eqb_refl.
      * rewrite (place_join p fs x) by assumption.
        destruct (fst (sweep_node (join p n) (Dir ds))) as [c'|]; simpl opt_cons in *.
        -- replace (done ++ (n, c') :: todo) with ((done ++ [(n, c')]) ++ todo)
             by (now rewrite <- app_assoc).
           apply IH with (x := x); try assumption.
           ++ rewrite !map_app. simpl. now rewrite <- app_assoc.
           ++ rewrite <- !app_assoc. cbn [app]. exact H.
        -- apply IH with (x := x); try assumption.
           ++ now rewrite map_app.
           ++ rewrite <- app_assoc. exact H.
Qed.

Lemma replace_self p : forall fs t, lookup fs p = Some t -> replace p t fs = fs.
Proof.
  induction p as [|n p IH]; intros fs t; simpl.
  - now intros [= ->].
  - destruct fs as [|es]; [reflexivity|].
    destruct (lookup_entry n es) as [c|] eqn:Hn; [|discriminate].
    intros Hl. f_equal.
    rewrite (update_entry_ext n _ (fun c => c) es c Hn) by now apply IH.
    clear. induction es as [|[m d] es IH]; simpl; [reflexivity|].
    destruct (String.eqb m n); [reflexivity | now rewrite IH].
Qed.

Lemma replace_twice p : forall fs x t1 t2,
  lookup fs p = Some x -> replace p t2 (replace p t1 fs) = replace p t2 fs.
Proof.
  induction p as [|n p IH]; intros fs x t1 t2; simpl; [reflexivity|].
  destruct fs as [|es]; [reflexivity|].
  destruct (lookup_entry n es) as [c|] eqn:Hn; [|discriminate].
  intros Hl. rewrite update_entry_twice. f_equal.
  apply update_entry_ext with (c := c); [exact Hn|]. now apply IH with (x := x).
Qed.

Lemma walks_all t : walks t.
Proof.
  induction t as [|es IHes] using node_ind'; intros p fs rest out fuel res
    Hwf Hp Hl Hd H; [discriminate|].
  apply wf_names_Dir in Hwf. destruct Hwf as [Hnd Hwf].
  assert (Hkids : forall out',
    run fuel (mk_wstate (replace p (Dir (fst (sweep_entries p es))) fs) rest
                        (out' ++ snd (sweep_entries p es))) = Some res ->
    run (list_sum (map (fun e => count_dirs (snd e)) es) + fuel)
        (mk_wstate fs (map (join p) (dir_names es) ++ rest) out') = Some res).
  { intros out' H'.
    rewrite <- (replace_self p fs (Dir es) Hl) at 1.
    apply (run_children es [] p fs (Dir es)); assumption. }
  rewrite sweep_node_Dir in H.
  simpl count_dirs. simpl plus. cbn [run w_stack w_fs w_out].
  unfold scandir. rewrite Hl. unfold visit.
  fold (has_sentinel es).
  destruct (has_sentinel es).
  - destruct (is_active active_dir (path_str p)).
    + apply Hkids. simpl in H. now rewrite <- app_assoc.
    + destruct (rmtree_ok (path_str p)).
      * simpl in H.
        apply run_le with (fuel := List.length (map (join p) (dir_names es)) + fuel).
        { rewrite length_map. pose proof (length_dir_names_le es). lia. }
        rewrite run_drain; [exact H|].
        intros q Hq. apply in_map_iff in Hq. destruct Hq as [d [<- _]].
        unfold scandir, join. now rewrite lookup_rmtree.
      * apply Hkids. simpl in H. rewrite <- app_assoc. exact H.
  - apply Hkids. simpl in H. now rewrite app_nil_r.
Qed.


Lemma count_dirs_entry n c es :
  lookup_entry n es = Some c ->
  count_dirs c <= list_sum (map (fun e => count_dirs (snd e)) es).
Proof.
  induction es as [|[m d] es IH]; simpl; [discriminate|].
  destruct (String.eqb m n).
  - intros [= ->]. lia.
  - intros H. apply IH in H. lia.
Qed.

Lemma count_dirs_lookup p : forall fs t,
  lookup fs p = Some t -> count_dirs t <= count_dirs fs.
Proof.
  induction p as [|n p IH]; intros fs t; simpl.
  - intros [= ->]. apply Nat.le_refl.
  - destruct fs as [|es]; [discriminate|].
    destruct (lookup_entry n es) as [c|] eqn:Hn; [|discriminate].
    intros H. apply IH in H. apply count_dirs_entry in Hn. simpl. lia.
Qed.

Lemma wf_names_lookup p : forall fs t,
  wf_names fs = true -> lookup fs p = Some t -> wf_names t = true.
Proof.
  induction p as [|n p IH]; intros fs t Hwf; simpl.
  - now intros [= <-].
  - destruct fs as [|es]; [discriminate|].
    destruct (lookup_entry n es) as [c|] eqn:Hn; [|discriminate].
    apply IH. apply wf_names_Dir in Hwf. destruct Hwf as [_ Hall].
    rewrite Forall_forall in Hall.
    apply (Hall (n, c)). now apply lookup_entry_In.
Qed.

(** The stack machine ends, and its result is the one of the recursion on
    the tree. *)
Lemma sweep_total fs :
  wf_names fs = true ->
  sweep rmtree_ok active_dir fs = Some (sweep_tree rmtree_ok active_dir fs).
Proof.
  intros Hwf. unfold sweep, sweep_tree.
  destruct (lookup fs TMP_PATH) as [[|es]|] eqn:Hl.
  - simpl. unfold scandir. now rewrite Hl.
  - destruct (sweep_node TMP_PATH (Dir es)) as [r evs] eqn:Hs.
    apply run_le with (fuel := count_dirs (Dir es) + 1).
    { apply count_dirs_lookup in Hl. lia. }
    apply walks_all; try assumption; try reflexivity.
    + now apply wf_names_lookup with (p := TMP_PATH) (fs := fs).
    + discriminate.
    + now rewrite Hs.
  - simpl. unfold scandir. now rewrite Hl.
Qed.

End Walk.

(** *** Properties of the recursion on the tree *)

Section Tree.

Variable rmtree_ok : string -> bool.
Variable active_dir : option string.

Local Abbreviation sweep_node := (sweep_node rmtree_ok active_dir).
Local Abbreviation sweep_entries := (sweep_entries rmtree_ok active_dir).
Local Abbreviation is_active := (is_active active_dir).
Local Abbreviation spared := (spared active_dir).

Lemma join_app root n q : join root n ++ q = root ++ n :: q.
Proof. unfold join. now rewrite <- app_assoc. Qed.

Lemma file_names_cons n c es :
  file_names ((n, c) :: es)
  = if is_dir c then file_names es else n :: file_names es.
Proof. unfold file_names. simpl. now destruct (is_dir c). Qed.

Lemma sweep_node_kept root es t' :
  fst (sweep_node root (Dir es)) = Some t' ->
  t' = Dir (fst (sweep_entries root es)).
Proof.
  rewrite (sweep_node_Dir rmtree_ok active_dir).
  destruct (has_sentinel es); [destruct (is_active (path_str root));
    [|destruct (rmtree_ok (path_str root))]|]; simpl; congruence.
Qed.

Lemma sweep_node_is_dir root t t' :
  fst (sweep_node root t) = Some t' -> is_dir t' = is_dir t.
Proof.
  destruct t as [|es].
  - now intros [= <-].
  - intros H. apply sweep_node_kept in H. now subst t'.
Qed.

Lemma sweep_entries_In root es n c' :
  In (n, c') (fst (sweep_entries root es)) ->
  exists c, In (n, c) es /\ fst (sweep_node (join root n) c) = Some c'.
Proof.
  induction es as [|[m d] es IH].
  - simpl. tauto.
  - rewrite (sweep_entries_cons rmtree_ok active_dir). simpl fst.
    destruct (fst (sweep_node (join root m) d)) as [d'|] eqn:Hd; simpl.
    + intros [[= -> ->]|Hin].
      * exists d. split; [now left | exact Hd].
      * destruct (IH Hin) as [c [Hc Hs]]. exists c. split; [now right | exact Hs].
    + intros Hin. destruct (IH Hin) as [c [Hc Hs]].
      exists c. split; [now right | exact Hs].
Qed.

Lemma sweep_entries_names root es m :
  In m (map fst (fst (sweep_entries root es))) -> In m (map fst es).
Proof.
  intros H. apply in_map_iff in H. destruct H as [[n c'] [<- Hin]].
  apply sweep_entries_In in Hin. destruct Hin as [c [Hc _]].
  apply (in_map fst) in Hc. exact Hc.
Qed.

Lemma sweep_entries_NoDup root es :
  NoDup (map fst es) -> NoDup (map fst (fst (sweep_entries root es))).
Proof.
  induction es as [|[m d] es IH]; intros Hnd.
  - constructor.
  - inversion Hnd as [|? ? Hnotin Hnd']; subst.
    rewrite (sweep_entries_cons rmtree_ok active_dir). simpl fst.
    destruct (fst (sweep_node (join root m) d)) as [d'|]; simpl.
    + constructor; [|now apply IH].
      intros Hin. apply Hnotin. now apply sweep_entries_names in Hin.
    + now apply IH.
Qed.

Lemma sweep_entries_lookup root es n :
  NoDup (map fst es) ->
  lookup_entry n (fst (sweep_entries root es))
  = match lookup_entry n es with
    | Some c => fst (sweep_node (join root n) c)
    | None => None
    end.
Proof.
  induction es as [|[m d] es IH]; intros Hnd; [reflexivity|].
  inversion Hnd as [|? ? Hnotin Hnd']; subst.
  rewrite (sweep_entries_cons rmtree_ok active_dir). simpl fst. simpl lookup_entry.
  destruct (String.eqb_spec m n) as [->|Hne].
  - destruct (fst (sweep_node (join root n) d)) as [d'|]; simpl.
    + now rewrite String.eqb_refl.
    + destruct (lookup_entry n (fst (sweep_entries root es))) as [x|] eqn:Hx;
        [|reflexivity].
      exfalso. apply Hnotin. apply (sweep_entries_names root).
      apply lookup_entry_In in Hx. apply (in_map fst) in Hx. exact Hx.
  - destruct (fst (sweep_node (join root m) d)) as [d'|]; simpl.
    + destruct (String.eqb_spec m n); [contradiction|]. now apply IH.
    + now apply IH.
Qed.

Lemma sweep_entries_file_names root es :
  file_names (fst (sweep_entries root es)) = file_names es.
Proof.
  induction es as [|[m d] es IH]; [reflexivity|].
  rewrite (sweep_entries_cons rmtree_ok active_dir). simpl fst.
  rewrite file_names_cons.
  destruct (fst (sweep_node (join root m) d)) as [d'|] eqn:Hd; simpl opt_cons.
  - rewrite file_names_cons, (sweep_node_is_dir _ _ _ Hd), IH. reflexivity.
  - destruct d as [|ds]; [discriminate Hd | exact IH].
Qed.

Lemma sweep_entries_event root es n c ev :
  In (n, c) es -> In ev (snd (sweep_node (join root n) c)) ->
  In ev (snd (sweep_entries root es)).
Proof.
  induction es as [|[m d] es IH]; [simpl; tauto|].
  rewrite (sweep_entries_cons rmtree_ok active_dir). simpl snd.
  intros [[= -> ->]|Hin] Hev; apply in_or_app; [now left | right; now apply IH].
Qed.

Lemma sweep_entries_event_inv root es ev :
  In ev (snd (sweep_entries root es)) ->
  exists n c, In (n, c) es /\ In ev (snd (sweep_node (join root n) c)).
Proof.
  induction es as [|[m d] es IH]; [simpl; tauto|].
  rewrite (sweep_entries_cons rmtree_ok active_dir). simpl snd.
  intros H. apply in_app_or in H. destruct H as [H|H].
  - exists m, d. split; [now left | exact H].
  - destruct (IH H) as [n [c [Hin Hev]]]. exists n, c. split; [now right | exact Hev].
Qed.

(** The events of a directory that stays include those of its entries. *)
Lemma sweep_node_event_below root es n c ev :
  (has_sentinel es = true -> is_active (path_str root) = false ->
   rmtree_ok (path_str root) = false) ->
  In (n, c) es -> In ev (snd (sweep_node (join root n) c)) ->
  In ev (snd (sweep_node root (Dir es))).
Proof.
  intros Hkeep Hin Hev. pose proof (sweep_entries_event root es n c ev Hin Hev) as H.
  rewrite (sweep_node_Dir rmtree_ok active_dir).
  destruct (has_sentinel es); [|exact H].
  destruct (is_active (path_str root)); [now right|].
  rewrite Hkeep by reflexivity. right. now right.
Qed.

Lemma no_error_below root es n c :
  no_error (snd (sweep_node root (Dir es))) ->
  fst (sweep_node root (Dir es)) <> None ->
  In (n, c) es -> no_error (snd (sweep_node (join root n) c)).
Proof.
  intros Hne Hkept Hin s Hs. apply (Hne s).
  apply sweep_node_event_below with (n := n) (c := c); try assumption.
  intros Hsen Hact. destruct (rmtree_ok (path_str root)) eqn:Hok; [|reflexivity].
  exfalso. apply Hkept. rewrite (sweep_node_Dir rmtree_ok active_dir).
  now rewrite Hsen, Hact, Hok.
Qed.



Lemma spared_below root es n c q :
  lookup_entry n es = Some c ->
  spared root (Dir es) (n :: q) -> spared (join root n) c q.
Proof.
  intros Hn Hsp q1 es1 [r [Hr ->]] Hl. rewrite join_app.
  apply Hsp.
  - exists r. split; [exact Hr | reflexivity].
  - simpl. now rewrite Hn.
Qed.

Lemma spared_top root es q :
  q <> [] -> spared root (Dir es) q ->
  has_sentinel es = false \/ is_active (path_str root) = true.
Proof.
  intros Hq Hsp. rewrite <- (app_nil_r root). apply Hsp with (es1 := es).
  - exists q. split; [exact Hq | reflexivity].
  - reflexivity.
Qed.

Lemma sweep_node_spared root es :
  has_sentinel es = false \/ is_active (path_str root) = true ->
  fst (sweep_node root (Dir es)) = Some (Dir (fst (sweep_entries root es))).
Proof.
  rewrite (sweep_node_Dir rmtree_ok active_dir).
  intros [H|H]; rewrite H; [reflexivity|]. now destruct (has_sentinel es).
Qed.

(** What the sweep leaves at a position that the walk reaches. *)
Lemma reach_node q : forall root t x,
  wf_names t = true -> spared root t q -> lookup t q = Some x ->
  match fst (sweep_node root t) with
  | Some t' => lookup t' q
  | None => None
  end = fst (sweep_node (root ++ q) x).
Proof.
  induction q as [|n q IH]; intros root t x Hwf Hsp Hl.
  - simpl in Hl. injection Hl as ->. rewrite app_nil_r.
    now destruct (fst (sweep_node root x)).
  - simpl in Hl. destruct t as [|es]; [discriminate|].
    destruct (lookup_entry n es) as [c|] eqn:Hn; [|discriminate].
    rewrite sweep_node_spared by (apply spared_top with (q := n :: q);
                                  [discriminate | exact Hsp]).
    apply wf_names_Dir in Hwf. destruct Hwf as [Hnd Hall].
    simpl. rewrite sweep_entries_lookup by assumption. rewrite Hn.
    rewrite <- join_app. apply IH; try assumption.
    + rewrite Forall_forall in Hall. apply (Hall (n, c)).
      now apply lookup_entry_In.
    + now apply spared_below with (es := es).
Qed.


(** A tree without the sentinel file is left as it is, silently. *)
Lemma sweep_sentinel_free t : forall root,
  sentinel_free t = true -> sweep_node root t = (Some t, []).
Proof.
  induction t as [|es IHes] using node_ind'; intros root H; [reflexivity|].
  simpl in H. apply andb_prop in H. destruct H as [Hs Hall].
  apply negb_true_iff in Hs.
  rewrite (sweep_node_Dir rmtree_ok active_dir), Hs.
  assert (He : sweep_entries root es = (es, [])).
  { clear Hs. induction es as [|[n c] es IH]; [reflexivity|].
    inversion IHes as [|? ? Hc IHes']; subst. simpl in Hall.
    apply andb_prop in Hall. destruct Hall as [Hc' Hall].
    rewrite (sweep_entries_cons rmtree_ok active_dir).
    simpl in Hc. rewrite (Hc _ Hc'). rewrite (IH IHes' Hall). reflexivity. }
  now rewrite He.
Qed.


(** After a sweep without a failed removal, the sentinel file is left in the
    active directory only. *)
Lemma sweep_settles t : forall root,
  no_error (snd (sweep_node root t)) ->
  match fst (sweep_node root t) with
  | Some t' => settled active_dir root t' = true
  | None => True
  end.
Proof.
  induction t as [|es IHes] using node_ind'; intros root Hne; [reflexivity|].
  destruct (fst (sweep_node root (Dir es))) as [t'|] eqn:Hr; [|exact I].
  pose proof (sweep_node_kept _ _ _ Hr) as ->.
  simpl. apply andb_true_intro. split.
  - unfold has_sentinel. rewrite sweep_entries_file_names. fold (has_sentinel es).
    destruct (has_sentinel es) eqn:Hs; [|reflexivity].
    destruct (is_active (path_str root)) eqn:Ha; [reflexivity|]. exfalso.
    revert Hr Hne. rewrite (sweep_node_Dir rmtree_ok active_dir), Hs, Ha.
    destruct (rmtree_ok (path_str root)); [discriminate|].
    intros _ Hne. apply (Hne (path_str root)). simpl. tauto.
  - apply forallb_forall. intros [n c'] Hin. simpl.
    apply sweep_entries_In in Hin. destruct Hin as [c [Hc Hs]].
    rewrite Forall_forall in IHes. specialize (IHes (n, c) Hc (join root n)).
    simpl in IHes. rewrite Hs in IHes. apply IHes.
    apply no_error_below with (es := es); try assumption. now rewrite Hr.
Qed.

(** On such a tree the sweep removes nothing and only reports the active
    directory. *)
Lemma sweep_settled t : forall root,
  settled active_dir root t = true ->
  fst (sweep_node root t) = Some t /\
  forall ev, In ev (snd (sweep_node root t)) -> exists s, ev = Skip s.
Proof.
  induction t as [|es IHes] using node_ind'; intros root H.
  - split; [reflexivity | simpl; tauto].
  - simpl in H. apply andb_prop in H. destruct H as [Htop Hall].
    assert (He : fst (sweep_entries root es) = es /\
                 forall ev, In ev (snd (sweep_entries root es)) ->
                            exists s, ev = Skip s).
    { clear Htop. induction es as [|[n c] es IH]; [split; [reflexivity | simpl; tauto]|].
      inversion IHes as [|? ? Hc IHes']; subst. simpl in Hall.
      apply andb_prop in Hall. destruct Hall as [Hc' Hall].
      rewrite (sweep_entries_cons rmtree_ok active_dir). simpl in Hc.
      destruct (Hc _ Hc') as [Hc1 Hc2]. destruct (IH IHes' Hall) as [IH1 IH2].
      simpl fst. simpl snd. rewrite Hc1, IH1. split; [reflexivity|].
      intros ev Hev. apply in_app_or in Hev. destruct Hev; auto. }
    destruct He as [He1 He2].
    rewrite (sweep_node_Dir rmtree_ok active_dir).
    destruct (has_sentinel es); simpl in Htop.
    + rewrite Htop. simpl. rewrite He1. split; [reflexivity|].
      intros ev [<-|Hev]; [now exists (path_str root) | now apply He2].
    + simpl. rewrite He1. split; [reflexivity | exact He2].
Qed.

(** *** Unique names are kept *)

Lemma NoDup_nodupb (l : list string) : NoDup l -> nodupb l = true.
Proof.
  induction 1 as [|x l Hnotin Hnd IH]; [reflexivity|]. simpl.
  rewrite IH, andb_true_r. apply negb_true_iff.
  destruct (existsb (String.eqb x) l) eqn:E; [|reflexivity].
  apply existsb_eqb_In in E. contradiction.
Qed.

Lemma wf_names_intro es :
  NoDup (map fst es) -> (forall e, In e es -> wf_names (snd e) = true) ->
  wf_names (Dir es) = true.
Proof.
  intros Hnd Hall. simpl. rewrite NoDup_nodupb by assumption.
  apply forallb_forall. exact Hall.
Qed.

Lemma wf_names_sweep t : forall root t',
  wf_names t = true -> fst (sweep_node root t) = Some t' -> wf_names t' = true.
Proof.
  induction t as [|es IHes] using node_ind'; intros root t' Hwf Hr.
  - injection Hr as <-. reflexivity.
  - apply sweep_node_kept in Hr. subst t'.
    apply wf_names_Dir in Hwf. destruct Hwf as [Hnd Hall].
    apply wf_names_intro.
    + now apply sweep_entries_NoDup.
    + intros [n c'] Hin. simpl. apply sweep_entries_In in Hin.
      destruct Hin as [c [Hc Hs]]. rewrite Forall_forall in IHes, Hall.
      apply (IHes (n, c) Hc (join root n) c'); [|exact Hs]. now apply (Hall (n, c)).
Qed.

Lemma map_fst_update_entry n f es : map fst (update_entry n f es) = map fst es.
Proof.
  induction es as [|[m c] es IH]; [reflexivity|]. simpl.
  destruct (String.eqb m n); simpl; [reflexivity | now rewrite IH].
Qed.

Lemma In_update_entry n f es e :
  In e (update_entry n f es) -> In e es \/ exists c, In (n, c) es /\ e = (n, f c).
Proof.
  induction es as [|[m c] es IH]; simpl; [tauto|].
  destruct (String.eqb_spec m n) as [->|Hne]; simpl.
  - intros [<-|H]; [right; exists c; tauto | tauto].
  - intros [<-|H]; [tauto|]. destruct (IH H) as [H'|[d [Hd ->]]]; [tauto|].
    right. exists d. tauto.
Qed.

Lemma wf_names_update_entry n f es :
  (forall c, wf_names c = true -> wf_names (f c) = true) ->
  wf_names (Dir es) = true -> wf_names (Dir (update_entry n f es)) = true.
Proof.
  intros Hf Hwf. apply wf_names_Dir in Hwf. destruct Hwf as [Hnd Hall].
  rewrite Forall_forall in Hall. apply wf_names_intro.
  - now rewrite map_fst_update_entry.
  - intros e He. apply In_update_entry in He.
    destruct He as [He|[c [Hc ->]]]; [now apply Hall|].
    simpl. apply Hf. now apply (Hall (n, c)).
Qed.

Lemma wf_names_replace p : forall fs t',
  wf_names fs = true -> wf_names t' = true -> wf_names (replace p t' fs) = true.
Proof.
  induction p as [|n p IH]; intros fs t' Hfs Ht'; [exact Ht'|].
  destruct fs as [|es]; [exact Hfs|]. simpl replace.
  apply wf_names_update_entry; [|exact Hfs]. intros c Hc. now apply IH.
Qed.

Lemma wf_names_remove_entry n es :
  wf_names (Dir es) = true -> wf_names (Dir (remove_entry n es)) = true.
Proof.
  intros Hwf. apply wf_names_Dir in Hwf. destruct Hwf as [Hnd Hall].
  rewrite Forall_forall in Hall. apply wf_names_intro.
  - clear Hall. induction es as [|[m c] es IH]; [constructor|].
    inversion Hnd as [|? ? Hnotin Hnd']; subst. simpl.
    destruct (String.eqb m n); simpl; [now apply IH|].
    constructor; [|now apply IH].
    intros Hin. apply Hnotin. apply in_map_iff in Hin.
    destruct Hin as [e [<- He]]. apply in_map. unfold remove_entry in He.
    apply filter_In in He. tauto.
  - intros e He. apply Hall. unfold remove_entry in He. apply filter_In in He. tauto.
Qed.

Lemma wf_names_rmtree p : forall fs,
  wf_names fs = true -> wf_names (rmtree p fs) = true.
Proof.
  induction p as [|n p IH]; intros fs Hfs; destruct fs as [|es]; try exact Hfs.
  destruct p as [|m p].
  - now apply wf_names_remove_entry.
  - rewrite rmtree_cons by discriminate.
    apply wf_names_update_entry; [|exact Hfs]. intros c Hc. now apply IH.
Qed.

End Tree.

(** *** The sweep of the whole file system *)

Section Whole.

Variable rmtree_ok : string -> bool.
Variable active_dir : option string.

Local Abbreviation sweep_node := (sweep_node rmtree_ok active_dir).
Local Abbreviation sweep_entries := (sweep_entries rmtree_ok active_dir).
Local Abbreviation is_active := (is_active active_dir).

Lemma lookup_is_dir q : forall t es,
  lookup t q = Some (Dir es) -> is_dir t = true.
Proof.
  destruct q as [|n q]; intros t es; simpl.
  - now intros [= ->].
  - destruct t; [discriminate | reflexivity].
Qed.

Lemma lookup_below q : forall t x,
  q <> [] -> lookup t q = Some x -> is_dir t = true.
Proof.
  destruct q as [|n q]; intros t x Hq; [congruence|]. simpl.
  destruct t; [discriminate | reflexivity].
Qed.

Lemma lookup_place p r fs x q :
  p <> [] -> lookup fs p = Some x ->
  lookup (place p r fs) (p ++ q)
  = match r with Some t' => lookup t' q | None => None end.
Proof.
  intros Hp Hl. destruct r as [t'|]; simpl.
  - rewrite lookup_app. now rewrite (lookup_replace p fs x t' Hl).
  - now apply lookup_rmtree.
Qed.

Lemma banner_quiet :
  existsb is_error (banner active_dir) = false /\
  existsb is_delete (banner active_dir) = false.
Proof.
  unfold banner. destruct active_dir as [a|]; [destruct (Py.truthy a)|];
    split; reflexivity.
Qed.

Lemma banner_In ev :
  In ev (banner active_dir) -> (exists a, ev = Info a) \/ ev = Warn.
Proof.
  unfold banner. destruct active_dir as [a|]; [destruct (Py.truthy a)|];
    simpl; intros [<-|[]]; [left; now exists a | now right | now right].
Qed.

Lemma only_skips_quiet (evs : list event) :
  (forall ev, In ev evs -> exists s, ev = Skip s) ->
  existsb is_delete evs = false /\ existsb is_error evs = false.
Proof.
  induction evs as [|e evs IH]; intros H; [split; reflexivity|].
  destruct (H e (or_introl eq_refl)) as [s ->]. simpl. apply IH.
  intros ev Hev. apply H. now right.
Qed.

Lemma no_error_of_existsb evs1 evs2 :
  existsb is_error (evs1 ++ evs2) = false -> no_error evs2.
Proof.
  intros H s Hin. rewrite existsb_app in H. apply orb_false_elim in H.
  destruct H as [_ H]. assert (existsb is_error evs2 = true); [|congruence].
  apply existsb_exists. exists (Error s). split; [exact Hin | reflexivity].
Qed.

(** The result of [sweep] when [/tmp] is a directory. *)
Lemma sweep_at fs fs' evs es :
  wf_names fs = true ->
  sweep rmtree_ok active_dir fs = Some (fs', evs) ->
  lookup fs TMP_PATH = Some (Dir es) ->
  fs' = place TMP_PATH (fst (sweep_node TMP_PATH (Dir es))) fs /\
  evs = banner active_dir ++ snd (sweep_node TMP_PATH (Dir es)).
Proof.
  intros Hwf Hrun Hl. rewrite sweep_total in Hrun by assumption.
  unfold sweep_tree in Hrun. rewrite Hl in Hrun.
  destruct (sweep_node TMP_PATH (Dir es)) as [r e]. injection Hrun as <- <-.
  split; reflexivity.
Qed.

(** A position below [/tmp] that holds something lies in the directory
    [/tmp]. *)
Lemma below_tmp fs q x :
  lookup fs (TMP_PATH ++ q) = Some x -> (q <> [] \/ is_dir x = true) ->
  exists es, lookup fs TMP_PATH = Some (Dir es) /\ lookup (Dir es) q = Some x.
Proof.
  rewrite lookup_app. destruct (lookup fs TMP_PATH) as [t|]; [|discriminate].
  intros Hl Hq. assert (Hd : is_dir t = true).
  { destruct Hq as [Hq|Hq].
    - now apply lookup_below with (q := q) (x := x).
    - destruct x as [|es']; [discriminate|].
      now apply lookup_is_dir with (q := q) (es := es'). }
  destruct t as [|es]; [discriminate|]. exists es. split; [reflexivity | exact Hl].
Qed.


End Whole.

(** *** The claims about the sweep *)

Example TMP_PATH_str : path_str TMP_PATH = TMP_DIR.
Proof. reflexivity. Qed.




(** C2 at the failing input: with [/tmp/def] active, its sub-directory
    [/tmp/def/old] holds the sentinel file; the walk goes on below the
    active directory and removes it, so the active directory is not found
    as it was. *)
Lemma frame_claim_fails_on_nested_sentinel :
  ~ frame_claim always_ok (Some "/tmp/def") fs_two_dirs.
Proof.
  intros H.
  destruct (sweep always_ok (Some "/tmp/def") fs_two_dirs) as [[fs' evs]|] eqn:E;
    [|discriminate E].
  assert (Hs : sentinel_at fs_two_dirs (TMP_PATH ++ ["def"])).
  { eexists. split; reflexivity. }
  specialize (H fs' evs ["def"] E Hs eq_refl).
  vm_compute in E. injection E as <- <-. vm_compute in H. discriminate H.
Qed.

(** What the sweep does keep of the active directory: when it holds the
    sentinel file and no directory above it does, everything below it that
    holds no sentinel file and does not lie in a sentinel-bearing
    sub-directory is found unchanged after the sweep. *)
Theorem active_dir_contents_kept
    (rmtree_ok : string -> bool) (active_dir : option string)
    (fs fs' : node) (evs : list event) (q r : path) (x : node) :
  wf_names fs = true ->
  sweep rmtree_ok active_dir fs = Some (fs', evs) ->
  sentinel_at fs (TMP_PATH ++ q) ->
  is_active active_dir (path_str (TMP_PATH ++ q)) = true ->
  (forall q1, proper_prefix q1 q -> ~ sentinel_at fs (TMP_PATH ++ q1)) ->
  lookup fs (TMP_PATH ++ q ++ r) = Some x ->
  (forall r1, r1 <> [] -> proper_prefix r1 r ->
              ~ sentinel_at fs (TMP_PATH ++ q ++ r1)) ->
  sentinel_free x = true ->
  lookup fs' (TMP_PATH ++ q ++ r) = Some x.
Proof.
  intros Hwf Hrun [es' [Hl Hsen]] Hact Hre Hx Hin Hfree.
  assert (Hr : r <> []).
  { intros ->. rewrite app_nil_r in Hx. rewrite Hx in Hl. injection Hl as ->.
    simpl in Hfree. rewrite Hsen in Hfree. discriminate. }
  destruct (below_tmp fs (q ++ r) x Hx) as [es [Htmp Hqr]].
  { left. destruct q; [exact Hr | discriminate]. }
  destruct (sweep_at rmtree_ok active_dir fs fs' evs es Hwf Hrun Htmp) as [-> ->].
  assert (Hwt : wf_names (Dir es) = true)
    by now apply wf_names_lookup with (p := TMP_PATH) (fs := fs).
  assert (Hsp : spared active_dir TMP_PATH (Dir es) (q ++ r)).
  { intros q1 es1 [s [Hs Heq]] Hl1.
    assert (Hat : has_sentinel es1 = true -> sentinel_at fs (TMP_PATH ++ q1)).
    { intros H. exists es1. split; [|exact H]. rewrite lookup_app, Htmp. exact Hl1. }
    destruct (has_sentinel es1) eqn:Hs1; [right | now left].
    symmetry in Heq. apply app_eq_app in Heq. destruct Heq as [l [[-> ->]|[-> ->]]].
    - destruct l as [|a l]; [now rewrite app_nil_r|]. exfalso.
      apply (Hin (a :: l)); [discriminate | | now apply Hat].
      exists s. split; [exact Hs | reflexivity].
    - destruct l as [|a l]; [now rewrite app_nil_r in Hact|]. exfalso.
      apply (Hre q1); [|now apply Hat]. exists (a :: l). split; [discriminate | reflexivity]. }
  rewrite (lookup_place TMP_PATH _ fs (Dir es)) by (discriminate || assumption).
  rewrite (reach_node rmtree_ok active_dir (q ++ r) TMP_PATH (Dir es) x)
    by assumption.
  now rewrite sweep_sentinel_free.
Qed.

Lemma active_dir_contents_kept_witness :
  exists fs' evs,
    sweep always_ok (Some "/tmp/def") fs_two_dirs = Some (fs', evs) /\
    lookup fs' ["tmp"; "def"; "run"; "state.json"] = Some File.
Proof.
  eexists. eexists. split; [reflexivity|].
  eapply (active_dir_contents_kept always_ok (Some "/tmp/def") fs_two_dirs
            _ _ ["def"] ["run"; "state.json"] File); try reflexivity.
  - eexists. split; reflexivity.
  - intros q1 [r [Hr Heq]] [es1 [Hl Hs]].
    destruct q1 as [|n1 q1].
    + vm_compute in Hl. injection Hl as <-. discriminate Hs.
    + destruct r; [congruence|]. destruct q1; discriminate Heq.
  - intros r1 Hne [s [Hs Heq]] [es1 [Hl Hsen]].
    destruct r1 as [|a [|b r1]]; [congruence | |].
    + injection Heq as <- _. vm_compute in Hl. injection Hl as <-.
      discriminate Hsen.
    + destruct s; [congruence|]. destruct r1; discriminate Heq.
Defined.

(** A second sweep for the same active directory, right after a sweep in
    which no removal failed, removes nothing, reports no failure and leaves
    the tree as the first sweep left it. *)
Lemma sweep_twice
    (rmtree_ok : string -> bool) (active_dir : option string)
    (fs fs1 : node) (evs1 : list event) :
  wf_names fs = true ->
  sweep rmtree_ok active_dir fs = Some (fs1, evs1) ->
  existsb is_error evs1 = false ->
  exists evs2,
    sweep rmtree_ok active_dir fs1 = Some (fs1, evs2) /\
    existsb is_delete evs2 = false /\ existsb is_error evs2 = false.
Proof.
  intros Hwf Hrun Hne.
  destruct (banner_quiet active_dir) as [Hb1 Hb2].
  destruct (lookup fs TMP_PATH) as [[|es]|] eqn:Htmp.
  - exists (banner active_dir).
    rewrite sweep_total in Hrun by assumption. unfold sweep_tree in Hrun.
    rewrite Htmp in Hrun. injection Hrun as <- <-.
    rewrite sweep_total by assumption. unfold sweep_tree. rewrite Htmp. tauto.
  - destruct (sweep_at rmtree_ok active_dir fs fs1 evs1 es Hwf Hrun Htmp)
      as [-> ->].
    assert (Hwt : wf_names (Dir es) = true)
      by now apply wf_names_lookup with (p := TMP_PATH) (fs := fs).
    apply no_error_of_existsb in Hne.
    pose proof (sweep_settles rmtree_ok active_dir (Dir es) TMP_PATH Hne) as Hset.
    destruct (fst (sweep_node rmtree_ok active_dir TMP_PATH (Dir es)))
      as [t'|] eqn:Hr.
    + pose proof (wf_names_sweep rmtree_ok active_dir _ _ _ Hwt Hr) as Hwt'.
      pose proof (sweep_node_is_dir rmtree_ok active_dir _ _ _ Hr) as Hd.
      destruct t' as [|es1]; [discriminate|].
      destruct (sweep_settled rmtree_ok active_dir (Dir es1) TMP_PATH Hset)
        as [Hsame Hskips].
      exists (banner active_dir
              ++ snd (sweep_node rmtree_ok active_dir TMP_PATH (Dir es1))).
      cbn [place].
      assert (Hl1 : lookup (replace TMP_PATH (Dir es1) fs) TMP_PATH
                    = Some (Dir es1)) by now apply lookup_replace with (x := Dir es).
      split; [|split].
      * rewrite sweep_total by now apply wf_names_replace.
        unfold sweep_tree. rewrite Hl1.
        destruct (sweep_node rmtree_ok active_dir TMP_PATH (Dir es1)) as [r2 e2].
        simpl in Hsame. subst r2. cbn [place].
        now rewrite (replace_self TMP_PATH _ _ Hl1).
      * rewrite existsb_app, Hb2. now rewrite (proj1 (only_skips_quiet _ Hskips)).
      * rewrite existsb_app, Hb1. now rewrite (proj2 (only_skips_quiet _ Hskips)).
    + exists (banner active_dir). cbn [place].
      rewrite sweep_total by now apply wf_names_rmtree.
      unfold sweep_tree.
      pose proof (lookup_rmtree TMP_PATH fs [] (ltac:(discriminate))) as Hgone.
      rewrite app_nil_r in Hgone. rewrite Hgone. tauto.
  - exists (banner active_dir).
    rewrite sweep_total in Hrun by assumption. unfold sweep_tree in Hrun.
    rewrite Htmp in Hrun. injection Hrun as <- <-.
    rewrite sweep_total by assumption. unfold sweep_tree. rewrite Htmp. tauto.
Qed.

(** C9, as the specification states it, fails: not for every state of the
    file system.  The marker names [/tmp/old/link/x], which is [/tmp/work/x]
    through a link.  The first run removes [/tmp/old], link included, and
    skips [/tmp/work/x]; for the second run the line resolves to itself, no
    directory is the active one, and [/tmp/work/x] is removed. *)
Lemma idempotence_claim_fails_through_link :
  ~ idempotence_claim realpath_through_link always_ok
      (Some ["/tmp/old/link/x"]) fs_linked.
Proof.
  intros H.
  destruct (H (Dir [("tmp", Dir [("work", Dir [("x", Dir [(TARGET_LOG, File)])])])])
              [Info "/tmp/work/x"; Delete "/tmp/old"; Skip "/tmp/work/x"]
              eq_refl eq_refl) as [fs2 [evs2 [Hrun [Hd _]]]].
  vm_compute in Hrun. injection Hrun as _ <-. discriminate Hd.
Qed.

(** C9, amended.  When the marker file resolves to the same active
    directory in both runs, a second sweep right after a sweep in which no
    removal failed removes nothing, reports no failure and leaves the tree
    as the first sweep left it. *)
Theorem sweep_idempotent
    (realpath : node -> string -> string) (rmtree_ok : string -> bool)
    (marker : option (list string)) (fs fs1 : node) (evs1 : list event) :
  wf_names fs = true ->
  cleanup_tmp_dirs (realpath fs) rmtree_ok marker fs = Some (fs1, evs1) ->
  existsb is_error evs1 = false ->
  load_active_tmp_dir (realpath fs1) marker
  = load_active_tmp_dir (realpath fs) marker ->
  exists evs2,
    cleanup_tmp_dirs (realpath fs1) rmtree_ok marker fs1 = Some (fs1, evs2)
    /\ existsb is_delete evs2 = false /\ existsb is_error evs2 = false.
Proof.
  intros Hwf Hrun Hne Hsame. unfold cleanup_tmp_dirs in *. rewrite Hsame.
  now apply sweep_twice with (fs := fs) (evs1 := evs1).
Qed.

Lemma sweep_idempotent_witness :
  exists fs1 evs1 evs2,
    cleanup_tmp_dirs (fun s => s) always_ok (Some ["/tmp/def"]) fs_two_dirs
    = Some (fs1, evs1)
    /\ cleanup_tmp_dirs (fun s => s) always_ok (Some ["/tmp/def"]) fs1
       = Some (fs1, evs2)
    /\ existsb is_delete evs2 = false /\ existsb is_error evs2 = false.
Proof.
  eexists. eexists.
  destruct (sweep_idempotent (fun _ s => s) always_ok (Some ["/tmp/def"])
              fs_two_dirs _ _ eq_refl eq_refl eq_refl eq_refl) as [evs2 H].
  exists evs2. split; [reflexivity | exact H].
Defined.

(** *** The resolver *)

Section Resolver.

Variable realpath : string -> string.

Local Abbreviation first_tmp_line := (first_tmp_line realpath).
Local Abbreviation load_active_tmp_dir := (load_active_tmp_dir realpath).







End Resolver.





(** *** The lines of the sweep and what it leaves *)

Section Lines.

Variable rmtree_ok : string -> bool.
Variable active_dir : option string.

Local Abbreviation sweep_node := (sweep_node rmtree_ok active_dir).
Local Abbreviation sweep_entries := (sweep_entries rmtree_ok active_dir).
Local Abbreviation is_active := (is_active active_dir).
Local Abbreviation reported := (reported rmtree_ok active_dir).

Lemma sweep_node_reported t : forall root ev,
  wf_names t = true -> In ev (snd (sweep_node root t)) -> reported root t ev.
Proof.
  induction t as [|es IHes] using node_ind'; intros root ev Hwf; [simpl; tauto|].
  destruct (wf_names_Dir es Hwf) as [Hnd Hall].
  assert (Hbelow : In ev (snd (sweep_entries root es)) -> reported root (Dir es) ev).
  { intros H. apply sweep_entries_event_inv in H. destruct H as [n [c [Hin Hev]]].
    rewrite Forall_forall in IHes, Hall.
    destruct (IHes (n, c) Hin (join root n) ev (Hall (n, c) Hin) Hev)
      as [q [es' [Hl [Hs H]]]].
    exists (n :: q), es'. split; [|split; [exact Hs|]].
    - cbn [lookup]. now rewrite (In_lookup_entry n c es Hnd Hin).
    - rewrite join_app in H. exact H. }
  assert (Hhere : forall s, s = path_str (root ++ []) -> has_sentinel es = true ->
            (ev = Skip s /\ is_active s = true)
            \/ (ev = Delete s /\ is_active s = false)
            \/ (ev = Error s /\ is_active s = false /\ rmtree_ok s = false) ->
            reported root (Dir es) ev).
  { intros s -> Hs H. exists [], es. split; [reflexivity|]. split; [exact Hs | exact H]. }
  rewrite sweep_node_Dir.
  destruct (has_sentinel es) eqn:Hs; [|exact Hbelow].
  specialize (Hhere (path_str root)). rewrite app_nil_r in Hhere.
  specialize (Hhere eq_refl eq_refl).
  destruct (is_active (path_str root)) eqn:Ha.
  - intros [<-|H]; [|now apply Hbelow]. apply Hhere. now left.
  - destruct (rmtree_ok (path_str root)) eqn:Hok.
    + intros [<-|[]]. apply Hhere. right. now left.
    + intros [<-|[<-|H]]; [| |now apply Hbelow].
      * apply Hhere. right. now left.
      * apply Hhere. right. right. tauto.
Qed.

(** An [Error] line follows the [Delete] line of the same directory. *)
Lemma sweep_node_error_after_delete t : forall root s,
  In (Error s) (snd (sweep_node root t)) -> In (Delete s) (snd (sweep_node root t)).
Proof.
  induction t as [|es IHes] using node_ind'; intros root s; [simpl; tauto|].
  assert (Hbelow : In (Error s) (snd (sweep_entries root es)) ->
                   In (Delete s) (snd (sweep_entries root es))).
  { intros H. apply sweep_entries_event_inv in H. destruct H as [n [c [Hin Hev]]].
    rewrite Forall_forall in IHes.
    apply (sweep_entries_event rmtree_ok active_dir root es n c); [exact Hin|].
    exact (IHes (n, c) Hin _ _ Hev). }
  rewrite sweep_node_Dir.
  destruct (has_sentinel es); [|exact Hbelow].
  destruct (is_active (path_str root)).
  - intros [H|H]; [discriminate H|]. right. now apply Hbelow.
  - destruct (rmtree_ok (path_str root)).
    + intros [H|[]]. discriminate H.
    + intros [H|[[= <-]|H]]; [discriminate H | now left |].
      right. right. now apply Hbelow.
Qed.


End Lines.

(** X1.  The sweep ends on every tree with unique names, whichever
    removals fail: the walk lists each directory at most once.  Its first
    line is the banner for what the resolver returned, and the tree it
    leaves still has unique names. *)
Theorem cleanup_tmp_dirs_ends
    (realpath : string -> string) (rmtree_ok : string -> bool)
    (marker : option (list string)) (fs : node) :
  wf_names fs = true ->
  exists fs' evs,
    cleanup_tmp_dirs realpath rmtree_ok marker fs
    = Some (fs', banner (load_active_tmp_dir realpath marker) ++ evs)
    /\ wf_names fs' = true.
Proof.
  intros Hwf. unfold cleanup_tmp_dirs.
  set (active_dir := load_active_tmp_dir realpath marker).
  rewrite sweep_total by assumption. unfold sweep_tree.
  destruct (lookup fs TMP_PATH) as [[|es]|] eqn:Htmp.
  - exists fs, []. now rewrite app_nil_r.
  - destruct (sweep_node rmtree_ok active_dir TMP_PATH (Dir es)) as [r evs] eqn:Hs.
    exists (place TMP_PATH r fs), evs. split; [reflexivity|].
    destruct r as [t'|]; cbn [place].
    + apply (wf_names_replace rmtree_ok); [exact Hwf|].
      apply (wf_names_sweep rmtree_ok active_dir (Dir es) TMP_PATH).
      * now apply wf_names_lookup with (p := TMP_PATH) (fs := fs).
      * now rewrite Hs.
    + now apply (wf_names_rmtree rmtree_ok).
  - exists fs, []. now rewrite app_nil_r.
Qed.

Lemma cleanup_tmp_dirs_ends_witness :
  exists fs' evs,
    cleanup_tmp_dirs (fun s => s) (fun _ => false) (Some ["/tmp/def"]) fs_two_dirs
    = Some (fs', banner (load_active_tmp_dir (fun s => s) (Some ["/tmp/def"])) ++ evs)
    /\ wf_names fs' = true.
Proof.
  apply (cleanup_tmp_dirs_ends (fun s => s) (fun _ => false) (Some ["/tmp/def"])
           fs_two_dirs).
  reflexivity.
Defined.

(** Placing a tree at [/tmp], or removing [/tmp], leaves the other entries
    of the root alone. *)
Lemma lookup_place_outside r fs n q :
  n <> "tmp" -> lookup (place TMP_PATH r fs) (n :: q) = lookup fs (n :: q).
Proof.
  intros Hn. destruct fs as [|es0]; [now destruct r|].
  destruct r as [t'|]; cbn [place replace rmtree TMP_PATH lookup].
  - now rewrite lookup_entry_update_other.
  - now rewrite lookup_entry_remove_other.
Qed.

(** X2.  The sweep touches nothing outside [/tmp]: what is found at a
    path whose first component is not [tmp] is found unchanged after it. *)
Theorem sweep_keeps_outside_tmp
    (rmtree_ok : string -> bool) (active_dir : option string)
    (fs fs' : node) (evs : list event) (n : string) (q : path) :
  wf_names fs = true ->
  sweep rmtree_ok active_dir fs = Some (fs', evs) ->
  n <> "tmp" ->
  lookup fs' (n :: q) = lookup fs (n :: q).
Proof.
  intros Hwf Hrun Hn. rewrite sweep_total in Hrun by assumption.
  unfold sweep_tree in Hrun.
  destruct (lookup fs TMP_PATH) as [[|es]|] eqn:Htmp;
    [now injection Hrun as <- _ | | now injection Hrun as <- _].
  destruct (sweep_node rmtree_ok active_dir TMP_PATH (Dir es)) as [r e].
  injection Hrun as <- _. now apply lookup_place_outside.
Qed.

Lemma sweep_keeps_outside_tmp_witness :
  exists fs' evs,
    sweep always_ok (Some "/tmp/def") fs_two_dirs = Some (fs', evs)
    /\ lookup fs' ["opt"] = lookup fs_two_dirs ["opt"].
Proof.
  eexists. eexists. split; [reflexivity|].
  apply (sweep_keeps_outside_tmp always_ok (Some "/tmp/def") fs_two_dirs _ _
           "opt" [] eq_refl eq_refl).
  discriminate.
Defined.

Lemma sentinel_at_below fs es q1 es1 :
  lookup fs TMP_PATH = Some (Dir es) -> lookup (Dir es) q1 = Some (Dir es1) ->
  has_sentinel es1 = true -> sentinel_at fs (TMP_PATH ++ q1).
Proof.
  intros Htmp Hl Hs. exists es1. split; [|exact Hs]. now rewrite lookup_app, Htmp.
Qed.

(** The directories above [q] that hold the sentinel file are active: the
    walk reaches [q]. *)
Lemma active_above_spared active_dir fs es q :
  lookup fs TMP_PATH = Some (Dir es) ->
  (forall q1, proper_prefix q1 q -> sentinel_at fs (TMP_PATH ++ q1) ->
     is_active active_dir (path_str (TMP_PATH ++ q1)) = true) ->
  spared active_dir TMP_PATH (Dir es) q.
Proof.
  intros Htmp H q1 es1 Hpre Hl.
  destruct (has_sentinel es1) eqn:Hs; [right | now left].
  apply H; [exact Hpre|]. now apply sentinel_at_below with (es := es) (es1 := es1).
Qed.

(** X3.  What the sweep never removes: an entry below [/tmp] with no
    sentinel file anywhere in it, such that every directory above it that
    holds the sentinel file is the active directory, is found unchanged
    after the sweep. *)
Theorem sweep_keeps_unmarked
    (rmtree_ok : string -> bool) (active_dir : option string)
    (fs fs' : node) (evs : list event) (q : path) (x : node) :
  wf_names fs = true ->
  sweep rmtree_ok active_dir fs = Some (fs', evs) ->
  lookup fs (TMP_PATH ++ q) = Some x ->
  (forall q1, proper_prefix q1 q -> sentinel_at fs (TMP_PATH ++ q1) ->
     is_active active_dir (path_str (TMP_PATH ++ q1)) = true) ->
  sentinel_free x = true ->
  lookup fs' (TMP_PATH ++ q) = Some x.
Proof.
  intros Hwf Hrun Hx Habove Hfree.
  destruct (lookup fs TMP_PATH) as [[|es]|] eqn:Htmp.
  - rewrite sweep_total in Hrun by assumption. unfold sweep_tree in Hrun.
    rewrite Htmp in Hrun. now injection Hrun as <- _.
  - assert (Hq : lookup (Dir es) q = Some x) by now rewrite lookup_app, Htmp in Hx.
    destruct (sweep_at rmtree_ok active_dir fs fs' evs es Hwf Hrun Htmp) as [-> _].
    assert (Hwt : wf_names (Dir es) = true)
      by now apply wf_names_lookup with (p := TMP_PATH) (fs := fs).
    pose proof (active_above_spared active_dir fs es q Htmp Habove) as Hsp.
    rewrite (lookup_place TMP_PATH _ fs (Dir es)) by (discriminate || assumption).
    rewrite (reach_node rmtree_ok active_dir q TMP_PATH (Dir es) x) by assumption.
    now rewrite sweep_sentinel_free.
  - rewrite lookup_app, Htmp in Hx. discriminate Hx.
Qed.

Lemma sweep_keeps_unmarked_witness :
  exists fs' evs,
    sweep always_ok (Some "/tmp/def") fs_two_dirs = Some (fs', evs)
    /\ lookup fs' ["tmp"; "notes.txt"] = Some File
    /\ lookup fs' ["tmp"; "def"; "run"] = Some (Dir [("state.json", File)]).
Proof.
  eexists. eexists. split; [reflexivity|]. split.
  - apply (sweep_keeps_unmarked always_ok (Some "/tmp/def") fs_two_dirs _ _
             ["notes.txt"] File eq_refl eq_refl eq_refl); [|reflexivity].
    intros q1 [r [Hr Heq]] [es1 [Hl Hs]].
    destruct q1 as [|n1 q1].
    + vm_compute in Hl. injection Hl as <-. discriminate Hs.
    + destruct r; [congruence|]. destruct q1; discriminate Heq.
  - apply (sweep_keeps_unmarked always_ok (Some "/tmp/def") fs_two_dirs _ _
             ["def"; "run"] (Dir [("state.json", File)]) eq_refl eq_refl eq_refl);
      [|reflexivity].
    intros q1 [r [Hr Heq]] [es1 [Hl Hs]].
    destruct q1 as [|n1 [|n2 q1]].
    + vm_compute in Hl. injection Hl as <-. discriminate Hs.
    + injection Heq as <- _. reflexivity.
    + destruct r; [congruence|]. destruct q1; discriminate Heq.
Defined.

(** X4.  Nothing to do: when [/tmp] is missing, is not a directory, or
    holds no sentinel file anywhere, the sweep prints the banner only and
    leaves the tree as it is. *)
Theorem sweep_nothing_to_do
    (rmtree_ok : string -> bool) (active_dir : option string) (fs : node) :
  wf_names fs = true ->
  (forall x, lookup fs TMP_PATH = Some x -> sentinel_free x = true) ->
  sweep rmtree_ok active_dir fs = Some (fs, banner active_dir).
Proof.
  intros Hwf Hfree. rewrite sweep_total by assumption. unfold sweep_tree.
  destruct (lookup fs TMP_PATH) as [[|es]|] eqn:Htmp; try reflexivity.
  rewrite sweep_sentinel_free by now apply Hfree.
  cbn [place]. rewrite (replace_self TMP_PATH _ _ Htmp). now rewrite app_nil_r.
Qed.

Lemma sweep_nothing_to_do_witness :
  sweep always_ok None (Dir [("opt", Dir [(TARGET_LOG, File)])])
  = Some (Dir [("opt", Dir [(TARGET_LOG, File)])], [Warn])
  /\ sweep always_ok (Some "/tmp/def")
           (Dir [("tmp", Dir [("def", Dir [("state.json", File)])])])
     = Some (Dir [("tmp", Dir [("def", Dir [("state.json", File)])])],
             [Info "/tmp/def"]).
Proof.
  split.
  - apply (sweep_nothing_to_do always_ok None); [reflexivity|].
    intros x H. discriminate H.
  - apply (sweep_nothing_to_do always_ok (Some "/tmp/def")); [reflexivity|].
    intros x H. vm_compute in H. injection H as <-. reflexivity.
Defined.

(** X5.  Every line after the banner names a directory below [/tmp]
    that held the sentinel file: a [SKIP] line names the active directory, a
    [DELETE] line a directory that is not the active one, and an [ERROR]
    line a directory whose removal failed and whose [DELETE] line was
    printed too. *)
Theorem sweep_lines_sound
    (rmtree_ok : string -> bool) (active_dir : option string)
    (fs fs' : node) (evs : list event) (ev : event) :
  wf_names fs = true ->
  sweep rmtree_ok active_dir fs = Some (fs', evs) ->
  In ev evs ->
  In ev (banner active_dir)
  \/ exists q,
       sentinel_at fs (TMP_PATH ++ q)
       /\ ((ev = Skip (path_str (TMP_PATH ++ q))
            /\ is_active active_dir (path_str (TMP_PATH ++ q)) = true)
           \/ (ev = Delete (path_str (TMP_PATH ++ q))
               /\ is_active active_dir (path_str (TMP_PATH ++ q)) = false)
           \/ (ev = Error (path_str (TMP_PATH ++ q))
               /\ is_active active_dir (path_str (TMP_PATH ++ q)) = false
               /\ rmtree_ok (path_str (TMP_PATH ++ q)) = false
               /\ In (Delete (path_str (TMP_PATH ++ q))) evs)).
Proof.
  intros Hwf Hrun Hin.
  destruct (lookup fs TMP_PATH) as [[|es]|] eqn:Htmp.
  - rewrite sweep_total in Hrun by assumption. unfold sweep_tree in Hrun.
    rewrite Htmp in Hrun. injection Hrun as _ <-. now left.
  - destruct (sweep_at rmtree_ok active_dir fs fs' evs es Hwf Hrun Htmp) as [_ ->].
    apply in_app_or in Hin. destruct Hin as [Hin|Hin]; [now left | right].
    assert (Hwt : wf_names (Dir es) = true)
      by now apply wf_names_lookup with (p := TMP_PATH) (fs := fs).
    destruct (sweep_node_reported rmtree_ok active_dir (Dir es) TMP_PATH ev Hwt Hin)
      as [q [es' [Hl [Hs H]]]].
    exists q. split; [now apply sentinel_at_below with (es := es) (es1 := es')|].
    cbv zeta in H. destruct H as [H|[H|[He [Ha Hf]]]]; [now left | right; now left |].
    right. right. repeat split; try assumption.
    apply in_or_app. right. rewrite He in Hin.
    now apply sweep_node_error_after_delete.
  - rewrite sweep_total in Hrun by assumption. unfold sweep_tree in Hrun.
    rewrite Htmp in Hrun. injection Hrun as _ <-. now left.
Qed.

Lemma sweep_lines_sound_witness :
  exists fs' evs,
    sweep (fun _ => false) (Some "/tmp/def") fs_two_dirs = Some (fs', evs)
    /\ (In (Error "/tmp/abc") (banner (Some "/tmp/def"))
        \/ exists q,
             sentinel_at fs_two_dirs (TMP_PATH ++ q)
             /\ ((Error "/tmp/abc" = Skip (path_str (TMP_PATH ++ q))
                  /\ is_active (Some "/tmp/def") (path_str (TMP_PATH ++ q)) = true)
                 \/ (Error "/tmp/abc" = Delete (path_str (TMP_PATH ++ q))
                     /\ is_active (Some "/tmp/def") (path_str (TMP_PATH ++ q)) = false)
                 \/ (Error "/tmp/abc" = Error (path_str (TMP_PATH ++ q))
                     /\ is_active (Some "/tmp/def") (path_str (TMP_PATH ++ q)) = false
                     /\ (fun _ : string => false) (path_str (TMP_PATH ++ q)) = false
                     /\ In (Delete (path_str (TMP_PATH ++ q))) evs))).
Proof.
  eexists. eexists. split; [reflexivity|].
  apply (sweep_lines_sound (fun _ => false) (Some "/tmp/def") fs_two_dirs _ _
           (Error "/tmp/abc") eq_refl eq_refl).
  vm_compute. tauto.
Defined.



(** What the sweep leaves of a tree was in it. *)
Lemma sweep_node_sub rmtree_ok active_dir q : forall root t t' x',
  wf_names t = true ->
  fst (sweep_node rmtree_ok active_dir root t) = Some t' ->
  lookup t' q = Some x' ->
  exists x, lookup t q = Some x /\ is_dir x = is_dir x'.
Proof.
  induction q as [|n q IH]; intros root t t' x' Hwf Hs Hl.
  - cbn [lookup] in Hl. injection Hl as <-. exists t. split; [reflexivity|].
    symmetry. now apply (sweep_node_is_dir rmtree_ok active_dir root).
  - destruct t as [|es].
    + rewrite sweep_node_File in Hs. injection Hs as <-. discriminate Hl.
    + apply sweep_node_kept in Hs. subst t'. cbn [lookup] in Hl |- *.
      destruct (wf_names_Dir es Hwf) as [Hnd Hall].
      rewrite sweep_entries_lookup in Hl by assumption.
      destruct (lookup_entry n es) as [c|] eqn:Hn; [|discriminate Hl].
      destruct (fst (DelDir.sweep_node rmtree_ok active_dir (join root n) c))
        as [c'|] eqn:Hc; [|discriminate Hl].
      apply (IH (join root n) c c' x'); try assumption.
      rewrite Forall_forall in Hall. apply (Hall (n, c)). now apply lookup_entry_In.
Qed.

(** X7.  The sweep only removes: every entry found after it was there
    before, at the same path and of the same kind, file or directory. *)
Theorem sweep_only_removes
    (rmtree_ok : string -> bool) (active_dir : option string)
    (fs fs' : node) (evs : list event) (p : path) (x' : node) :
  wf_names fs = true ->
  sweep rmtree_ok active_dir fs = Some (fs', evs) ->
  lookup fs' p = Some x' ->
  exists x, lookup fs p = Some x /\ is_dir x = is_dir x'.
Proof.
  intros Hwf Hrun Hl.
  destruct (lookup fs TMP_PATH) as [[|es]|] eqn:Htmp.
  - rewrite sweep_total in Hrun by assumption. unfold sweep_tree in Hrun.
    rewrite Htmp in Hrun. injection Hrun as <- _. now exists x'.
  - destruct p as [|n q].
    + cbn [lookup] in Hl |- *. injection Hl as <-. exists fs. split; [reflexivity|].
      destruct (sweep_at rmtree_ok active_dir fs fs' evs es Hwf Hrun Htmp) as [-> _].
      destruct fs; [discriminate Htmp|].
      now destruct (fst (sweep_node rmtree_ok active_dir TMP_PATH (Dir es))).
    + destruct (String.eqb_spec n "tmp") as [->|Hn].
      * destruct (sweep_at rmtree_ok active_dir fs fs' evs es Hwf Hrun Htmp) as [-> _].
        change ("tmp" :: q) with (TMP_PATH ++ q) in Hl |- *.
        rewrite (lookup_place TMP_PATH _ fs (Dir es)) in Hl
          by (discriminate || assumption).
        rewrite lookup_app, Htmp.
        destruct (fst (sweep_node rmtree_ok active_dir TMP_PATH (Dir es)))
          as [t'|] eqn:Hs; [|discriminate Hl].
        apply (sweep_node_sub rmtree_ok active_dir q TMP_PATH (Dir es) t' x');
          try assumption.
        now apply wf_names_lookup with (p := TMP_PATH) (fs := fs).
      * destruct (sweep_at rmtree_ok active_dir fs fs' evs es Hwf Hrun Htmp) as [-> _].
        exists x'. split; [|reflexivity]. rewrite <- Hl. symmetry.
        now apply lookup_place_outside.
  - rewrite sweep_total in Hrun by assumption. unfold sweep_tree in Hrun.
    rewrite Htmp in Hrun. injection Hrun as <- _. now exists x'.
Qed.

Lemma sweep_only_removes_witness :
  exists fs' evs,
    sweep always_ok (Some "/tmp/def") fs_two_dirs = Some (fs', evs)
    /\ exists x, lookup fs_two_dirs ["tmp"; "def"; "run"] = Some x
                 /\ is_dir x = is_dir (Dir [("state.json", File)]).
Proof.
  eexists. eexists. split; [reflexivity|].
  apply (sweep_only_removes always_ok (Some "/tmp/def") fs_two_dirs _ _
           ["tmp"; "def"; "run"] (Dir [("state.json", File)]) eq_refl eq_refl).
  reflexivity.
Defined.

(** *** The resolver and the sweep together *)

Lemma first_tmp_line_append realpath l1 l2 :
  first_tmp_line realpath (l1 ++ l2)
  = match first_tmp_line realpath l1 with
    | Some a => Some a
    | None => first_tmp_line realpath l2
    end.
Proof.
  induction l1 as [|l l1 IH]; [reflexivity|]. cbn [app first_tmp_line].
  now destruct (Py.startswith l "/tmp/").
Qed.

(** X8.  Lines appended to the marker file take precedence: on
    [earlier ++ later] the resolver returns what it returns on [later]
    alone, and what it returns on [earlier] when [later] gives nothing. *)
Theorem load_active_tmp_dir_app
    (realpath : string -> string) (earlier later : list string) :
  load_active_tmp_dir realpath (Some (earlier ++ later))
  = match load_active_tmp_dir realpath (Some later) with
    | Some a => Some a
    | None => load_active_tmp_dir realpath (Some earlier)
    end.
Proof.
  unfold load_active_tmp_dir.
  now rewrite filter_app, map_app, rev_app_distr, first_tmp_line_append.
Qed.



End DelDirFacts.

Module XmlEditFacts.
Import XmlEdit.

(** *** The viewer *)

Lemma collect_table_eq acc table :
  collect_table acc table
  = if has_key_and_value table then
      mk_collected (rows acc ++ [row_of table])
        (Nat.max (max_key_len acc) (String.length (key_of (row_of table))))
        (Nat.max (max_val_len acc) (String.length (value_of (row_of table))))
    else acc.
Proof.
  unfold collect_table, has_key_and_value, row_of, column_text, key_of, value_of.
  destruct (find_column "key" table) as [[i k]|]; [|reflexivity].
  destruct (find_column "value" table) as [[j v]|]; reflexivity.
Qed.

Lemma collect_fold tables : forall acc,
  let rs := map row_of (filter has_key_and_value tables) in
  fold_left collect_table tables acc
  = mk_collected (rows acc ++ rs)
      (Nat.max (max_key_len acc) (list_max (map (fun r => String.length (key_of r)) rs)))
      (Nat.max (max_val_len acc) (list_max (map (fun r => String.length (value_of r)) rs))).
Proof.
  induction tables as [|t tables IH]; intros acc; simpl.
  - rewrite app_nil_r, !Nat.max_0_r. now destruct acc.
  - rewrite IH, collect_table_eq. destruct (has_key_and_value t); [|reflexivity].
    simpl. rewrite <- app_assoc, !Nat.max_assoc. reflexivity.
Qed.

Lemma length_repeat_char c n : String.length (Py.repeat_char c n) = n.
Proof. induction n as [|n IH]; simpl; [reflexivity | now rewrite IH]. Qed.

Lemma repeat_char_all c n :
  Forall (fun x => x = c) (list_ascii_of_string (Py.repeat_char c n)).
Proof. induction n as [|n IH]; simpl; constructor; [reflexivity | exact IH]. Qed.

(** What the loop collects, and the lines printed from it. *)
Lemma view_configs_collected (root : element) :
  let rs := included_rows root in
  let kw := list_max (map (fun r => String.length (key_of r)) rs) in
  let vw := list_max (map (fun r => String.length (value_of r)) rs) in
  rows (collect root) = rs
  /\ max_key_len (collect root) = kw
  /\ max_val_len (collect root) = vw
  /\ view_configs root
     = [" "; header_line kw vw; divider_line kw vw] ++ map (row_line kw vw) rs
  /\ String.length (divider_line kw vw) = kw + vw + 15
  /\ Forall (fun c => c = "-"%char) (list_ascii_of_string (divider_line kw vw)).
Proof.
  intros rs kw vw.
  assert (H : collect root = mk_collected rs kw vw).
  { unfold collect. rewrite collect_fold. reflexivity. }
  unfold view_configs. rewrite H. simpl.
  repeat split.
  - apply length_repeat_char.
  - apply repeat_char_all.
Qed.


(** *** Assignment through a position *)

Lemma element_ind' (P : element -> Prop) :
  (forall tg at_ tx cs tl, Forall P cs -> P (Element tg at_ tx cs tl)) ->
  forall e, P e.
Proof.
  intros H. fix IH 1. intros [tg at_ tx cs tl]. apply H.
  induction cs as [|c cs IHcs]; constructor; [apply IH | exact IHcs].
Qed.

Lemma iter_below_eq tg at_ tx cs tl :
  iter_below (Element tg at_ tx cs tl) = iter_children 0 cs.
Proof.
  simpl. generalize 0. induction cs as [|c cs IH]; intros k; [reflexivity|].
  simpl. now rewrite IH.
Qed.

Lemma iter_children_head k cs pe :
  In pe (iter_children k cs) -> exists i p, fst pe = i :: p /\ k <= i.
Proof.
  revert k. induction cs as [|c cs IH]; intros k; simpl; [tauto|].
  intros [<-|H].
  - exists k, []. split; [reflexivity | apply Nat.le_refl].
  - apply in_app_or in H. destruct H as [H|H].
    + apply in_map_iff in H. destruct H as [[p d] [<- _]].
      exists k, p. split; [reflexivity | apply Nat.le_refl].
    + destruct (IH _ H) as [i [p [Hp Hle]]]. exists i, p. split; [exact Hp | lia].
Qed.

Lemma touch_other k cs j q x pe :
  In pe (iter_children k cs) -> j < k -> touch (j :: q) x pe = pe.
Proof.
  intros Hin Hlt. destruct (iter_children_head _ _ _ Hin) as [i [p [Hp Hle]]].
  destruct pe as [pos e]. simpl in Hp. subst pos. unfold touch. simpl.
  destruct (Nat.eqb_spec i j); [lia | reflexivity].
Qed.

Lemma map_touch_other k cs j q x :
  j < k -> map (touch (j :: q) x) (iter_children k cs) = iter_children k cs.
Proof.
  intros Hlt. rewrite <- (map_id (iter_children k cs)) at 2.
  apply map_ext_in. intros pe Hin. now apply touch_other with (k := k) (cs := cs).
Qed.

Lemma touch_nil_below e x :
  map (touch [] x) (iter_below e) = iter_below e.
Proof.
  destruct e as [tg at_ tx cs tl]. rewrite iter_below_eq.
  rewrite <- (map_id (iter_children 0 cs)) at 2.
  apply map_ext_in. intros [pos d] Hin.
  destruct (iter_children_head _ _ _ Hin) as [i [p [Hp _]]].
  simpl in Hp. subst pos. reflexivity.
Qed.

Lemma iter_below_set_text e : forall q x,
  iter_below (set_text q x e) = map (touch q x) (iter_below e).
Proof.
  induction e as [tg at_ tx cs tl IHcs] using element_ind'. intros q x.
  destruct q as [|i q].
  - rewrite touch_nil_below. simpl set_text. now rewrite !iter_below_eq.
  - simpl set_text. rewrite !iter_below_eq.
    assert (H : forall k i,
      iter_children k (update_nth i (set_text q x) cs)
      = map (touch ((k + i) :: q) x) (iter_children k cs)).
    { clear i. induction cs as [|c cs IH]; intros k i; [reflexivity|].
      inversion IHcs as [|? ? Hc IHcs']; subst.
      destruct i as [|i]; cbn [update_nth iter_children].
      - rewrite Nat.add_0_r. rewrite map_app. cbn [map].
        rewrite (map_touch_other (S k) cs k q x) by lia.
        f_equal. f_equal.
        + unfold touch. cbn [fst snd strip_prefix]. now rewrite Nat.eqb_refl.
        + rewrite Hc, !map_map. apply map_ext. intros [p d].
          unfold touch. cbn [fst snd strip_prefix]. now rewrite Nat.eqb_refl.
      - rewrite map_app. cbn [map].
        rewrite (IH IHcs' (S k) i). replace (S k + i) with (k + S i) by lia.
        f_equal. f_equal.
        + unfold touch. cbn [fst snd strip_prefix].
          destruct (Nat.eqb_spec k (k + S i)); [lia | reflexivity].
        + rewrite !map_map. apply map_ext. intros [p d].
          unfold touch. cbn [fst snd strip_prefix].
          destruct (Nat.eqb_spec k (k + S i)); [lia | reflexivity]. }
    apply (H 0 i).
Qed.

Lemma tag_set_text q x e : tag (set_text q x e) = tag e.
Proof. destruct e; destruct q; reflexivity. Qed.

Lemma attrib_set_text q x e : attrib (set_text q x e) = attrib e.
Proof. destruct e; destruct q; reflexivity. Qed.

Lemma tag_touch q x pe : tag (snd (touch q x pe)) = tag (snd pe).
Proof.
  unfold touch. simpl. destruct (strip_prefix (fst pe) q); [|reflexivity].
  apply tag_set_text.
Qed.

Lemma filter_map_same {A : Type} (P : A -> bool) (f : A -> A) (l : list A) :
  (forall a, P (f a) = P a) -> filter P (map f l) = map f (filter P l).
Proof.
  intros H. induction l as [|a l IH]; [reflexivity|]. simpl. rewrite H.
  destruct (P a); simpl; now rewrite IH.
Qed.

Lemma findall_table_set_text root q x :
  findall_table (set_text q x root) = map (touch q x) (findall_table root).
Proof.
  unfold findall_table. rewrite iter_below_set_text.
  apply filter_map_same. intros pe. now rewrite tag_touch.
Qed.

(** A listed element is the one found at its position. *)
Lemma iter_below_get root : forall p e,
  In (p, e) (iter_below root) -> get root p = Some e.
Proof.
  induction root as [tg at_ tx cs tl IHcs] using element_ind'. intros p e.
  rewrite iter_below_eq.
  assert (H : forall k, In (p, e) (iter_children k cs) ->
            exists i p' c, p = (k + i) :: p' /\ nth_error cs i = Some c
                           /\ get c p' = Some e).
  { induction cs as [|c cs IH]; intros k; simpl; [tauto|].
    inversion IHcs as [|? ? Hc IHcs']; subst.
    intros [[= <- <-]|Hin].
    - exists 0, [], c. rewrite Nat.add_0_r. repeat split.
    - apply in_app_or in Hin. destruct Hin as [Hin|Hin].
      + apply in_map_iff in Hin. destruct Hin as [[p' d] [[= <- <-] Hin]].
        exists 0, p', c. rewrite Nat.add_0_r. repeat split. now apply Hc.
      + destruct (IH IHcs' _ Hin) as [i [p' [d [-> [Hn Hg]]]]].
        exists (S i), p', d. repeat split; [f_equal; lia | exact Hn | exact Hg]. }
  intros Hin. destruct (H 0 Hin) as [i [p' [c [-> [Hn Hg]]]]].
  simpl. now rewrite Hn.
Qed.

Lemma findall_table_get root p e :
  In (p, e) (findall_table root) ->
  get root p = Some e /\ tag e = "table".
Proof.
  unfold findall_table. intros H. apply filter_In in H. destruct H as [H1 H2].
  split; [now apply iter_below_get | now apply String.eqb_eq in H2].
Qed.

(** *** The mutator *)

Lemma update_loop_find root k v tables :
  update_loop root k v tables
  = match find (matches k) tables with
    | None => Return (root, MsgKeyNotFound k, false)
    | Some (pos, table) =>
        match find_column "value" table with
        | None => Raise AttributeError
        | Some (i, value) =>
            Return (set_text (pos ++ [i]) (Some (Py.str v)) root,
                    MsgUpdated k (text value) v, true)
        end
    end.
Proof.
  induction tables as [|[pos table] tables IH]; [reflexivity|].
  simpl. unfold matches at 1. simpl.
  destruct (key_matches (find_column "key" table) k); [reflexivity | exact IH].
Qed.

Lemma is_column_set_text name q x c :
  is_column name (set_text q x c) = is_column name c.
Proof. unfold is_column. now rewrite tag_set_text, attrib_set_text. Qed.

Lemma find_from_update name f cs : forall k j,
  (forall c, is_column name (f c) = is_column name c) ->
  find_from name k (update_nth j f cs)
  = match find_from name k cs with
    | Some (i, c) => Some (i, if Nat.eqb i (k + j) then f c else c)
    | None => None
    end.
Proof.
  induction cs as [|c cs IH]; intros k j Hf; [reflexivity|].
  destruct j as [|j]; cbn [update_nth find_from].
  - rewrite Hf. destruct (is_column name c).
    + now rewrite Nat.add_0_r, Nat.eqb_refl.
    + clear IH. rewrite Nat.add_0_r.
      assert (H : forall n, k < n ->
                match find_from name n cs with
                | Some (i, c0) => Some (i, if Nat.eqb i k then f c0 else c0)
                | None => None
                end = find_from name n cs).
      { induction cs as [|d cs IH]; intros n Hn; [reflexivity|]. simpl.
        destruct (is_column name d).
        - destruct (Nat.eqb_spec n k); [lia | reflexivity].
        - apply IH. lia. }
      symmetry. apply H. lia.
  - destruct (is_column name c).
    + destruct (Nat.eqb_spec k (k + S j)); [lia | reflexivity].
    + rewrite IH by assumption. now replace (S k + j) with (k + S j) by lia.
Qed.

Lemma find_from_nth name cs : forall k i c,
  find_from name k cs = Some (i, c) ->
  k <= i /\ nth_error cs (i - k) = Some c /\ is_column name c = true.
Proof.
  induction cs as [|d cs IH]; intros k i c; simpl; [discriminate|].
  destruct (is_column name d) eqn:Hd.
  - intros [= <- <-]. rewrite Nat.sub_diag. repeat split; [apply Nat.le_refl | exact Hd].
  - intros H. destruct (IH _ _ _ H) as [Hle [Hn Hc]].
    repeat split; [lia | | exact Hc].
    replace (i - k) with (S (i - S k)) by lia. exact Hn.
Qed.

Lemma children_set_text j q x t :
  children (set_text (j :: q) x t) = update_nth j (set_text q x) (children t).
Proof. now destruct t. Qed.

(** Setting the text of a child changes the content of the column that
    child is; setting a text further down changes none. *)
Lemma column_content_set_child name j x t :
  column_content name (set_text [j] x t)
  = match find_column name t with
    | Some (i, c) => Some (if Nat.eqb i j then x else text c)
    | None => None
    end.
Proof.
  unfold column_content, find_column. rewrite children_set_text.
  rewrite find_from_update by (intros c; apply is_column_set_text).
  destruct (find_from name 0 (children t)) as [[i c]|]; [|reflexivity].
  simpl. destruct (Nat.eqb i j); [now destruct c | reflexivity].
Qed.

Lemma column_content_set_below name j k q x t :
  column_content name (set_text (j :: k :: q) x t) = column_content name t.
Proof.
  unfold column_content, find_column. rewrite children_set_text.
  rewrite find_from_update by (intros c; apply is_column_set_text).
  destruct (find_from name 0 (children t)) as [[i c]|]; [|reflexivity].
  simpl. destruct (Nat.eqb i j); [now destruct c | reflexivity].
Qed.

Lemma column_content_set_here name x t :
  column_content name (set_text [] x t) = column_content name t.
Proof. now destruct t. Qed.

Lemma is_column_name n1 n2 c :
  is_column n1 c = true -> is_column n2 c = true -> n1 = n2.
Proof.
  unfold is_column. destruct (String.eqb (tag c) "column"); [|discriminate].
  destruct (attr_get "name" (attrib c)) as [v|]; [|discriminate]. simpl.
  intros H1 H2. apply String.eqb_eq in H1, H2. congruence.
Qed.

Lemma find_column_distinct n1 n2 t i1 c1 i2 c2 :
  n1 <> n2 ->
  find_column n1 t = Some (i1, c1) -> find_column n2 t = Some (i2, c2) ->
  i1 <> i2.
Proof.
  unfold find_column. intros Hne H1 H2 ->.
  apply find_from_nth in H1, H2. destruct H1 as [_ [Hn1 Hc1]].
  destruct H2 as [_ [Hn2 Hc2]]. rewrite Hn1 in Hn2. injection Hn2 as ->.
  apply Hne. now apply is_column_name with (c := c2).
Qed.

Lemma column_content_other name t i value x :
  name <> "value" ->
  find_column "value" t = Some (i, value) ->
  column_content name (set_text [i] x t) = column_content name t.
Proof.
  intros Hne Hv. rewrite column_content_set_child. unfold column_content.
  destruct (find_column name t) as [[j c]|] eqn:Hj; [|reflexivity]. simpl.
  pose proof (find_column_distinct _ _ _ _ _ _ _ Hne Hj Hv) as Hd.
  destruct (Nat.eqb_spec j i); [contradiction | reflexivity].
Qed.

Lemma entry_of_set_value t i value v :
  find_column "value" t = Some (i, value) ->
  entry_of (set_text [i] (Some v) t) = set_value v (entry_of t).
Proof.
  intros Hv. unfold entry_of, set_value. cbn [fst snd].
  rewrite (column_content_other "key" t i value) by (discriminate || assumption).
  rewrite (column_content_other "ettc" t i value) by (discriminate || assumption).
  rewrite column_content_set_child, Hv. now rewrite Nat.eqb_refl.
Qed.

Lemma position_eqb_eq p q : position_eqb p q = true <-> p = q.
Proof.
  revert q. induction p as [|i p IH]; intros [|j q]; simpl;
    try (split; [discriminate | congruence]); [tauto|].
  rewrite andb_true_iff, Nat.eqb_eq, IH. split; [intros [-> ->]; reflexivity|].
  intros [= -> ->]. tauto.
Qed.

Lemma strip_prefix_app p : forall q i r,
  strip_prefix p (q ++ [i]) = Some r ->
  (r = [] /\ p = q ++ [i]) \/ (r = [i] /\ p = q)
  \/ (exists a b r', r = a :: b :: r').
Proof.
  induction p as [|j p IH]; intros q i r; simpl.
  - intros [= <-]. destruct q as [|a [|b q]]; simpl.
    + right. left. tauto.
    + right. right. now exists a, i, [].
    + right. right. now exists a, b, (q ++ [i]).
  - destruct q as [|k q]; simpl.
    + destruct (Nat.eqb_spec j i); [|discriminate]. subst.
      destruct p; [|discriminate]. intros [= <-]. left. tauto.
    + destruct (Nat.eqb_spec j k); [|discriminate]. subst. intros H.
      destruct (IH _ _ _ H) as [[-> ->]|[[-> ->]|Hex]]; tauto.
Qed.

Lemma strip_prefix_self q i : strip_prefix q (q ++ [i]) = Some [i].
Proof. induction q as [|k q IH]; simpl; [reflexivity|]. now rewrite Nat.eqb_refl. Qed.

(** What [set_text] on the value column of the table at [pos] does to the
    entry of a listed table. *)
Lemma entry_of_touch pos i value table v p t :
  find_column "value" table = Some (i, value) ->
  (p = pos -> t = table) ->
  entry_of (snd (touch (pos ++ [i]) (Some v) (p, t)))
  = if position_eqb p pos then set_value v (entry_of t) else entry_of t.
Proof.
  intros Hv Hsame. unfold touch. simpl.
  destruct (position_eqb p pos) eqn:Hp.
  - apply position_eqb_eq in Hp. subst p. rewrite strip_prefix_self.
    rewrite (Hsame eq_refl). now apply entry_of_set_value with (value := value).
  - destruct (strip_prefix p (pos ++ [i])) as [r|] eqn:Hr; [|reflexivity].
    destruct (strip_prefix_app _ _ _ _ Hr) as [[-> _]|[[_ ->]|[a [b [r' ->]]]]].
    + unfold entry_of. now rewrite !column_content_set_here.
    + rewrite (proj2 (position_eqb_eq pos pos) eq_refl) in Hp. discriminate.
    + unfold entry_of. now rewrite !column_content_set_below.
Qed.

(** C10.  [update_config] returns exactly when the first table whose key
    column holds the target key has a value column, and raises
    [AttributeError] otherwise; there is a document on which it raises, and
    on that document the viewer shows the complete entry only. *)
Theorem update_config_returns_iff_value_column :
  (forall root target_key new_value,
     match update_config root target_key new_value with
     | Return _ => first_match_has_value root target_key = true
     | Raise exc =>
         exc = AttributeError /\ first_match_has_value root target_key = false
     end)
  /\ update_config config_doc_key_only "poll_interval" "60" = Raise AttributeError
  /\ rows (collect config_doc_key_only) = [("poll_interval", "30", Some EmptyString)].
Proof.
  split; [|split; reflexivity].
  intros root k v. unfold update_config, first_match_has_value, first_match.
  rewrite update_loop_find.
  destruct (find (matches k) (findall_table root)) as [[pos table]|]; [|reflexivity].
  destruct (find_column "value" table) as [[i value]|]; [reflexivity | split; reflexivity].
Qed.

(** C5 at the failing input: the first table with the key [poll_interval]
    has no value column; [update_config] raises instead of returning, and the
    tool ends with status 1 without writing. *)
Theorem update_config_raises_on_key_only_table :
  (exists pos table,
     first_match config_doc_key_only "poll_interval" = Some (pos, table)
     /\ find_column "value" table = None)
  /\ update_config config_doc_key_only "poll_interval" "60" = Raise AttributeError
  /\ main ["xmledit.py"; "poll_interval"; "60"] (Loaded config_doc_key_only)
          (Typed "n") Exit0
     = mk_outcome [] 1.
Proof.
  split; [|split; reflexivity].
  eexists. eexists. split; reflexivity.
Qed.

Lemma find_map_same {A B : Type} (P : B -> bool) (Q : A -> bool) (g : A -> B)
    (l : list A) :
  (forall a, In a l -> P (g a) = Q a) ->
  find P (map g l) = option_map g (find Q l).
Proof.
  induction l as [|a l IH]; intros H; [reflexivity|]. simpl.
  rewrite (H a) by now left. destruct (Q a); [reflexivity|].
  apply IH. intros b Hb. apply H. now right.
Qed.

Lemma matches_has_key key pe : matches key pe = has_key key (entry_of (snd pe)).
Proof.
  unfold matches, has_key, entry_of, column_content, key_matches. simpl.
  destruct (find_column "key" (snd pe)) as [[i c]|]; reflexivity.
Qed.

(** What a call that returns [True] did. *)
Lemma update_config_true root key value root' msg :
  update_config root key value = Return (root', msg, true) ->
  exists pos table i col,
    first_match root key = Some (pos, table)
    /\ find_column "value" table = Some (i, col)
    /\ root' = set_text (pos ++ [i]) (Some value) root
    /\ msg = MsgUpdated key (text col) value.
Proof.
  unfold update_config, first_match. rewrite update_loop_find.
  destruct (find (matches key) (findall_table root)) as [[pos table]|];
    [|discriminate].
  destruct (find_column "value" table) as [[i col]|] eqn:Hv; [|discriminate].
  intros [= <- <-]. exists pos, table, i, col. repeat split. exact Hv.
Qed.

Lemma entries_after_update root key value root' msg :
  update_config root key value = Return (root', msg, true) ->
  exists pos table,
    first_match root key = Some (pos, table)
    /\ entries root' = entries_with_value root pos value
    /\ value_for key (entries root') = Some (Some (Some value)).
Proof.
  intros H. apply update_config_true in H.
  destruct H as [pos [table [i [col [Hfm [Hv [-> _]]]]]]].
  exists pos, table. split; [exact Hfm|].
  assert (Hin : In (pos, table) (findall_table root)).
  { unfold first_match in Hfm. now apply find_some in Hfm. }
  assert (He : entries (set_text (pos ++ [i]) (Some value) root)
               = entries_with_value root pos value).
  { unfold entries, entries_with_value. rewrite findall_table_set_text, map_map.
    apply map_ext_in. intros [p t] Hpt.
    apply (entry_of_touch pos i col table value p t Hv).
    intros ->. apply findall_table_get in Hin, Hpt.
    destruct Hin as [Hg1 _]. destruct Hpt as [Hg2 _]. congruence. }
  split; [exact He|]. rewrite He. unfold value_for, entries_with_value.
  rewrite (find_map_same _ (matches key)).
  - fold (first_match root key). rewrite Hfm. simpl.
    now rewrite (proj2 (position_eqb_eq pos pos) eq_refl).
  - intros [p t] _. rewrite matches_has_key. simpl.
    now destruct (position_eqb p pos).
Qed.

(** *** Reading back: characters *)

Ltac each_char c :=
  destruct c as [[] [] [] [] [] [] [] []]; vm_compute; try reflexivity;
  try discriminate; try (intros; discriminate); try (intros; reflexivity).

Lemma name_char_not_end c : name_char c = true -> is_name_end c = false.
Proof. each_char c. Qed.

Lemma name_char_not_space c : name_char c = true -> is_xml_space c = false.
Proof. each_char c. Qed.

Lemma name_start_char c : name_start c = true -> name_char c = true.
Proof. each_char c. Qed.

Lemma name_char_not_slash c : name_char c = true -> Ascii.eqb c "/" = false.
Proof. each_char c. Qed.

Lemma name_start_not_gt c :
  name_start c = true -> Ascii.eqb c ">" || Ascii.eqb c "/" = false.
Proof. each_char c. Qed.
(** *** Reading back: strings *)

Lemma prefix_app s t : String.prefix s (s ++ t) = true.
Proof.
  induction s as [|c s IH]; simpl; [now destruct t|].
  destruct (ascii_dec c c); [exact IH | contradiction].
Qed.

Lemma append_nil_r s : (s ++ EmptyString)%string = s.
Proof. induction s as [|c s IH]; simpl; [reflexivity | now rewrite IH]. Qed.

Lemma append_assoc s t u : ((s ++ t) ++ u)%string = (s ++ (t ++ u))%string.
Proof. induction s as [|c s IH]; simpl; [reflexivity | now rewrite IH]. Qed.

Lemma concat_cons x l :
  String.concat EmptyString (x :: l) = (x ++ String.concat EmptyString l)%string.
Proof. destruct l; simpl; [now rewrite append_nil_r | reflexivity]. Qed.


Lemma length_append s t :
  String.length (s ++ t) = String.length s + String.length t.
Proof. induction s as [|c s IH]; simpl; [reflexivity | now rewrite IH]. Qed.

Lemma read_name_app n rest :
  all_chars name_char n = true -> ends_name rest = true ->
  read_name (n ++ rest) = (n, rest).
Proof.
  induction n as [|c n IH]; intros Hn Hr.
  - simpl. destruct rest as [|c r]; [reflexivity|]. simpl in *. now rewrite Hr.
  - simpl in Hn. apply andb_prop in Hn. destruct Hn as [Hc Hn].
    simpl. rewrite (name_char_not_end c Hc). now rewrite IH.
Qed.

(** *** Reading back: character references *)

Lemma read_reference_amp s : read_reference ("amp;" ++ s) = Some ("&"%char, s).
Proof. destruct s; reflexivity. Qed.
Lemma read_reference_lt s : read_reference ("lt;" ++ s) = Some ("<"%char, s).
Proof. destruct s; reflexivity. Qed.
Lemma read_reference_gt s : read_reference ("gt;" ++ s) = Some (">"%char, s).
Proof. destruct s; reflexivity. Qed.
Lemma read_reference_quot s : read_reference ("quot;" ++ s) = Some ("034"%char, s).
Proof. destruct s; reflexivity. Qed.
Lemma read_reference_cr s : read_reference ("#13;" ++ s) = Some ("013"%char, s).
Proof. destruct s; reflexivity. Qed.
Lemma read_reference_lf s : read_reference ("#10;" ++ s) = Some ("010"%char, s).
Proof. destruct s; reflexivity. Qed.
Lemma read_reference_tab s : read_reference ("#09;" ++ s) = Some ("009"%char, s).
Proof. destruct s; reflexivity. Qed.

Lemma text_char_inv c :
  text_char c = true ->
  is_control c = false /\ Ascii.eqb c "013" = false.
Proof.
  unfold text_char. intros H. apply andb_prop in H. destruct H as [H _].
  apply andb_prop in H. destruct H as [H1 H2].
  now rewrite negb_true_iff in H1, H2.
Qed.

Lemma read_chardata_step_plain fuel c s :
  Ascii.eqb c "<" = false -> Ascii.eqb c "&" = false ->
  Ascii.eqb c "013" = false -> is_control c = false ->
  read_chardata (S fuel) (String c s)
  = match read_chardata fuel s with
    | Some (t, r') => Some (String c t, r')
    | None => None
    end.
Proof. intros H1 H2 H3 H4. simpl. now rewrite H1, H2, H3, H4. Qed.

Lemma read_chardata_ref fuel e x y s :
  (forall r, read_reference (e ++ r) = Some (x, r)) ->
  read_chardata (S fuel) ((String "&" e ++ y) ++ s)
  = match read_chardata fuel (y ++ s) with
    | Some (t, r') => Some (String x t, r')
    | None => None
    end.
Proof.
  intros H. rewrite append_assoc. cbn [append read_chardata]. cbn.
  rewrite <- append_assoc. now rewrite append_assoc, H.
Qed.

Lemma read_chardata_end fuel rest :
  starts_tag rest = true -> read_chardata (S fuel) rest = Some (EmptyString, rest).
Proof.
  destruct rest as [|c r]; [reflexivity|]. simpl. now intros ->.
Qed.

(** Character data is read back as it was written. *)
Lemma read_chardata_escape t : forall rest fuel,
  all_chars text_char t = true -> starts_tag rest = true ->
  String.length (escape_cdata t) < fuel ->
  read_chardata fuel (escape_cdata t ++ rest) = Some (t, rest).
Proof.
  induction t as [|c t IH]; intros rest fuel Ht Hr Hf.
  - destruct fuel as [|fuel]; [lia|]. now apply read_chardata_end.
  - simpl in Ht. apply andb_prop in Ht. destruct Ht as [Hc Ht].
    destruct (text_char_inv c Hc) as [Hctl Hcr].
    unfold escape_cdata in *. cbn [replace_chars] in *. unfold cdata_entity in *.
    destruct fuel as [|fuel]; [lia|].
    destruct (Ascii.eqb_spec c "&") as [->|Hamp].
    { rewrite length_append in Hf. cbn [String.length] in Hf.
      rewrite (read_chardata_ref fuel "amp;" "&") by apply read_reference_amp.
      rewrite IH by (assumption || lia). reflexivity. }
    destruct (Ascii.eqb_spec c "<") as [->|Hlt].
    { rewrite length_append in Hf. cbn [String.length] in Hf.
      rewrite (read_chardata_ref fuel "lt;" "<") by apply read_reference_lt.
      rewrite IH by (assumption || lia). reflexivity. }
    destruct (Ascii.eqb_spec c ">") as [->|Hgt].
    { rewrite length_append in Hf. cbn [String.length] in Hf.
      rewrite (read_chardata_ref fuel "gt;" ">") by apply read_reference_gt.
      rewrite IH by (assumption || lia). reflexivity. }
    cbn [append String.length] in *.
    rewrite read_chardata_step_plain; try assumption.
    + rewrite IH by (assumption || lia). reflexivity.
    + now apply Ascii.eqb_neq.
    + now apply Ascii.eqb_neq.
Qed.
(** *** Reading back: attribute values *)

Lemma attr_char_inv c :
  attr_char c = true -> is_control c = false.
Proof.
  unfold attr_char. intros H. apply andb_prop in H. destruct H as [H _].
  now rewrite negb_true_iff in H.
Qed.

Lemma space_is_itself c :
  Ascii.eqb c "013" = false -> Ascii.eqb c "010" = false ->
  Ascii.eqb c "009" = false ->
  (if is_xml_space c then " "%char else c) = c.
Proof. each_char c. Qed.

Lemma read_attvalue_ref fuel e x y s :
  (forall r, read_reference (e ++ r) = Some (x, r)) ->
  read_attvalue (S fuel) "034" ((String "&" e ++ y) ++ s)
  = match read_attvalue fuel "034" (y ++ s) with
    | Some (t, r') => Some (String x t, r')
    | None => None
    end.
Proof.
  intros H. rewrite append_assoc. cbn [append read_attvalue]. cbn.
  rewrite <- append_assoc. now rewrite append_assoc, H.
Qed.

Lemma read_attvalue_step_plain fuel c s :
  Ascii.eqb c "034" = false -> Ascii.eqb c "<" = false ->
  Ascii.eqb c "&" = false -> Ascii.eqb c "013" = false ->
  is_control c = false ->
  read_attvalue (S fuel) "034" (String c s)
  = match read_attvalue fuel "034" s with
    | Some (t, r') =>
        Some (String (if is_xml_space c then " "%char else c) t, r')
    | None => None
    end.
Proof. intros H1 H2 H3 H4 H5. simpl. now rewrite H1, H2, H3, H4, H5. Qed.

(** An attribute value is read back as it was written. *)
Lemma read_attvalue_escape v : forall rest fuel,
  all_chars attr_char v = true ->
  String.length (escape_attrib v) < fuel ->
  read_attvalue fuel "034" (escape_attrib v ++ dquote ++ rest) = Some (v, rest).
Proof.
  induction v as [|c v IH]; intros rest fuel Hv Hf.
  - destruct fuel as [|fuel]; [lia|]. reflexivity.
  - simpl in Hv. apply andb_prop in Hv. destruct Hv as [Hc Hv].
    pose proof (attr_char_inv c Hc) as Hctl.
    unfold escape_attrib in *. cbn [replace_chars] in *. unfold attrib_entity in *.
    destruct fuel as [|fuel]; [lia|].
    destruct (Ascii.eqb_spec c "&") as [->|Hamp].
    { rewrite length_append in Hf. cbn [String.length] in Hf.
      rewrite (read_attvalue_ref fuel "amp;" "&") by apply read_reference_amp.
      rewrite IH by (assumption || lia). reflexivity. }
    destruct (Ascii.eqb_spec c "<") as [->|Hlt].
    { rewrite length_append in Hf. cbn [String.length] in Hf.
      rewrite (read_attvalue_ref fuel "lt;" "<") by apply read_reference_lt.
      rewrite IH by (assumption || lia). reflexivity. }
    destruct (Ascii.eqb_spec c ">") as [->|Hgt].
    { rewrite length_append in Hf. cbn [String.length] in Hf.
      rewrite (read_attvalue_ref fuel "gt;" ">") by apply read_reference_gt.
      rewrite IH by (assumption || lia). reflexivity. }
    destruct (Ascii.eqb_spec c "034") as [->|Hq].
    { rewrite length_append in Hf. cbn [String.length] in Hf.
      rewrite (read_attvalue_ref fuel "quot;" "034") by apply read_reference_quot.
      rewrite IH by (assumption || lia). reflexivity. }
    destruct (Ascii.eqb_spec c "013") as [->|Hcr].
    { rewrite length_append in Hf. cbn [String.length] in Hf.
      rewrite (read_attvalue_ref fuel "#13;" "013") by apply read_reference_cr.
      rewrite IH by (assumption || lia). reflexivity. }
    destruct (Ascii.eqb_spec c "010") as [->|Hlf].
    { rewrite length_append in Hf. cbn [String.length] in Hf.
      rewrite (read_attvalue_ref fuel "#10;" "010") by apply read_reference_lf.
      rewrite IH by (assumption || lia). reflexivity. }
    destruct (Ascii.eqb_spec c "009") as [->|Htab].
    { rewrite length_append in Hf. cbn [String.length] in Hf.
      rewrite (read_attvalue_ref fuel "#09;" "009") by apply read_reference_tab.
      rewrite IH by (assumption || lia). reflexivity. }
    cbn [append String.length] in *.
    rewrite read_attvalue_step_plain; try assumption;
      try (now apply Ascii.eqb_neq).
    rewrite IH by (assumption || lia).
    rewrite space_is_itself by (now apply Ascii.eqb_neq). reflexivity.
Qed.

(** *** Reading back: attributes *)

Lemma name_ok_inv k :
  name_ok k = true ->
  exists c k', k = String c k' /\ name_start c = true
               /\ all_chars name_char k = true.
Proof.
  destruct k as [|c k']; [discriminate|]. unfold name_ok. intros H.
  apply andb_prop in H. destruct H as [H1 H2]. now exists c, k'.
Qed.

Lemma ser_attrs_cons k v a :
  ser_attrs ((k, v) :: a)
  = (String " " (k ++ String "=" (dquote ++ escape_attrib v ++ dquote ++ ser_attrs a)))%string.
Proof.
  unfold ser_attrs. cbn [map]. rewrite concat_cons. unfold write_attr.
  cbn [fst snd]. rewrite !append_assoc. reflexivity.
Qed.

Lemma string_cons_app c a b : String c (a ++ b) = (String c a ++ b)%string.
Proof. reflexivity. Qed.

Lemma read_attrs_ser a : forall acc rest fuel,
  attrs_ok a = true ->
  (forall kv, In kv a -> existsb (fun x => String.eqb (fst x) (fst kv)) acc = false) ->
  ends_start_tag rest = true ->
  String.length (ser_attrs a) < fuel ->
  read_attrs fuel acc (ser_attrs a ++ rest) = Some (rev acc ++ a, skip_space rest).
Proof.
  induction a as [|[k v] a IH]; intros acc rest fuel Ha Hacc Hr Hf.
  - destruct fuel as [|fuel]; [lia|]. cbn [ser_attrs map String.concat append].
    cbn [read_attrs]. unfold ends_start_tag in Hr.
    destruct (skip_space rest) as [|c r]; [discriminate|]. rewrite Hr.
    now rewrite app_nil_r.
  - cbn [attrs_ok] in Ha. apply andb_prop in Ha. destruct Ha as [Ha Ha'].
    apply andb_prop in Ha. destruct Ha as [Ha Hdup].
    apply andb_prop in Ha. destruct Ha as [Hk Hv].
    apply negb_true_iff in Hdup.
    destruct (name_ok_inv k Hk) as [c [k' [-> [Hc Hkc]]]].
    rewrite ser_attrs_cons in *.
    repeat (cbn [String.length] in Hf; rewrite ?length_append in Hf).
    assert (Hdq : String.length dquote = 1) by reflexivity.
    destruct fuel as [|fuel]; [lia|].
    cbn [append read_attrs skip_space].
    change (is_xml_space " ") with true. cbv iota.
    cbn [skip_space]. rewrite (name_char_not_space c (name_start_char c Hc)).
    rewrite (name_start_not_gt c Hc).
    rewrite (append_assoc k'). rewrite (string_cons_app c k').
    rewrite read_name_app by (assumption || reflexivity).
    cbn [Py.truthy negb].
    pose proof (Hacc (String c k', v) (or_introl eq_refl)) as Hk0.
    cbn [fst] in Hk0. rewrite Hk0.
    cbn [append skip_space]. change (is_xml_space "=") with false. cbv iota.
    unfold dquote at 1. cbn [append skip_space].
    change (is_xml_space "034") with false. cbv iota.
    change (Ascii.eqb "034" "034") with true. cbn [orb].
    rewrite !append_assoc.
    rewrite read_attvalue_escape by (assumption || lia).
    rewrite IH; try assumption; try lia.
    + cbn [rev]. now rewrite <- app_assoc.
    + intros [k2 v2] Hin. cbn [existsb fst].
      pose proof (Hacc (k2, v2) (or_intror Hin)) as Hk2. cbn [fst] in Hk2.
      rewrite Hk2, orb_false_r. apply String.eqb_neq. intros Heq.
      assert (existsb (fun kv => String.eqb (fst kv) (String c k')) a = true);
        [|congruence].
      apply existsb_exists. exists (k2, v2). split; [exact Hin|].
      cbn [fst]. rewrite <- Heq. apply String.eqb_refl.
Qed.
(** *** Reading back: elements *)

Lemma body_eq tg at_ tx cs tl :
  body (Element tg at_ tx cs tl)
  = (tg ++ ser_attrs at_
     ++ (if has_content tx cs then
           ">" ++ ser_text tx ++ ser_children cs ++ "</" ++ tg ++ ">"
         else " />"))%string.
Proof.
  cbn [body]. destruct (has_content tx cs); reflexivity.
Qed.

Lemma concat_app l1 l2 :
  String.concat EmptyString (l1 ++ l2)
  = (String.concat EmptyString l1 ++ String.concat EmptyString l2)%string.
Proof.
  induction l1 as [|x l1 IH]; [reflexivity|].
  cbn [app]. now rewrite !concat_cons, IH, append_assoc.
Qed.

Lemma serialize_body e :
  String.concat EmptyString (serialize_xml e)
  = ("<" ++ body e ++ ser_text (tail e))%string.
Proof.
  induction e as [tg at_ tx cs tl IHcs] using element_ind'.
  rewrite body_eq. cbn [serialize_xml tail].
  assert (Hk : String.concat EmptyString (flat_map serialize_xml cs)
               = ser_children cs).
  { induction cs as [|c cs IH]; [reflexivity|].
    inversion IHcs as [|? ? Hc IHcs']; subst.
    cbn [flat_map ser_children]. rewrite concat_app, Hc, (IH IHcs').
    now rewrite !append_assoc. }
  rewrite !concat_app. fold (ser_attrs at_). fold (ser_text tl).
  unfold has_content.
  destruct (truthy_opt tx || negb (Nat.eqb (List.length cs) 0)).
  - rewrite !concat_app, Hk. fold (ser_text tx).
    cbn [String.concat]. rewrite !append_assoc. reflexivity.
  - cbn [String.concat]. rewrite !append_assoc. reflexivity.
Qed.

Lemma text_ok_read x rest fuel :
  text_ok x = true -> starts_tag rest = true ->
  String.length (ser_text x) < fuel ->
  exists t, read_chardata fuel (ser_text x ++ rest) = Some (t, rest)
            /\ text_of t = x.
Proof.
  intros Hx Hr Hf. destruct x as [s|].
  - simpl in Hx. apply andb_prop in Hx. destruct Hx as [Hs Hc].
    unfold ser_text, write_text in *. rewrite Hs in *.
    cbn [String.concat] in *. exists s. split.
    + now apply read_chardata_escape.
    + unfold text_of. now rewrite Hs.
  - exists EmptyString. split; [|reflexivity].
    cbn. destruct fuel as [|fuel]; [simpl in Hf; lia|].
    now apply read_chardata_end.
Qed.

Lemma set_tail_tail e : set_tail (set_tail e None) (tail e) = e.
Proof. now destruct e. Qed.

Lemma storable_inv tg at_ tx cs tl :
  storable (Element tg at_ tx cs tl) = true ->
  name_ok tg = true /\ attrs_ok at_ = true /\ text_ok tx = true
  /\ text_ok tl = true /\ forallb storable cs = true.
Proof.
  cbn [storable]. intros H. repeat (apply andb_prop in H; destruct H as [H ?]).
  tauto.
Qed.

Lemma storable_plain tg at_ tx cs tl :
  storable (Element tg at_ tx cs tl) = true -> plain_attrs at_ = true.
Proof.
  cbn [storable]. intros H. repeat (apply andb_prop in H; destruct H as [H ?]).
  assumption.
Qed.

Lemma all_chars_no_colon s : all_chars name_char s = true -> has_colon s = false.
Proof.
  induction s as [|c s IH]; [reflexivity|]. cbn [all_chars has_colon].
  intros H. apply andb_prop in H. destruct H as [Hc Hs]. rewrite (IH Hs).
  rewrite orb_false_r. revert Hc. each_char c.
Qed.

Lemma name_ok_no_colon s : name_ok s = true -> has_colon s = false.
Proof.
  destruct s as [|c s]; [reflexivity|]. unfold name_ok. intros H.
  apply andb_prop in H. destruct H as [_ H]. now apply all_chars_no_colon.
Qed.

(** A storable tree declares and uses no namespace. *)
Lemma storable_no_namespaces e : storable e = true -> uses_namespaces e = false.
Proof.
  induction e as [tg at_ tx cs tl IHcs] using element_ind'. intros Hst.
  pose proof (storable_plain _ _ _ _ _ Hst) as Hp.
  destruct (storable_inv _ _ _ _ _ Hst) as [Hn [Ha [_ [_ Hcs]]]].
  cbn [uses_namespaces]. rewrite (name_ok_no_colon tg Hn). cbn [orb].
  apply orb_false_iff. split.
  - clear IHcs Hst Hcs. induction at_ as [|[k v] a IH]; [reflexivity|].
    cbn [attrs_ok] in Ha. cbn [plain_attrs forallb fst] in Hp.
    apply andb_prop in Hp. destruct Hp as [Hk Hp].
    repeat (apply andb_prop in Ha; destruct Ha as [Ha ?]).
    cbn [existsb fst]. rewrite (name_ok_no_colon k Ha).
    apply negb_true_iff in Hk. rewrite Hk. cbn [orb]. now apply IH.
  - clear Hst Hn Ha Hp. induction cs as [|c cs IH]; [reflexivity|].
    inversion IHcs as [|? ? Hc IHcs']; subst. cbn [forallb] in Hcs.
    apply andb_prop in Hcs. destruct Hcs as [Hsc Hcs].
    cbn [existsb]. rewrite (Hc Hsc). cbn [orb]. now apply IH.
Qed.

Lemma body_head e :
  storable e = true ->
  exists c s, body e = String c s /\ Ascii.eqb c "/" = false.
Proof.
  destruct e as [tg at_ tx cs tl]. intros H.
  apply storable_inv in H. destruct H as [Hn _].
  destruct (name_ok_inv tg Hn) as [c [k' [-> [Hc _]]]].
  rewrite body_eq. cbn [append]. eexists. eexists. split; [reflexivity|].
  apply name_char_not_slash. now apply name_start_char.
Qed.

(** The children are read back as they were written. *)
Lemma parse_content_children P chars cs : forall n acc R,
  Forall (fun c => storable c = true
                   /\ (forall rest, P (body c ++ rest)%string
                                    = Some (set_tail c None, rest))
                   /\ String.length (ser_text (tail c)) < chars) cs ->
  List.length cs < n ->
  parse_content P chars n acc (ser_children cs ++ String "<" (String "/" R))
  = Some (rev acc ++ cs, R).
Proof.
  induction cs as [|c cs IH]; intros n acc R Hall Hn.
  - destruct n as [|n]; [simpl in Hn; lia|]. cbn. now rewrite app_nil_r.
  - inversion Hall as [|? ? [Hst [HP Hch]] Hall']; subst.
    destruct n as [|n]; [simpl in Hn; lia|]. simpl in Hn.
    cbn [ser_children]. rewrite !append_assoc.
    destruct (body_head c Hst) as [c2 [s2 [Hb Hc2]]].
    cbn [append]. rewrite Hb at 1. cbn [append parse_content].
    change (negb (Ascii.eqb "<" "<")) with false. cbv iota. rewrite Hc2.
    rewrite (string_cons_app c2 s2), <- Hb, HP.
    assert (Htl : text_ok (tail c) = true).
    { destruct c. apply storable_inv in Hst. cbn [tail]. tauto. }
    destruct (text_ok_read (tail c)
                (ser_children cs ++ String "<" (String "/" R)) chars Htl)
      as [t [Ht1 Ht2]]; [|assumption|].
    { destruct cs as [|d cs]; reflexivity. }
    rewrite Ht1, Ht2, set_tail_tail.
    rewrite IH by (assumption || lia). cbn [rev]. now rewrite <- app_assoc.
Qed.

Lemma ends_name_attrs a rest :
  ends_name rest = true -> ends_name (ser_attrs a ++ rest) = true.
Proof.
  destruct a as [|[k v] a]; [trivial|]. intros _. now rewrite ser_attrs_cons.
Qed.

Lemma starts_tag_children cs R :
  starts_tag (ser_children cs ++ String "<" R) = true.
Proof. destruct cs; reflexivity. Qed.

Lemma length_child_le c cs :
  In c cs ->
  String.length (body c) + String.length (ser_text (tail c)) + 1
  <= String.length (ser_children cs).
Proof.
  induction cs as [|d cs IH]; [intros []|]. cbn [ser_children].
  rewrite !length_append. cbn [String.length].
  intros [->|Hin]; [lia|]. apply IH in Hin. lia.
Qed.

Lemma length_children_le cs : List.length cs <= String.length (ser_children cs).
Proof.
  induction cs as [|d cs IH]; [apply Nat.le_refl|]. cbn [ser_children List.length].
  rewrite !length_append. cbn [String.length]. lia.
Qed.

Lemma eqb_tag_refl s : String.eqb s s = true.
Proof. apply String.eqb_refl. Qed.

(** An element is read back as it was written. *)
Lemma parse_element_body e : forall rest fuel,
  storable e = true ->
  String.length (body e) < fuel ->
  parse_element fuel (body e ++ rest) = Some (set_tail e None, rest).
Proof.
  induction e as [tg at_ tx cs tl IHcs] using element_ind'.
  intros rest fuel Hst Hf.
  destruct (storable_inv _ _ _ _ _ Hst) as [Hn [Ha [Htx [Htl Hcs]]]].
  destruct (name_ok_inv tg Hn) as [c0 [tg' [Etg [Hc0 Htg]]]].
  rewrite body_eq in *. destruct fuel as [|fuel]; [lia|].
  rewrite !length_append in Hf.
  cbn [parse_element]. rewrite append_assoc.
  rewrite read_name_app; [|exact Htg|].
  2:{ rewrite append_assoc. apply ends_name_attrs.
      destruct (has_content tx cs); reflexivity. }
  assert (Htr : Py.truthy tg = true) by now rewrite Etg.
  rewrite Htr. cbn [negb]. rewrite append_assoc.
  destruct (has_content tx cs) eqn:Hhc.
  - (* start tag, content, end tag *)
    rewrite (read_attrs_ser at_ []);
      [|exact Ha | intros kv _; reflexivity | reflexivity | lia].
    cbn [rev app append skip_space]. change (is_xml_space ">") with false.
    cbv iota. rewrite !append_assoc.
    cbn [String.length] in Hf. rewrite !length_append in Hf.
    destruct (text_ok_read tx
                (ser_children cs ++ String "<" (String "/" (tg ++ ">" ++ rest)))
                (S fuel) Htx) as [t [Ht1 Ht2]];
      [apply starts_tag_children | lia |].
    cbn [append] in Ht1 |- *. rewrite ?append_assoc. cbn [append]. rewrite Ht1.
    rewrite (parse_content_children (parse_element fuel) (S fuel) cs).
    + rewrite read_name_app by (assumption || reflexivity).
      cbn [append skip_space]. change (is_xml_space ">") with false. cbv iota.
      rewrite eqb_tag_refl, Ht2. reflexivity.
    + apply Forall_forall. intros c Hc.
      rewrite Forall_forall in IHcs. rewrite forallb_forall in Hcs.
      pose proof (length_child_le c cs Hc) as Hle.
      split; [now apply Hcs|]. split; [|lia].
      intros r. apply IHcs; [exact Hc | now apply Hcs | lia].
    + pose proof (length_children_le cs). lia.
  - (* an empty element *)
    rewrite (read_attrs_ser at_ []);
      [|exact Ha | intros kv _; reflexivity | reflexivity | lia].
    cbn [rev app append skip_space]. change (is_xml_space " ") with true.
    cbv iota. cbn [skip_space]. change (is_xml_space "/") with false. cbv iota.
    unfold has_content in Hhc. apply orb_false_elim in Hhc.
    destruct Hhc as [Ht Hl]. apply negb_false_iff, Nat.eqb_eq in Hl.
    destruct cs; [|discriminate Hl].
    destruct tx as [s|]; [|reflexivity].
    simpl in Htx, Ht. rewrite Ht in Htx. discriminate Htx.
Qed.

Lemma written_eq root :
  written root = (xml_declaration ++ "<" ++ body root ++ ser_text (tail root))%string.
Proof. unfold written. now rewrite concat_cons, serialize_body. Qed.

Lemma declaration_prefix s : String.prefix "<?xml" (xml_declaration ++ s) = true.
Proof. reflexivity. Qed.

Lemma declaration_skipped s :
  skip_declaration (drop 5 (xml_declaration ++ s)) = Some (String "010" s).
Proof. reflexivity. Qed.

Lemma skip_space_newline_tag s :
  skip_space (String "010" (String "<" s)) = String "<" s.
Proof. reflexivity. Qed.

(** A storable document is read back from the file as it was written. *)
Lemma parse_written root :
  storable root = true -> tail root = None ->
  ET_parse (written root) = Some root.
Proof.
  intros Hst Htl. rewrite written_eq, Htl.
  change (ser_text None) with EmptyString.
  unfold ET_parse.
  remember (S (String.length (xml_declaration ++ "<" ++ body root ++ EmptyString)))
    as fuel eqn:Ef.
  assert (Hf : String.length (body root) < fuel).
  { rewrite Ef, !length_append. lia. }
  clear Ef.
  rewrite declaration_prefix, declaration_skipped.
  change ("<" ++ body root ++ EmptyString)%string
    with (String "<" (body root ++ EmptyString)).
  rewrite skip_space_newline_tag.
  rewrite parse_element_body by assumption.
  cbn [skip_space]. destruct root as [tg at_ tx cs tl]. cbn in Htl. subst tl.
  cbn [set_tail]. now rewrite (storable_no_namespaces _ Hst).
Qed.


Lemma forallb_update_nth {A : Type} (P : A -> bool) (f : A -> A) (l : list A) :
  forall i, (forall a, P a = true -> P (f a) = true) ->
  forallb P l = true -> forallb P (update_nth i f l) = true.
Proof.
  induction l as [|a l IH]; intros i Hf H; [reflexivity|].
  simpl in H. apply andb_prop in H. destruct H as [Ha Hl].
  destruct i as [|i]; simpl.
  - now rewrite (Hf a Ha), Hl.
  - now rewrite Ha, IH.
Qed.


Lemma tail_set_text q x e : tail (set_text q x e) = tail e.
Proof. destruct e; destruct q; reflexivity. Qed.



(** *** Saving *)

Lemma store_same d p x : store d p x p = x.
Proof. unfold store. now rewrite String.eqb_refl. Qed.

(** Writing the chunks [l] to a file that holds [acc]: stopped after any
    number of operations the file holds [acc] and some of the first chunks;
    let run, it holds them all. *)
Lemma write_chunks path l : forall d acc,
  d path = Some acc ->
  apply_ops d (map (WriteChunk path) l ++ [CloseFile path]) path
  = Some (acc ++ String.concat EmptyString l)%string
  /\ forall n, exists k,
       apply_ops d (firstn n (map (WriteChunk path) l ++ [CloseFile path])) path
       = Some (acc ++ String.concat EmptyString (firstn k l))%string.
Proof.
  induction l as [|x l IH]; intros d acc Hd.
  - split; [simpl; now rewrite append_nil_r|].
    intros n. exists 0. destruct n as [|[|n]]; simpl; now rewrite append_nil_r.
  - assert (Hd' : apply_op d (WriteChunk path x) path = Some (acc ++ x)%string).
    { simpl. rewrite Hd. apply store_same. }
    destruct (IH _ _ Hd') as [Hall Hpre]. split.
    + cbn [map app apply_ops fold_left]. unfold apply_ops in Hall. rewrite Hall.
      now rewrite concat_cons, append_assoc.
    + intros [|n].
      * exists 0. simpl. now rewrite append_nil_r.
      * destruct (Hpre n) as [k Hk]. exists (S k).
        cbn [map app firstn apply_ops fold_left]. unfold apply_ops in Hk.
        rewrite Hk. cbn [firstn]. now rewrite concat_cons, append_assoc.
Qed.

Lemma prefix_concat_firstn k l :
  String.prefix (String.concat EmptyString (firstn k l))
                (String.concat EmptyString l) = true.
Proof.
  revert k. induction l as [|x l IH]; intros [|k]; try reflexivity.
  - exact (prefix_app EmptyString _).
  - cbn [firstn]. rewrite !concat_cons.
    specialize (IH k). revert IH.
    generalize (String.concat EmptyString (firstn k l)) as a.
    generalize (String.concat EmptyString l) as b. intros b a Hab.
    induction x as [|c x IHx]; simpl; [exact Hab|].
    destruct (ascii_dec c c); [exact IHx | contradiction].
Qed.

(** C4, as the specification states it, fails: no temporary file is written
    and renamed, and as soon as the target is opened it is empty. *)
Lemma atomic_save_claim_fails :
  ~ atomic_save_claim config_doc "<database />".
Proof.
  intros [_ H]. specialize (H 1). vm_compute in H.
  destruct H as [H|H]; discriminate H.
Qed.

(** C4, amended.  The save writes the whole document, a declaration first,
    into the target file itself: every operation is on [XML_PATH], none is a
    rename; once the target is opened it holds a beginning of the new
    document, whatever it held before, and at the end all of it.  In [main]
    these are the file operations of an update that succeeded. *)
Theorem save_writes_in_place (root : element) (d : disk) :
  let ops := tree_write XML_PATH root in
  forallb (targets XML_PATH) ops = true
  /\ String.prefix xml_declaration (written root) = true
  /\ apply_ops d ops XML_PATH = Some (written root)
  /\ (forall n, exists s,
        apply_ops d (firstn (S n) ops) XML_PATH = Some s
        /\ String.prefix s (written root) = true)
  /\ (forall argv root0 msg typed run,
        List.length argv = 3 ->
        nth 1 argv EmptyString <> "view" ->
        update_config root0 (nth 1 argv EmptyString) (nth 2 argv EmptyString)
        = Return (root, msg, true) ->
        file_ops (trace (main argv (Loaded root0) typed run)) = ops).
Proof.
  intros ops. split; [|split; [|split; [|split]]].
  - apply forallb_forall. intros op Hop. unfold ops, tree_write in Hop.
    apply in_app_or in Hop. destruct Hop as [[<-|[]]|Hop]; [apply String.eqb_refl|].
    apply in_app_or in Hop. destruct Hop as [Hop|[<-|[]]]; [|apply String.eqb_refl].
    apply in_map_iff in Hop. destruct Hop as [x [<- _]]. apply String.eqb_refl.
  - unfold written. rewrite concat_cons. apply prefix_app.
  - unfold ops, tree_write. cbn [app apply_ops fold_left].
    destruct (write_chunks XML_PATH (xml_declaration :: serialize_xml root)
                (apply_op d (OpenTruncate XML_PATH)) EmptyString) as [H _].
    { apply store_same. }
    exact H.
  - intros n. unfold ops, tree_write. cbn [app firstn apply_ops fold_left].
    destruct (write_chunks XML_PATH (xml_declaration :: serialize_xml root)
                (apply_op d (OpenTruncate XML_PATH)) EmptyString) as [_ H].
    { apply store_same. }
    destruct (H n) as [k Hk]. eexists. split; [exact Hk|].
    apply prefix_concat_firstn.
  - intros argv root0 msg typed run Hlen Hview Hu. unfold main, main_w.
    rewrite Hlen. change (3 <? 2)%nat with false. cbv iota.
    destruct (String.eqb_spec (nth 1 argv EmptyString) "view"); [contradiction|].
    change (negb (3 =? 3)%nat) with false. cbv iota. rewrite Hu.
    destruct (ask_restart typed run) as [effs exc] eqn:Ha. cbn [trace file_ops flat_map].
    unfold file_ops. rewrite flat_map_app.
    assert (H1 : forall l, flat_map (fun e => match e with FileOp op => [op] | _ => [] end)
                                    (map FileOp l) = l).
    { induction l as [|o l IH]; [reflexivity|]. simpl. now rewrite IH. }
    rewrite H1.
    assert (H2 : flat_map (fun e => match e with FileOp op => [op] | _ => [] end) effs = []).
    { unfold ask_restart in Ha. destruct typed; [|injection Ha as <- _; reflexivity..].
      destruct (_ || _); [|injection Ha as <- _; reflexivity].
      destruct run; injection Ha as <- _; reflexivity. }
    rewrite H2. apply app_nil_r.
Qed.

Lemma save_writes_in_place_witness :
  exists root' msg,
    update_config config_doc "symbol" "EURUSD" = Return (root', msg, true)
    /\ file_ops (trace (main ["xmledit.py"; "symbol"; "EURUSD"]
                             (Loaded config_doc) (Typed "n") Exit0))
       = tree_write XML_PATH root'.
Proof.
  destruct (update_config config_doc "symbol" "EURUSD") as [[[root' msg] b]|]
    eqn:Hu; [|discriminate Hu].
  destruct b; [|discriminate Hu].
  exists root', msg. split; [reflexivity|].
  destruct (save_writes_in_place root' (fun _ => None)) as [_ [_ [_ [_ H]]]].
  apply (H ["xmledit.py"; "symbol"; "EURUSD"] config_doc msg (Typed "n") Exit0).
  - reflexivity.
  - discriminate.
  - exact Hu.
Defined.

(** *** The command line *)

(** C6, as the specification states it, fails: three arguments are neither
    form, and the tool reports invalid arguments with status 1. *)
Lemma cli_claim_fails_on_three_arguments :
  ~ cli_claim ["xmledit.py"; "a"; "b"; "c"] (Loaded config_doc) CtrlC Exit0.
Proof.
  intros [H _]. destruct H as [_ H]; [discriminate | discriminate | discriminate H].
Qed.

(** C6, amended.  Without an argument the tool prints the usage and ends
    with status 0.  With one or more: a missing document ends it with status
    1; [view] as the first argument shows the table, status 0; otherwise any
    number of arguments other than two is reported as invalid, status 1; and
    a key that no table has is reported, nothing is written, status 0. *)
Theorem main_exit_status
    (argv : list string) (file : loaded) (typed : answer) (run : restart_run) :
  let o := main argv file typed run in
  (List.length argv < 2 -> trace o = [Print MsgUsage] /\ status o = 0)
  /\ (2 <= List.length argv -> file = FileNotFound ->
      trace o = [Print MsgXmlNotFound] /\ status o = 1)
  /\ (forall root, 2 <= List.length argv -> file = Loaded root ->
      nth 1 argv EmptyString = "view" ->
      trace o = [Print (MsgTable (view_configs root))] /\ status o = 0)
  /\ (forall root, 2 <= List.length argv -> file = Loaded root ->
      nth 1 argv EmptyString <> "view" -> List.length argv <> 3 ->
      trace o = [Print MsgInvalidArgs] /\ status o = 1)
  /\ (forall root, List.length argv = 3 -> file = Loaded root ->
      nth 1 argv EmptyString <> "view" ->
      first_match root (nth 1 argv EmptyString) = None ->
      trace o = [Print (MsgKeyNotFound (nth 1 argv EmptyString))]
      /\ status o = 0).
Proof.
  intros o. unfold o, main, main_w. split; [|split; [|split; [|split]]].
  - intros H. apply Nat.ltb_lt in H. now rewrite H.
  - intros H ->. destruct (Nat.ltb_spec (List.length argv) 2); [lia|]. tauto.
  - intros root H -> Hv. destruct (Nat.ltb_spec (List.length argv) 2); [lia|].
    rewrite Hv. simpl. tauto.
  - intros root H -> Hv Hl. destruct (Nat.ltb_spec (List.length argv) 2); [lia|].
    destruct (String.eqb_spec (nth 1 argv EmptyString) "view"); [contradiction|].
    destruct (Nat.eqb_spec (List.length argv) 3); [contradiction|]. simpl. tauto.
  - intros root Hl -> Hv Hfm. rewrite Hl. change (3 <? 2)%nat with false. cbv iota.
    destruct (String.eqb_spec (nth 1 argv EmptyString) "view"); [contradiction|].
    change (negb (3 =? 3)%nat) with false. cbv iota. unfold update_config. rewrite update_loop_find.
    unfold first_match in Hfm. rewrite Hfm. simpl. tauto.
Qed.

Lemma main_exit_status_witness :
  (trace (main ["xmledit.py"] FileNotFound CtrlC Exit0) = [Print MsgUsage]
   /\ status (main ["xmledit.py"] FileNotFound CtrlC Exit0) = 0)
  /\ status (main ["xmledit.py"; "view"] FileNotFound CtrlC Exit0) = 1
  /\ status (main ["xmledit.py"; "view"; "x"] (Loaded config_doc) CtrlC Exit0) = 0
  /\ status (main ["xmledit.py"; "a"; "b"; "c"] (Loaded config_doc) CtrlC Exit0) = 1
  /\ (trace (main ["xmledit.py"; "nope"; "1"] (Loaded config_doc) CtrlC Exit0)
      = [Print (MsgKeyNotFound "nope")]
      /\ status (main ["xmledit.py"; "nope"; "1"] (Loaded config_doc) CtrlC Exit0) = 0).
Proof.
  split; [|split; [|split; [|split]]].
  - destruct (main_exit_status ["xmledit.py"] FileNotFound CtrlC Exit0)
      as [H _].
    apply H. simpl. lia.
  - destruct (main_exit_status ["xmledit.py"; "view"] FileNotFound CtrlC Exit0)
      as [_ [H _]].
    apply H; [simpl; lia | reflexivity].
  - destruct (main_exit_status ["xmledit.py"; "view"; "x"] (Loaded config_doc)
                CtrlC Exit0) as [_ [_ [H _]]].
    apply (H config_doc); [simpl; lia | reflexivity | reflexivity].
  - destruct (main_exit_status ["xmledit.py"; "a"; "b"; "c"] (Loaded config_doc)
                CtrlC Exit0) as [_ [_ [_ [H _]]]].
    apply (H config_doc); [simpl; lia | reflexivity | discriminate | discriminate].
  - destruct (main_exit_status ["xmledit.py"; "nope"; "1"] (Loaded config_doc)
                CtrlC Exit0) as [_ [_ [_ [_ H]]]].
    apply (H config_doc); [reflexivity | reflexivity | discriminate | reflexivity].
Defined.


(** *** The layout of the table *)

Lemma length_ljust s w : String.length (Py.ljust s w) = Nat.max (String.length s) w.
Proof. unfold Py.ljust. rewrite length_append, length_repeat_char. lia. Qed.

Lemma length_header_line kw vw :
  String.length (header_line kw vw) = Nat.max 3 kw + Nat.max 5 vw + 15.
Proof.
  unfold header_line. rewrite !length_append, !length_ljust. simpl String.length. lia.
Qed.

Lemma list_max_In (f : row -> nat) (rs : list row) r :
  In r rs -> f r <= list_max (map f rs).
Proof.
  intros Hin.
  assert (H : Forall (fun k => k <= list_max (map f rs)) (map f rs))
    by now apply list_max_le.
  rewrite Forall_forall in H. apply H. now apply in_map.
Qed.

Lemma collect_eq root :
  collect root
  = mk_collected (included_rows root)
      (list_max (map (fun r => String.length (key_of r)) (included_rows root)))
      (list_max (map (fun r => String.length (value_of r)) (included_rows root))).
Proof. unfold collect. now rewrite collect_fold. Qed.

(** X10.  The rows of the table are aligned: every line after the
    divider is, for a row of the document, the key padded to exactly the key
    width, two spaces, the value padded to exactly the value width, two
    spaces and the description. *)
Theorem view_rows_aligned (root : element) (line : string) :
  let kw := max_key_len (collect root) in
  let vw := max_val_len (collect root) in
  In line (skipn 3 (view_configs root)) ->
  exists k v d,
    In (k, v, d) (included_rows root)
    /\ line = (Py.ljust k kw ++ "  " ++ Py.ljust v vw ++ "  " ++ fmt d)%string
    /\ String.length (Py.ljust k kw) = kw
    /\ String.length (Py.ljust v vw) = vw.
Proof.
  intros kw vw Hin.
  unfold view_configs in Hin. cbn [app skipn] in Hin.
  apply in_map_iff in Hin. destruct Hin as [[[k v] d] [<- Hin]].
  unfold kw, vw. rewrite collect_eq in Hin |- *. cbn [rows max_key_len max_val_len] in *.
  exists k, v, d. split; [exact Hin|]. split; [reflexivity|].
  rewrite !length_ljust.
  pose proof (list_max_In (fun r => String.length (key_of r)) _ _ Hin) as H1.
  pose proof (list_max_In (fun r => String.length (value_of r)) _ _ Hin) as H2.
  cbn [key_of value_of fst snd] in H1, H2. lia.
Qed.

Lemma view_rows_aligned_witness :
  exists k v d,
    In (k, v, d) (included_rows config_doc)
    /\ "symbol         USDJPY  "
       = (Py.ljust k (max_key_len (collect config_doc)) ++ "  "
          ++ Py.ljust v (max_val_len (collect config_doc)) ++ "  " ++ fmt d)%string
    /\ String.length (Py.ljust k (max_key_len (collect config_doc)))
       = max_key_len (collect config_doc)
    /\ String.length (Py.ljust v (max_val_len (collect config_doc)))
       = max_val_len (collect config_doc).
Proof.
  apply (view_rows_aligned config_doc "symbol         USDJPY  ").
  vm_compute. tauto.
Defined.

(** X11.  The header against the divider.  The viewer prints a blank
    line, the header and the divider first; the header is
    [max 3 kw + max 5 vw + 15] characters long and the divider
    [kw + vw + 15], so they are equally long exactly when the key width is 3
    or more and the value width 5 or more: the header is never cut, and
    with shorter keys or values it overhangs the divider and the rows. *)
Theorem view_header_and_divider (root : element) :
  let kw := max_key_len (collect root) in
  let vw := max_val_len (collect root) in
  exists header divider body,
    view_configs root = " " :: header :: divider :: body
    /\ String.length header = Nat.max 3 kw + Nat.max 5 vw + 15
    /\ String.length divider = kw + vw + 15
    /\ (String.length divider = String.length header <-> 3 <= kw /\ 5 <= vw).
Proof.
  intros kw vw.
  exists (header_line kw vw), (divider_line kw vw),
         (map (row_line kw vw) (rows (collect root))).
  split; [reflexivity|].
  rewrite length_header_line. unfold divider_line. rewrite length_repeat_char.
  repeat split; lia.
Qed.

(** X12.  Without a table that has both a key column and a value
    column the viewer prints the blank line, the bare header and a divider
    of 15 dashes. *)
Theorem view_configs_without_rows (root : element) :
  included_rows root = [] ->
  view_configs root = [" "; "KEY  VALUE  DESCRIPTION"; "---------------"].
Proof.
  intros H. unfold view_configs. rewrite collect_eq, H. reflexivity.
Qed.

Lemma view_configs_without_rows_witness :
  view_configs (Element "database" [] None
                  [table_ [column "key" (Some "poll_interval")];
                   table_ [column "value" (Some "30")]] None)
  = [" "; "KEY  VALUE  DESCRIPTION"; "---------------"].
Proof.
  apply view_configs_without_rows. reflexivity.
Defined.

(** X13.  The description of a row.  A table without an [ettc] column
    is shown with an empty description; a table whose [ettc] column has no
    text is shown with the description [None]: only the key and the value
    fall back to the empty string. *)
Theorem view_description_column (root : element) (pos : position) (table : element) :
  let kw := max_key_len (collect root) in
  let vw := max_val_len (collect root) in
  let k := or_empty (column_text "key" table) in
  let v := or_empty (column_text "value" table) in
  In (pos, table) (findall_table root) ->
  has_key_and_value table = true ->
  (find_column "ettc" table = None ->
   In (Py.ljust k kw ++ "  " ++ Py.ljust v vw ++ "  ")%string (view_configs root))
  /\ (forall i e, find_column "ettc" table = Some (i, e) -> text e = None ->
      In (Py.ljust k kw ++ "  " ++ Py.ljust v vw ++ "  None")%string
         (view_configs root)).
Proof.
  intros kw vw k v Hin Hkv.
  assert (Hrow : In (row_line kw vw (row_of table)) (view_configs root)).
  { unfold view_configs. fold kw vw. right. right. right. apply in_map.
    rewrite collect_eq. cbn [rows]. unfold included_rows. apply in_map.
    apply filter_In. split; [|exact Hkv].
    change table with (snd (pos, table)). now apply in_map. }
  unfold row_of, row_line in Hrow. fold k v in Hrow. split.
  - intros He. now rewrite He in Hrow.
  - intros i e He Ht. now rewrite He, Ht in Hrow.
Qed.

Lemma view_description_column_witness :
  In "symbol         USDJPY  "
     (view_configs config_doc)
  /\ In "k  v  None"
        (view_configs (Element "database" [] None
                         [table_ [column "key" (Some "k"); column "value" (Some "v");
                                  column "ettc" None]] None)).
Proof.
  split.
  - apply (view_description_column config_doc [1]
             (table_ [column "key" (Some "symbol"); column "value" (Some "USDJPY")]));
      [vm_compute; tauto | reflexivity | reflexivity].
  - apply (view_description_column
             (Element "database" [] None
                [table_ [column "key" (Some "k"); column "value" (Some "v");
                         column "ettc" None]] None)
             [0]
             (table_ [column "key" (Some "k"); column "value" (Some "v");
                      column "ettc" None]))
      with (i := 2) (e := column "ettc" None);
      [vm_compute; tauto | reflexivity | reflexivity | reflexivity].
Defined.

(** *** The viewer against the table of the specification *)

Lemma attr_get_find key a :
  attr_get key a
  = option_map snd (find (fun kv => String.eqb (fst kv) key) a).
Proof.
  induction a as [|[k v] a IH]; [reflexivity|]. cbn [attr_get find fst].
  now destruct (String.eqb k key).
Qed.

Lemma is_column_named name c : is_column name c = Shown.is_named_column name c.
Proof.
  unfold is_column, Shown.is_named_column. rewrite attr_get_find.
  now destruct (find _ (attrib c)) as [[k v]|].
Qed.

Lemma find_from_find name l : forall i,
  option_map snd (find_from name i l) = find (Shown.is_named_column name) l.
Proof.
  induction l as [|c l IH]; intros i; [reflexivity|]. cbn [find_from find].
  rewrite <- is_column_named. destruct (is_column name c); [reflexivity | apply IH].
Qed.

Lemma find_column_named name t :
  option_map snd (find_column name t) = Shown.column_named name t.
Proof. apply find_from_find. Qed.

Lemma iter_children_tables k cs :
  (forall c, In c cs ->
     map snd (filter (fun pe => String.eqb (tag (snd pe)) "table") (iter_below c))
     = Shown.entries_in_order c) ->
  map snd (filter (fun pe => String.eqb (tag (snd pe)) "table")
                  (iter_children k cs))
  = flat_map (fun c => (if String.eqb (tag c) "table" then [c] else [])
                       ++ Shown.entries_in_order c) cs.
Proof.
  revert k. induction cs as [|c cs IH]; intros k H; [reflexivity|].
  cbn [iter_children flat_map]. rewrite filter_app, map_app.
  rewrite IH by (intros d Hd; apply H; now right).
  f_equal. rewrite <- (H c (or_introl eq_refl)).
  assert (Hm : map snd (filter (fun pe => String.eqb (tag (snd pe)) "table")
                 (map (fun pe : position * element => (k :: fst pe, snd pe))
                      (iter_below c)))
               = map snd (filter (fun pe => String.eqb (tag (snd pe)) "table")
                                 (iter_below c))).
  { induction (iter_below c) as [|[p d] l IHl]; [reflexivity|].
    cbn [map filter snd]. destruct (String.eqb (tag d) "table"); cbn [map snd];
      now rewrite IHl. }
  cbn [filter snd]. destruct (String.eqb (tag c) "table"); cbn [map snd app];
    now rewrite Hm.
Qed.

Lemma findall_table_in_order root :
  map snd (findall_table root) = Shown.entries_in_order root.
Proof.
  unfold findall_table.
  induction root as [tg at_ tx cs tl IHcs] using element_ind'.
  rewrite iter_below_eq. cbn [Shown.entries_in_order].
  apply iter_children_tables. now rewrite Forall_forall in IHcs.
Qed.

Lemma has_key_and_value_shown t :
  has_key_and_value t = Shown.has_both t.
Proof.
  unfold has_key_and_value, Shown.has_both.
  rewrite <- !find_column_named.
  destruct (find_column "key" t) as [[i k]|]; [|reflexivity].
  now destruct (find_column "value" t) as [[j v]|].
Qed.

Lemma repeat_char_repeat c n :
  Py.repeat_char c n = string_of_list_ascii (List.repeat c n).
Proof. induction n as [|n IH]; [reflexivity|]. cbn. now rewrite IH. Qed.

Lemma ljust_pad s w : Py.ljust s w = Shown.pad s w.
Proof. unfold Py.ljust, Shown.pad. now rewrite repeat_char_repeat. Qed.

Lemma row_line_shown kw vw t :
  row_line kw vw (row_of t)
  = Shown.line kw vw (Shown.key_text t) (Shown.value_text t) (Shown.description_text t).
Proof.
  unfold row_line, row_of, Shown.line, Shown.key_text, Shown.value_text,
    Shown.description_text, column_text.
  rewrite <- !find_column_named, !ljust_pad.
  destruct (find_column "key" t) as [[i [? ? [k|] ? ?]]|];
    destruct (find_column "value" t) as [[j [? ? [v|] ? ?]]|];
    destruct (find_column "ettc" t) as [[l [? ? [d|] ? ?]]|]; reflexivity.
Qed.

Lemma key_of_shown t : key_of (row_of t) = Shown.key_text t.
Proof.
  unfold key_of, row_of, Shown.key_text, column_text. cbn [fst].
  rewrite <- find_column_named.
  now destruct (find_column "key" t) as [[i [? ? [k|] ? ?]]|].
Qed.

Lemma value_of_shown t : value_of (row_of t) = Shown.value_text t.
Proof.
  unfold value_of, row_of, Shown.value_text, column_text. cbn [fst snd].
  rewrite <- find_column_named.
  now destruct (find_column "value" t) as [[i [? ? [v|] ? ?]]|].
Qed.

Lemma included_rows_shown root :
  included_rows root = map row_of (Shown.included root).
Proof.
  unfold included_rows, Shown.included. rewrite findall_table_in_order.
  f_equal. apply filter_ext. intros t. apply has_key_and_value_shown.
Qed.

(** C8.  The viewer prints the table of the specification: the blank
    line, the header, the divider and one line for each table element
    below the root that has both a key column and a value column, these
    and no others, in document order.  The two widths are the greatest
    lengths of the keys and of the values shown, and the divider is made
    of as many [-] as the two widths plus 15.  On the sample document the
    lines are the ones written out, the tables without a key or without a
    value left out and the table within a table shown after it. *)
Theorem view_configs_table (root : element) :
  view_configs root = Shown.table root
  /\ max_key_len (collect root) = Shown.key_width root
  /\ max_val_len (collect root) = Shown.value_width root
  /\ map key_of (rows (collect root)) = map Shown.key_text (Shown.included root)
  /\ map value_of (rows (collect root)) = map Shown.value_text (Shown.included root)
  /\ String.length (Shown.dashes
                      (Shown.key_width root + Shown.value_width root + 15))
     = Shown.key_width root + Shown.value_width root + 15
  /\ view_configs view_sample_doc
     = [" ";
        "KEY            VALUE   DESCRIPTION";
        "----------------------------------";
        "poll_interval  30      seconds";
        "               x       None";
        "in             nested  ";
        "symbol                 "].
Proof.
  assert (Hk : max_key_len (collect root) = Shown.key_width root).
  { rewrite collect_eq. cbn [max_key_len]. unfold Shown.key_width.
    rewrite included_rows_shown, map_map. f_equal. apply map_ext.
    intros t. now rewrite key_of_shown. }
  assert (Hv : max_val_len (collect root) = Shown.value_width root).
  { rewrite collect_eq. cbn [max_val_len]. unfold Shown.value_width.
    rewrite included_rows_shown, map_map. f_equal. apply map_ext.
    intros t. now rewrite value_of_shown. }
  assert (Hr : rows (collect root) = map row_of (Shown.included root)).
  { rewrite collect_eq. cbn [rows]. apply included_rows_shown. }
  split; [|split; [exact Hk|split; [exact Hv|split; [|split; [|split]]]]].
  - unfold view_configs, Shown.table. rewrite Hk, Hv, Hr, map_map.
    cbn [app]. f_equal. f_equal; [|f_equal].
    + unfold header_line, Shown.line. now rewrite !ljust_pad.
    + unfold divider_line, Shown.dashes. apply repeat_char_repeat.
    + apply map_ext. intros t. apply row_line_shown.
  - rewrite Hr, map_map. apply map_ext. intros t. apply key_of_shown.
  - rewrite Hr, map_map. apply map_ext. intros t. apply value_of_shown.
  - unfold Shown.dashes. generalize (Shown.key_width root + Shown.value_width root + 15).
    intros n. induction n as [|n IH]; [reflexivity|]. cbn. now rewrite IH.
  - reflexivity.
Qed.

(** *** What an assignment leaves alone *)

Lemma nth_error_update_nth {A : Type} (f : A -> A) (l : list A) : forall i j,
  nth_error (update_nth j f l) i
  = if Nat.eqb i j then option_map f (nth_error l i) else nth_error l i.
Proof.
  induction l as [|a l IH]; intros i j.
  - destruct i as [|i], j as [|j]; simpl; try reflexivity. now destruct (Nat.eqb i j).
  - destruct j as [|j], i as [|i]; cbn [update_nth nth_error Nat.eqb]; try reflexivity.
    apply IH.
Qed.

Lemma length_update_nth {A : Type} (f : A -> A) (l : list A) : forall j,
  List.length (update_nth j f l) = List.length l.
Proof.
  induction l as [|a l IH]; intros [|j]; simpl; try reflexivity. now rewrite IH.
Qed.

(** The element found at [p] after [set_text q x]. *)
Lemma get_set_text p : forall q x e,
  get (set_text q x e) p
  = option_map (fun e0 => match strip_prefix p q with
                          | Some q' => set_text q' x e0
                          | None => e0
                          end) (get e p).
Proof.
  induction p as [|i p IH]; intros q x e; [reflexivity|].
  destruct e as [tg at_ tx cs tl]. destruct q as [|j q].
  - cbn [set_text get children strip_prefix].
    now destruct (nth_error cs i) as [c|]; [destruct (get c p)|].
  - cbn [set_text get children strip_prefix]. rewrite nth_error_update_nth.
    destruct (Nat.eqb i j).
    + destruct (nth_error cs i) as [c|]; [|reflexivity]. apply IH.
    + destruct (nth_error cs i) as [c|]; [|reflexivity]. now destruct (get c p).
Qed.

Lemma strip_prefix_nil p : forall q,
  strip_prefix p q = Some [] <-> p = q.
Proof.
  induction p as [|i p IH]; intros [|j q]; simpl;
    try (split; [discriminate | congruence]); [split; congruence|].
  destruct (Nat.eqb_spec i j) as [->|Hne].
  - rewrite IH. split; congruence.
  - split; [discriminate | congruence].
Qed.

Lemma text_set_text q x e :
  text (set_text q x e) = match q with [] => x | _ :: _ => text e end.
Proof. destruct e; destruct q; reflexivity. Qed.

Lemma length_children_set_text q x e :
  List.length (children (set_text q x e)) = List.length (children e).
Proof. destruct e; destruct q; [reflexivity|]. apply length_update_nth. Qed.

(** The value column that a successful call assigns to. *)
Lemma update_config_target root key value root' msg :
  update_config root key value = Return (root', msg, true) ->
  exists pos table i col,
    first_match root key = Some (pos, table)
    /\ find_column "value" table = Some (i, col)
    /\ get root (pos ++ [i]) = Some col
    /\ is_column "value" col = true
    /\ root' = set_text (pos ++ [i]) (Some value) root
    /\ msg = MsgUpdated key (text col) value.
Proof.
  intros H. apply update_config_true in H.
  destruct H as [pos [table [i [col [Hfm [Hv [-> ->]]]]]]].
  exists pos, table, i, col. repeat split; try assumption.
  - assert (Hin : In (pos, table) (findall_table root)).
    { unfold first_match in Hfm. now apply find_some in Hfm. }
    apply findall_table_get in Hin. destruct Hin as [Hg _].
    unfold find_column in Hv. apply find_from_nth in Hv.
    destruct Hv as [_ [Hn _]]. rewrite Nat.sub_0_r in Hn.
    clear Hfm. revert root Hg. induction pos as [|k pos IH]; intros root Hg.
    + injection Hg as ->. simpl. now rewrite Hn.
    + simpl in Hg |- *. destruct (nth_error (children root) k); [|discriminate].
      now apply IH.
  - unfold find_column in Hv. now apply find_from_nth in Hv.
Qed.

(** X14.  A call that returns [True] changes one text and nothing
    else.  It assigns to the value column of the first table whose key
    column holds the key, also when later tables hold the same key; the two
    trees have elements at the same positions, with the same tag,
    attributes, tail and number of children, and with the same text except
    at that column, where the text is the new value; the line printed
    reports the text that column had. *)
Theorem update_config_changes_one_text
    (root : element) (key value : string) (root' : element) (msg : message) :
  update_config root key value = Return (root', msg, true) ->
  exists pos table i col,
    first_match root key = Some (pos, table)
    /\ find_column "value" table = Some (i, col)
    /\ get root (pos ++ [i]) = Some col
    /\ msg = MsgUpdated key (text col) value
    /\ forall p,
         match get root p, get root' p with
         | Some e, Some e' =>
             tag e' = tag e /\ attrib e' = attrib e /\ tail e' = tail e
             /\ List.length (children e') = List.length (children e)
             /\ text e' = (if position_eqb p (pos ++ [i]) then Some value
                           else text e)
         | None, None => True
         | _, _ => False
         end.
Proof.
  intros H. apply update_config_target in H.
  destruct H as [pos [table [i [col [Hfm [Hv [Hg [_ [-> ->]]]]]]]]].
  exists pos, table, i, col. repeat split; try assumption.
  intros p. rewrite get_set_text.
  destruct (get root p) as [e|]; [|exact I]. cbn [option_map].
  destruct (position_eqb p (pos ++ [i])) eqn:Hp.
  - apply position_eqb_eq in Hp. subst p.
    rewrite (proj2 (strip_prefix_nil _ _) eq_refl).
    now destruct e.
  - destruct (strip_prefix p (pos ++ [i])) as [q'|] eqn:Hs; [|tauto].
    rewrite tag_set_text, attrib_set_text, tail_set_text,
      length_children_set_text, text_set_text.
    destruct q' as [|a q']; [|tauto].
    apply strip_prefix_nil in Hs. subst p.
    rewrite (proj2 (position_eqb_eq _ _) eq_refl) in Hp. discriminate Hp.
Qed.

Lemma update_config_changes_one_text_witness :
  exists pos table i col,
    first_match config_doc "symbol" = Some (pos, table)
    /\ find_column "value" table = Some (i, col)
    /\ get config_doc (pos ++ [i]) = Some col
    /\ MsgUpdated "symbol" (Some "USDJPY") "EURUSD"
       = MsgUpdated "symbol" (text col) "EURUSD"
    /\ forall p,
         match get config_doc p,
               get (set_text [1; 1] (Some "EURUSD") config_doc) p with
         | Some e, Some e' =>
             tag e' = tag e /\ attrib e' = attrib e /\ tail e' = tail e
             /\ List.length (children e') = List.length (children e)
             /\ text e' = (if position_eqb p (pos ++ [i]) then Some "EURUSD"
                           else text e)
         | None, None => True
         | _, _ => False
         end.
Proof.
  apply (update_config_changes_one_text config_doc "symbol" "EURUSD").
  reflexivity.
Defined.

(** *** Two calls in a row *)

Lemma update_nth_compose {A : Type} (f g : A -> A) (l : list A) : forall i,
  update_nth i g (update_nth i f l) = update_nth i (fun a => g (f a)) l.
Proof.
  induction l as [|a l IH]; intros [|i]; simpl; try reflexivity. now rewrite IH.
Qed.

Lemma update_nth_ext {A : Type} (f g : A -> A) (l : list A) : forall i,
  (forall a, f a = g a) -> update_nth i f l = update_nth i g l.
Proof.
  intros i H. revert i. induction l as [|a l IH]; intros [|i]; simpl;
    try reflexivity; [now rewrite H | now rewrite IH].
Qed.

Lemma set_text_twice q : forall x y e,
  set_text q y (set_text q x e) = set_text q y e.
Proof.
  induction q as [|i q IH]; intros x y [tg at_ tx cs tl]; [reflexivity|].
  cbn [set_text]. rewrite update_nth_compose. f_equal.
  apply update_nth_ext. intros a. apply IH.
Qed.

(** Assigning to the value column of a table changes no key. *)
Lemma matches_touch root key pos table i col x pe :
  In (pos, table) (findall_table root) ->
  find_column "value" table = Some (i, col) ->
  In pe (findall_table root) ->
  matches key (touch (pos ++ [i]) (Some x) pe) = matches key pe.
Proof.
  intros Hin Hv Hpe. destruct pe as [p t]. rewrite !matches_has_key.
  rewrite (entry_of_touch pos i col table x p t Hv).
  - cbn [snd]. now destruct (position_eqb p pos).
  - intros ->. apply findall_table_get in Hin, Hpe.
    destruct Hin as [Hg1 _]. destruct Hpe as [Hg2 _]. congruence.
Qed.

Lemma find_column_value_set table i col x :
  find_column "value" table = Some (i, col) ->
  find_column "value" (set_text [i] x table) = Some (i, set_text [] x col).
Proof.
  unfold find_column. intros Hv. rewrite children_set_text.
  rewrite find_from_update by (intros c; apply is_column_set_text).
  rewrite Hv. cbn [Nat.add]. now rewrite Nat.eqb_refl.
Qed.

(** A second call for the same key finds the same column. *)
Lemma update_config_again root key v1 root1 msg1 :
  update_config root key v1 = Return (root1, msg1, true) ->
  exists q col,
    get root q = Some col
    /\ msg1 = MsgUpdated key (text col) v1
    /\ (forall v, update_config root key v
                  = Return (set_text q (Some v) root, MsgUpdated key (text col) v, true))
    /\ (forall v, update_config root1 key v
                  = Return (set_text q (Some v) root, MsgUpdated key (Some v1) v, true)).
Proof.
  intros H. apply update_config_target in H.
  destruct H as [pos [table [i [col [Hfm [Hv [Hg [_ [-> ->]]]]]]]]].
  assert (Hin : In (pos, table) (findall_table root)).
  { unfold first_match in Hfm. now apply find_some in Hfm. }
  exists (pos ++ [i]), col. split; [exact Hg|]. split; [reflexivity|]. split.
  - intros v. unfold update_config. rewrite update_loop_find.
    unfold first_match in Hfm. now rewrite Hfm, Hv.
  - intros v. unfold update_config. rewrite update_loop_find, findall_table_set_text.
    rewrite (find_map_same (matches key) (matches key)
               (touch (pos ++ [i]) (Some v1)) (findall_table root)).
    + unfold first_match in Hfm. rewrite Hfm. cbn [option_map].
      unfold touch. cbn [fst snd]. rewrite strip_prefix_self.
      rewrite (find_column_value_set table i col (Some v1) Hv).
      rewrite set_text_twice. now destruct col.
    + intros pe Hpe. now apply matches_touch with (root := root) (table := table) (col := col).
Qed.



(** X15.  Two calls for the same key in a row: the second call assigns
    to the same column, so the tree is the one that a single call with the
    second value gives, and the second call reports the first value as the
    old one. *)
Theorem update_config_twice
    (root : element) (key v1 v2 : string) (root1 : element) (msg1 : message) :
  update_config root key v1 = Return (root1, msg1, true) ->
  exists root2 old,
    update_config root key v2 = Return (root2, MsgUpdated key old v2, true)
    /\ update_config root1 key v2
       = Return (root2, MsgUpdated key (Some v1) v2, true).
Proof.
  intros H. destruct (update_config_again _ _ _ _ _ H) as [q [col [_ [_ [Ha Hb]]]]].
  exists (set_text q (Some v2) root), (text col). split; [apply Ha | apply Hb].
Qed.

Lemma update_config_twice_witness :
  exists root2 old,
    update_config config_doc "symbol" "GBPUSD"
    = Return (root2, MsgUpdated "symbol" old "GBPUSD", true)
    /\ update_config (set_text [1; 1] (Some "EURUSD") config_doc) "symbol" "GBPUSD"
       = Return (root2, MsgUpdated "symbol" (Some "EURUSD") "GBPUSD", true).
Proof.
  apply (update_config_twice config_doc "symbol" "EURUSD" "GBPUSD" _
           (MsgUpdated "symbol" (Some "USDJPY") "EURUSD")).
  reflexivity.
Defined.



(** X17.  [update_config] returns [False] exactly when in no table the
    first column named [key], the one [table.find] returns, has the key as
    its text; the document is then the one it was given and the key is
    reported as not found.  A key held by a second key column of a table
    is not found: with key columns [a] and [b] in one table, the call for
    [b] returns [False]. *)
Theorem update_config_false_iff
    (root : element) (key value : string) (root' : element) (msg : message) :
  (update_config root key value = Return (root', msg, false)
   <-> (forall pos table, In (pos, table) (findall_table root) ->
          key_matches (find_column "key" table) key = false)
       /\ root' = root /\ msg = MsgKeyNotFound key)
  /\ update_config two_key_columns_doc "b" "2"
     = Return (two_key_columns_doc, MsgKeyNotFound "b", false).
Proof.
  split; [|reflexivity].
  unfold update_config. rewrite update_loop_find.
  destruct (find (matches key) (findall_table root)) as [[pos table]|] eqn:Hf.
  - apply find_some in Hf. destruct Hf as [Hin Hm]. split.
    + destruct (find_column "value" table) as [[i col]|]; discriminate.
    + intros [H _]. unfold matches in Hm. cbn [snd] in Hm.
      rewrite (H pos table Hin) in Hm. discriminate Hm.
  - split.
    + intros [= <- <-]. split; [|tauto]. intros pos table Hin.
      exact (find_none _ _ Hf (pos, table) Hin).
    + intros [_ [-> ->]]. reflexivity.
Qed.

(** *** A call followed by the viewer *)

Lemma has_key_and_value_entry table :
  has_key_and_value table = complete (entry_of table).
Proof.
  unfold has_key_and_value, complete, entry_of, column_content.
  destruct (find_column "key" table) as [[i k]|]; [|reflexivity].
  now destruct (find_column "value" table) as [[j v]|].
Qed.

Lemma row_of_entry_of table : row_of table = row_of_entry (entry_of table).
Proof.
  unfold row_of, row_of_entry, entry_of, column_content, column_text.
  destruct (find_column "key" table) as [[i k]|];
    destruct (find_column "value" table) as [[j v]|];
    destruct (find_column "ettc" table) as [[l e]|]; reflexivity.
Qed.

Lemma included_rows_entries root :
  included_rows root = map row_of_entry (filter complete (entries root)).
Proof.
  unfold included_rows, entries.
  induction (findall_table root) as [|[p t] l IH]; [reflexivity|].
  cbn [map filter snd]. rewrite has_key_and_value_entry.
  destruct (complete (entry_of t)); cbn [map]; [rewrite row_of_entry_of|];
    now rewrite IH.
Qed.

Lemma update_then_view_rows key value pos table : forall l,
  key <> "" ->
  (forall pe, In pe l -> fst pe = pos -> snd pe = table) ->
  find (matches key) l = Some (pos, table) ->
  exists d,
    find (fun r => String.eqb (key_of r) key)
      (map row_of_entry
         (filter complete
            (map (fun pe => if position_eqb (fst pe) pos
                            then set_value value (entry_of (snd pe))
                            else entry_of (snd pe)) l)))
    = Some (key, value, d).
Proof.
  intros l Hkey. induction l as [|[p t] l IH]; intros Hsame Hfind; [discriminate|].
  cbn [find] in Hfind. cbn [map fst snd].
  destruct (matches key (p, t)) eqn:Hm.
  - injection Hfind as -> ->.
    rewrite (proj2 (position_eqb_eq pos pos) eq_refl).
    rewrite matches_has_key in Hm. unfold has_key in Hm. cbn [snd] in Hm.
    destruct (entry_of table) as [[k v] d] eqn:He. cbn [fst] in Hm.
    destruct k as [[s|]|]; try discriminate Hm. apply String.eqb_eq in Hm. subst s.
    unfold set_value. cbn [fst snd filter complete map row_of_entry or_empty find key_of].
    rewrite String.eqb_refl. now eexists.
  - assert (Hp : position_eqb p pos = false).
    { destruct (position_eqb p pos) eqn:Hp; [|reflexivity].
      apply position_eqb_eq in Hp. subst p.
      assert (Ht : t = table) by exact (Hsame (pos, t) (or_introl eq_refl) eq_refl).
      subst t. apply find_some in Hfind. destruct Hfind as [_ Hf]. congruence. }
    rewrite Hp.
    assert (Hskip : complete (entry_of t) = true ->
                    String.eqb (key_of (row_of_entry (entry_of t))) key = false).
    { rewrite matches_has_key in Hm. unfold has_key in Hm. cbn [snd] in Hm.
      destruct (entry_of t) as [[k v] d]. cbn [fst] in Hm.
      destruct k as [[s|]|]; [| |discriminate]; intros _;
        cbn [row_of_entry key_of fst or_empty].
      - exact Hm.
      - apply String.eqb_neq. congruence. }
    destruct (IH (fun pe H => Hsame pe (or_intror H)) Hfind) as [d Hd].
    exists d. cbn [filter]. destruct (complete (entry_of t)); [|exact Hd].
    cbn [map find]. now rewrite (Hskip eq_refl).
Qed.

Lemma length_filter_complete {A : Type} (g h : A -> entry) (l : list A) :
  (forall a, In a l -> complete (g a) = complete (h a)) ->
  List.length (filter complete (map g l)) = List.length (filter complete (map h l)).
Proof.
  induction l as [|a l IH]; intros H; [reflexivity|]. cbn [map filter].
  rewrite (H a (or_introl eq_refl)).
  destruct (complete (h a)); cbn [List.length]; rewrite IH; auto;
    intros b Hb; apply H; now right.
Qed.

(** X18.  The mutator followed by the viewer.  After a call that
    returned [True] for a key that is not empty, the first row of the viewer
    with that key shows the new value, and the viewer has as many rows as
    before.  (A key column without text is shown as the empty key, which
    [update_config] never matches.) *)
Theorem update_config_then_view
    (root : element) (key value : string) (root' : element) (msg : message) :
  key <> "" ->
  update_config root key value = Return (root', msg, true) ->
  (exists d,
     find (fun r => String.eqb (key_of r) key) (rows (collect root'))
     = Some (key, value, d))
  /\ List.length (rows (collect root')) = List.length (rows (collect root)).
Proof.
  intros Hkey Hu.
  destruct (update_config_target _ _ _ _ _ Hu)
    as [pos [table [i [col [Hfm [Hv _]]]]]].
  destruct (entries_after_update _ _ _ _ _ Hu) as [pos2 [table2 [Hfm2 [He _]]]].
  rewrite Hfm in Hfm2. injection Hfm2 as <- <-.
  assert (Hin : In (pos, table) (findall_table root)).
  { unfold first_match in Hfm. now apply find_some in Hfm. }
  assert (Hsame : forall pe, In pe (findall_table root) -> fst pe = pos ->
                             snd pe = table).
  { intros [p t] Hpe Hp. cbn [fst snd] in *. subst p.
    apply findall_table_get in Hin, Hpe.
    destruct Hin as [Hg1 _]. destruct Hpe as [Hg2 _]. congruence. }
  rewrite !collect_eq. cbn [rows]. rewrite !included_rows_entries, He.
  unfold entries_with_value. split.
  - now apply update_then_view_rows with (table := table).
  - rewrite !length_map. unfold entries.
    apply length_filter_complete. intros [p t] Hpe. cbn [fst snd].
    destruct (position_eqb p pos) eqn:Hp; [|reflexivity].
    apply position_eqb_eq in Hp. subst p.
    assert (Ht : t = table) by exact (Hsame (pos, t) Hpe eq_refl). subst t.
    unfold first_match in Hfm. apply find_some in Hfm. destruct Hfm as [_ Hm].
    rewrite matches_has_key in Hm. unfold has_key in Hm. cbn [snd] in Hm.
    unfold entry_of, column_content in Hm |- *. rewrite Hv.
    cbn [fst option_map] in Hm |- *.
    now destruct (find_column "key" table) as [[j k]|].
Qed.

Lemma update_config_then_view_witness :
  (exists d,
     find (fun r => String.eqb (key_of r) "symbol")
          (rows (collect (set_text [1; 1] (Some "EURUSD") config_doc)))
     = Some ("symbol", "EURUSD", d))
  /\ List.length (rows (collect (set_text [1; 1] (Some "EURUSD") config_doc)))
     = List.length (rows (collect config_doc)).
Proof.
  apply (update_config_then_view config_doc "symbol" "EURUSD" _
           (MsgUpdated "symbol" (Some "USDJPY") "EURUSD")).
  - discriminate.
  - reflexivity.
Defined.

(** *** Calls for two keys *)

Lemma update_nth_comm {A : Type} (f g : A -> A) (l : list A) : forall i j,
  i <> j ->
  update_nth i f (update_nth j g l) = update_nth j g (update_nth i f l).
Proof.
  induction l as [|a l IH]; intros [|i] [|j] H; simpl; try reflexivity.
  - contradiction.
  - rewrite IH; [reflexivity | congruence].
Qed.

Lemma set_text_comm q1 : forall q2 x y e,
  q1 <> q2 ->
  set_text q1 x (set_text q2 y e) = set_text q2 y (set_text q1 x e).
Proof.
  induction q1 as [|i q1 IH]; intros [|j q2] x y [tg at_ tx cs tl] H;
    try reflexivity; [contradiction|].
  cbn [set_text]. f_equal. destruct (Nat.eq_dec i j) as [->|Hij].
  - rewrite !update_nth_compose. apply update_nth_ext. intros a.
    apply IH. congruence.
  - now apply update_nth_comm.
Qed.

Lemma matches_key_unique k1 k2 pe :
  matches k1 pe = true -> matches k2 pe = true -> k1 = k2.
Proof.
  unfold matches, key_matches.
  destruct (find_column "key" (snd pe)) as [[i k]|]; [|discriminate].
  destruct (text k) as [s|]; [|discriminate].
  intros H1 H2. apply String.eqb_eq in H1, H2. congruence.
Qed.

(** The value column of a table after an assignment to the value column of
    another table. *)
Lemma find_column_value_touch root pos1 i1 col1 pos2 table2 i2 col2 x :
  get root (pos1 ++ [i1]) = Some col1 -> is_column "value" col1 = true ->
  In (pos2, table2) (findall_table root) -> pos1 <> pos2 ->
  find_column "value" table2 = Some (i2, col2) ->
  exists col',
    find_column "value" (snd (touch (pos1 ++ [i1]) x (pos2, table2)))
    = Some (i2, col')
    /\ text col' = text col2.
Proof.
  intros Hg Hc Hin Hne Hv. unfold touch. cbn [fst snd].
  destruct (strip_prefix pos2 (pos1 ++ [i1])) as [r|] eqn:Hr;
    [|now exists col2].
  destruct (strip_prefix_app _ _ _ _ Hr) as [[_ ->]|[[_ ->]|[a [b [r' ->]]]]].
  - apply findall_table_get in Hin. destruct Hin as [Hg2 Htag].
    rewrite Hg in Hg2. injection Hg2 as ->. unfold is_column in Hc.
    rewrite Htag in Hc. discriminate Hc.
  - contradiction.
  - unfold find_column in *. rewrite children_set_text.
    rewrite find_from_update by (intros c; apply is_column_set_text).
    rewrite Hv. eexists. split; [reflexivity|].
    destruct (Nat.eqb i2 (0 + a)); [|reflexivity]. now rewrite text_set_text.
Qed.

(** X19.  Calls for two different keys commute: made in either order
    they give the same tree, and each prints the line it prints when made
    alone. *)
Theorem update_config_commute
    (root : element) (k1 v1 k2 v2 : string)
    (r1 r2 : element) (m1 m2 : message) :
  k1 <> k2 ->
  update_config root k1 v1 = Return (r1, m1, true) ->
  update_config root k2 v2 = Return (r2, m2, true) ->
  exists r12,
    update_config r1 k2 v2 = Return (r12, m2, true)
    /\ update_config r2 k1 v1 = Return (r12, m1, true).
Proof.
  intros Hk H1 H2.
  apply update_config_target in H1, H2.
  destruct H1 as [pos1 [t1 [i1 [c1 [Hf1 [Hv1 [Hg1 [Hc1 [-> ->]]]]]]]]].
  destruct H2 as [pos2 [t2 [i2 [c2 [Hf2 [Hv2 [Hg2 [Hc2 [-> ->]]]]]]]]].
  assert (Hin1 : In (pos1, t1) (findall_table root)).
  { unfold first_match in Hf1. now apply find_some in Hf1. }
  assert (Hin2 : In (pos2, t2) (findall_table root)).
  { unfold first_match in Hf2. now apply find_some in Hf2. }
  assert (Hpos : pos1 <> pos2).
  { intros ->. apply Hk.
    assert (t1 = t2).
    { apply findall_table_get in Hin1, Hin2.
      destruct Hin1 as [Ha _]. destruct Hin2 as [Hb _]. congruence. }
    subst t2. unfold first_match in Hf1, Hf2.
    apply find_some in Hf1, Hf2.
    now apply matches_key_unique with (pe := (pos2, t1)). }
  assert (Hq : pos1 ++ [i1] <> pos2 ++ [i2]).
  { intros H. apply app_inj_tail in H. now destruct H. }
  exists (set_text (pos2 ++ [i2]) (Some v2) (set_text (pos1 ++ [i1]) (Some v1) root)).
  split.
  - unfold update_config. rewrite update_loop_find, findall_table_set_text.
    rewrite (find_map_same (matches k2) (matches k2)
               (touch (pos1 ++ [i1]) (Some v1)) (findall_table root)).
    + unfold first_match in Hf2. rewrite Hf2. cbn [option_map].
      destruct (find_column_value_touch root pos1 i1 c1 pos2 t2 i2 c2 (Some v1)
                  Hg1 Hc1 Hin2 Hpos Hv2) as [col' [Hfc Htx]].
      unfold touch at 1. cbn [fst]. unfold touch in Hfc. cbn [fst snd] in Hfc.
      cbn [snd]. rewrite Hfc, Htx. reflexivity.
    + intros pe Hpe.
      now apply matches_touch with (root := root) (table := t1) (col := c1).
  - unfold update_config. rewrite update_loop_find, findall_table_set_text.
    rewrite (find_map_same (matches k1) (matches k1)
               (touch (pos2 ++ [i2]) (Some v2)) (findall_table root)).
    + unfold first_match in Hf1. rewrite Hf1. cbn [option_map].
      destruct (find_column_value_touch root pos2 i2 c2 pos1 t1 i1 c1 (Some v2)
                  Hg2 Hc2 Hin1 (not_eq_sym Hpos) Hv1) as [col' [Hfc Htx]].
      unfold touch at 1. cbn [fst]. unfold touch in Hfc. cbn [fst snd] in Hfc.
      cbn [snd]. rewrite Hfc, Htx.
      now rewrite (set_text_comm (pos1 ++ [i1]) (pos2 ++ [i2])).
    + intros pe Hpe.
      now apply matches_touch with (root := root) (table := t2) (col := c2).
Qed.

Lemma update_config_commute_witness :
  exists r12,
    update_config (set_text [0; 1] (Some "45") config_doc) "symbol" "EURUSD"
    = Return (r12, MsgUpdated "symbol" (Some "USDJPY") "EURUSD", true)
    /\ update_config (set_text [1; 1] (Some "EURUSD") config_doc) "poll_interval" "45"
       = Return (r12, MsgUpdated "poll_interval" (Some "30") "45", true).
Proof.
  apply (update_config_commute config_doc "poll_interval" "45" "symbol" "EURUSD").
  - discriminate.
  - reflexivity.
  - reflexivity.
Defined.

(** *** The empty value *)

Lemma flat_map_update_nth {A B : Type} (F : A -> list B) (f g : A -> A)
    (l : list A) : forall i,
  (forall a, F (f a) = F (g a)) ->
  flat_map F (update_nth i f l) = flat_map F (update_nth i g l).
Proof.
  intros i H. revert i. induction l as [|a l IH]; intros [|i]; simpl;
    try reflexivity; [now rewrite H | now rewrite IH].
Qed.

(** An empty text is written as no text. *)
Lemma serialize_set_text_empty q : forall e,
  serialize_xml (set_text q (Some EmptyString) e)
  = serialize_xml (set_text q None e).
Proof.
  induction q as [|i q IH]; intros [tg at_ tx cs tl]; [reflexivity|].
  cbn [set_text serialize_xml]. rewrite !length_update_nth.
  now rewrite (flat_map_update_nth serialize_xml _ (set_text q None) cs i IH).
Qed.

Lemma storable_set_text_any q : forall e x,
  storable e = true -> text_ok x = true -> storable (set_text q x e) = true.
Proof.
  induction q as [|i q IH]; intros [tg at_ tx cs tl] x He Hx;
    destruct (storable_inv _ _ _ _ _ He) as [Hn [Ha [Htx [Htl Hcs]]]];
    pose proof (storable_plain _ _ _ _ _ He) as Hp;
    cbn [set_text storable].
  - now rewrite Hp, Hn, Ha, Hx, Htl, Hcs.
  - rewrite Hp, Hn, Ha, Htx, Htl. cbn [andb].
    apply forallb_update_nth; [|exact Hcs]. intros c Hc. now apply IH.
Qed.

(** The entry of a listed table after any assignment to the value column of
    the table at [pos]. *)
Lemma entry_of_touch_any pos i value table x p t :
  find_column "value" table = Some (i, value) ->
  (p = pos -> t = table) ->
  entry_of (snd (touch (pos ++ [i]) x (p, t)))
  = if position_eqb p pos
    then (fst (fst (entry_of t)), Some x, snd (entry_of t))
    else entry_of t.
Proof.
  intros Hv Hsame. unfold touch. cbn [fst snd].
  destruct (position_eqb p pos) eqn:Hp.
  - apply position_eqb_eq in Hp. subst p. rewrite strip_prefix_self.
    rewrite (Hsame eq_refl). unfold entry_of. cbn [fst snd].
    rewrite (column_content_other "key" table i value) by (discriminate || assumption).
    rewrite (column_content_other "ettc" table i value) by (discriminate || assumption).
    rewrite column_content_set_child, Hv. now rewrite Nat.eqb_refl.
  - destruct (strip_prefix p (pos ++ [i])) as [r|] eqn:Hr; [|reflexivity].
    destruct (strip_prefix_app _ _ _ _ Hr) as [[-> _]|[[_ ->]|[a [b [r' ->]]]]].
    + unfold entry_of. now rewrite !column_content_set_here.
    + rewrite (proj2 (position_eqb_eq pos pos) eq_refl) in Hp. discriminate.
    + unfold entry_of. now rewrite !column_content_set_below.
Qed.

Lemma rows_of_entries_ext {A : Type} (g h : A -> entry) (l : list A) :
  (forall a, In a l ->
     complete (g a) = complete (h a) /\ row_of_entry (g a) = row_of_entry (h a)) ->
  map row_of_entry (filter complete (map g l))
  = map row_of_entry (filter complete (map h l)).
Proof.
  induction l as [|a l IH]; intros H; [reflexivity|]. cbn [map filter].
  destruct (H a (or_introl eq_refl)) as [Hc Hr]. rewrite Hc.
  assert (IH' := IH (fun b Hb => H b (or_intror Hb))).
  destruct (complete (h a)); [|exact IH']. cbn [map]. now rewrite Hr, IH'.
Qed.

(** X20.  The empty value.  After a call that set a value to the empty
    string on a document that the file carries as it is, the file written
    parses back to the tree in which that column has no text at all, not
    the empty text of the tree in memory; the viewer shows the same table
    for both. *)
Theorem update_config_empty_value
    (root : element) (key : string) (root' : element) (msg : message) :
  storable root = true -> tail root = None ->
  update_config root key EmptyString = Return (root', msg, true) ->
  exists q col,
    get root q = Some col
    /\ root' = set_text q (Some EmptyString) root
    /\ ET_parse (written root') = Some (set_text q None root)
    /\ view_configs (set_text q None root) = view_configs root'.
Proof.
  intros Hst Htl Hu. apply update_config_target in Hu.
  destruct Hu as [pos [table [i [col [Hfm [Hv [Hg [_ [-> _]]]]]]]]].
  exists (pos ++ [i]), col. split; [exact Hg|]. split; [reflexivity|]. split.
  - unfold written. rewrite serialize_set_text_empty.
    apply parse_written.
    + now apply storable_set_text_any.
    + now rewrite tail_set_text.
  - assert (Hin : In (pos, table) (findall_table root)).
    { unfold first_match in Hfm. now apply find_some in Hfm. }
    unfold view_configs. rewrite !collect_eq. cbn [rows max_key_len max_val_len].
    assert (Hrows : included_rows (set_text (pos ++ [i]) None root)
                    = included_rows (set_text (pos ++ [i]) (Some EmptyString) root)).
    { rewrite !included_rows_entries. unfold entries.
      rewrite !findall_table_set_text, !map_map.
      apply rows_of_entries_ext. intros [p t] Hpt.
      assert (Hsame : p = pos -> t = table).
      { intros ->. apply findall_table_get in Hin, Hpt.
        destruct Hin as [Hg1 _]. destruct Hpt as [Hg2 _]. congruence. }
      rewrite !(entry_of_touch_any pos i col table _ p t Hv Hsame).
      destruct (position_eqb p pos); [|tauto].
      destruct (entry_of t) as [[k v] d]. cbn [fst snd]. split; reflexivity. }
    now rewrite Hrows.
Qed.

Lemma update_config_empty_value_witness :
  exists q col,
    get config_doc q = Some col
    /\ set_text [1; 1] (Some EmptyString) config_doc
       = set_text q (Some EmptyString) config_doc
    /\ ET_parse (written (set_text [1; 1] (Some EmptyString) config_doc))
       = Some (set_text q None config_doc)
    /\ view_configs (set_text q None config_doc)
       = view_configs (set_text [1; 1] (Some EmptyString) config_doc).
Proof.
  apply (update_config_empty_value config_doc "symbol" _
           (MsgUpdated "symbol" (Some "USDJPY") EmptyString)).
  - reflexivity.
  - reflexivity.
  - reflexivity.
Defined.

(** *** The run of an update *)

(** The shape of [main] once the command line is an update. *)
Lemma main_update argv root typed run :
  List.length argv = 3 -> nth 1 argv EmptyString <> "view" ->
  main argv (Loaded root) typed run
  = match update_config root (nth 1 argv EmptyString) (nth 2 argv EmptyString) with
    | Raise _ => mk_outcome [] 1
    | Return (root', msg, true) =>
        let '(effs, exc) := ask_restart typed run in
        mk_outcome (Print msg :: map FileOp (tree_write XML_PATH root') ++ effs)
                   (match exc with Some _ => 1 | None => 0 end)
    | Return (_, msg, false) => mk_outcome [Print msg] 0
    end.
Proof.
  intros Hlen Hview. unfold main, main_w. rewrite Hlen.
  change (3 <? 2)%nat with false. cbv iota.
  destruct (String.eqb_spec (nth 1 argv EmptyString) "view"); [contradiction|].
  reflexivity.
Qed.

(** Every run that is not an update that returned [True] prints at most
    one line and does nothing else. *)
Lemma main_quiet argv file typed run :
  (forall root root' msg,
     file = Loaded root -> List.length argv = 3 ->
     nth 1 argv EmptyString <> "view" ->
     update_config root (nth 1 argv EmptyString) (nth 2 argv EmptyString)
     <> Return (root', msg, true)) ->
  trace (main argv file typed run) = []
  \/ exists m, trace (main argv file typed run) = [Print m].
Proof.
  intros H. unfold main, main_w.
  destruct (List.length argv <? 2)%nat; [right; now eexists|].
  destruct file as [| |root]; [right; now eexists | now left |].
  destruct (String.eqb_spec (nth 1 argv EmptyString) "view"); [right; now eexists|].
  destruct (Nat.eqb_spec (List.length argv) 3) as [Hl|Hl]; [|right; now eexists].
  cbn [negb]. specialize (H root).
  destruct (update_config root (nth 1 argv EmptyString) (nth 2 argv EmptyString))
    as [[[root' msg] [|]]|]; [|right; now eexists | now left].
  exfalso. now apply (H root' msg).
Qed.

Lemma file_ops_app l1 l2 : file_ops (l1 ++ l2) = file_ops l1 ++ file_ops l2.
Proof. unfold file_ops. apply flat_map_app. Qed.

Lemma file_ops_map_FileOp l : file_ops (map FileOp l) = l.
Proof. induction l as [|o l IH]; [reflexivity|]. simpl. now f_equal. Qed.

Lemma file_ops_ask_restart typed run : file_ops (fst (ask_restart typed run)) = [].
Proof.
  unfold ask_restart. destruct typed; try reflexivity.
  destruct (_ || _); [|reflexivity]. now destruct run.
Qed.

(** The decision that [main] takes. *)
Lemma main_cases argv file typed run :
  (exists root root' msg,
     file = Loaded root /\ List.length argv = 3
     /\ nth 1 argv EmptyString <> "view"
     /\ update_config root (nth 1 argv EmptyString) (nth 2 argv EmptyString)
        = Return (root', msg, true)
     /\ main argv file typed run
        = mk_outcome
            (Print msg :: map FileOp (tree_write XML_PATH root')
             ++ fst (ask_restart typed run))
            (match snd (ask_restart typed run) with Some _ => 1 | None => 0 end))
  \/ trace (main argv file typed run) = []
  \/ exists m, trace (main argv file typed run) = [Print m].
Proof.
  destruct file as [| |root].
  - right. apply main_quiet. intros; discriminate.
  - right. apply main_quiet. intros; discriminate.
  - destruct (Nat.eq_dec (List.length argv) 3) as [Hl|Hl];
      [|right; apply main_quiet; intros; congruence].
    destruct (String.eqb_spec (nth 1 argv EmptyString) "view") as [Hv|Hv];
      [right; apply main_quiet; intros; congruence|].
    destruct (update_config root (nth 1 argv EmptyString) (nth 2 argv EmptyString))
      as [[[root' msg] [|]]|] eqn:Hu;
      [| right; apply main_quiet; intros ? ? ? [= <-] _ _; congruence
       | right; apply main_quiet; intros ? ? ? [= <-] _ _; congruence].
    left. exists root, root', msg. repeat split; try assumption.
    rewrite main_update, Hu by assumption.
    now destruct (ask_restart typed run).
Qed.

(** X21.  [main] writes the file only after an update that returned
    [True]: a run with any file operation is a run with exactly two
    arguments, the first not [view], on a document that loaded, and its file
    operations are those of the one [tree.write] of the updated tree. *)
Theorem main_writes_only_after_update
    (argv : list string) (file : loaded) (typed : answer) (run : restart_run) :
  file_ops (trace (main argv file typed run)) <> [] ->
  exists root root' msg,
    file = Loaded root /\ List.length argv = 3
    /\ nth 1 argv EmptyString <> "view"
    /\ update_config root (nth 1 argv EmptyString) (nth 2 argv EmptyString)
       = Return (root', msg, true)
    /\ file_ops (trace (main argv file typed run)) = tree_write XML_PATH root'.
Proof.
  intros H.
  destruct (main_cases argv file typed run)
    as [[root [root' [msg [Hf [Hl [Hv [Hu Hm]]]]]]]|[Ht|[m Ht]]].
  - exists root, root', msg. repeat split; try assumption.
    rewrite Hm. cbn [trace]. change (Print msg :: ?l) with ([Print msg] ++ l).
    rewrite !file_ops_app, file_ops_map_FileOp, file_ops_ask_restart.
    cbn [file_ops flat_map app]. apply app_nil_r.
  - rewrite Ht in H. now contradiction H.
  - rewrite Ht in H. now contradiction H.
Qed.

Lemma main_writes_only_after_update_witness :
  exists root root' msg,
    Loaded config_doc = Loaded root
    /\ List.length ["xmledit.py"; "symbol"; "EURUSD"] = 3
    /\ nth 1 ["xmledit.py"; "symbol"; "EURUSD"] EmptyString <> "view"
    /\ update_config root (nth 1 ["xmledit.py"; "symbol"; "EURUSD"] EmptyString)
                          (nth 2 ["xmledit.py"; "symbol"; "EURUSD"] EmptyString)
       = Return (root', msg, true)
    /\ file_ops (trace (main ["xmledit.py"; "symbol"; "EURUSD"] (Loaded config_doc)
                             EndOfInput Exit0))
       = tree_write XML_PATH root'.
Proof.
  apply (main_writes_only_after_update ["xmledit.py"; "symbol"; "EURUSD"]
           (Loaded config_doc) EndOfInput Exit0).
  vm_compute. discriminate.
Defined.

Lemma ask_restart_subprocess typed run cmd :
  In (Subprocess cmd) (fst (ask_restart typed run)) ->
  cmd = "/opt/tools/Restart.sh"
  /\ (exists line, typed = Typed line
        /\ (lower (Py.strip line) = "y" \/ lower (Py.strip line) = "yes"))
  /\ exists after,
       fst (ask_restart typed run)
       = [Prompt; Print MsgRestarting; Subprocess cmd] ++ after.
Proof.
  unfold ask_restart. destruct typed as [line| |].
  - destruct (String.eqb_spec (lower (Py.strip line)) "y") as [Hy|Hy].
    + cbn [orb fst]. intros [H|[H|[H|H]]]; try discriminate H.
      * injection H as <-. split; [reflexivity|]. split; [exists line; tauto|].
        now eexists.
      * destruct run; cbn [In] in H; try contradiction;
          destruct H as [H|[]]; discriminate H.
    + destruct (String.eqb_spec (lower (Py.strip line)) "yes") as [Hyes|Hyes].
      * cbn [orb fst]. intros [H|[H|[H|H]]]; try discriminate H.
        -- injection H as <-. split; [reflexivity|]. split; [exists line; tauto|].
           now eexists.
        -- destruct run; cbn [In] in H; try contradiction;
             destruct H as [H|[]]; discriminate H.
      * cbn [orb fst]. intros [H|[H|[]]]; discriminate H.
  - cbn [fst]. intros [H|[H|[]]]; discriminate H.
  - cbn [fst]. intros [H|[]]; discriminate H.
Qed.

(** X22.  The restart script is never run unasked.  A run that
    starts a process starts [/opt/tools/Restart.sh], after the operator
    typed [y] or [yes] (in any case, surrounding white space aside), and
    after the update returned [True], its line was printed, the file was
    written and the prompt shown, in this order. *)
Theorem restart_only_after_confirmed_update
    (argv : list string) (file : loaded) (typed : answer) (run : restart_run)
    (cmd : string) :
  In (Subprocess cmd) (trace (main argv file typed run)) ->
  cmd = "/opt/tools/Restart.sh"
  /\ (exists line, typed = Typed line
        /\ (lower (Py.strip line) = "y" \/ lower (Py.strip line) = "yes"))
  /\ exists root root' msg after,
       file = Loaded root /\ List.length argv = 3
       /\ update_config root (nth 1 argv EmptyString) (nth 2 argv EmptyString)
          = Return (root', msg, true)
       /\ trace (main argv file typed run)
          = Print msg :: map FileOp (tree_write XML_PATH root')
            ++ [Prompt; Print MsgRestarting; Subprocess cmd] ++ after.
Proof.
  intros H.
  destruct (main_cases argv file typed run)
    as [[root [root' [msg [Hf [Hl [Hv [Hu Hm]]]]]]]|[Ht|[m Ht]]].
  - rewrite Hm in H |- *. cbn [trace] in H |- *.
    destruct H as [H|H]; [discriminate H|].
    apply in_app_or in H. destruct H as [H|H].
    { apply in_map_iff in H. destruct H as [op [H _]]. discriminate H. }
    destruct (ask_restart_subprocess typed run cmd H) as [Hc [Hy [after Ha]]].
    split; [exact Hc|]. split; [exact Hy|].
    exists root, root', msg, after. repeat split; try assumption.
    now rewrite Ha.
  - rewrite Ht in H. contradiction H.
  - rewrite Ht in H. destruct H as [H|[]]. discriminate H.
Qed.

Lemma restart_only_after_confirmed_update_witness :
  "/opt/tools/Restart.sh" = "/opt/tools/Restart.sh"
  /\ (exists line, Typed " Yes " = Typed line
        /\ (lower (Py.strip line) = "y" \/ lower (Py.strip line) = "yes"))
  /\ exists root root' msg after,
       Loaded config_doc = Loaded root
       /\ List.length ["xmledit.py"; "symbol"; "EURUSD"] = 3
       /\ update_config root (nth 1 ["xmledit.py"; "symbol"; "EURUSD"] EmptyString)
                             (nth 2 ["xmledit.py"; "symbol"; "EURUSD"] EmptyString)
          = Return (root', msg, true)
       /\ trace (main ["xmledit.py"; "symbol"; "EURUSD"] (Loaded config_doc)
                      (Typed " Yes ") ExitNonzero)
          = Print msg :: map FileOp (tree_write XML_PATH root')
            ++ [Prompt; Print MsgRestarting; Subprocess "/opt/tools/Restart.sh"]
            ++ after.
Proof.
  apply (restart_only_after_confirmed_update ["xmledit.py"; "symbol"; "EURUSD"]
           (Loaded config_doc) (Typed " Yes ") ExitNonzero "/opt/tools/Restart.sh").
  vm_compute. tauto.
Defined.

(** The shape of [main_w] once the command line is an update that
    returned [True]. *)
Lemma main_w_update argv root root' msg write typed run :
  List.length argv = 3 -> nth 1 argv EmptyString <> "view" ->
  update_config root (nth 1 argv EmptyString) (nth 2 argv EmptyString)
  = Return (root', msg, true) ->
  main_w argv (Loaded root) write typed run
  = match write with
    | WriteRaises done =>
        mk_outcome
          (Print msg :: map FileOp (firstn done (tree_write XML_PATH root'))) 1
    | WriteDone =>
        let '(effs, exc) := ask_restart typed run in
        mk_outcome (Print msg :: map FileOp (tree_write XML_PATH root') ++ effs)
                   (match exc with Some _ => 1 | None => 0 end)
    end.
Proof.
  intros Hlen Hview Hu. unfold main_w. rewrite Hlen.
  change (3 <? 2)%nat with false. cbv iota.
  destruct (String.eqb_spec (nth 1 argv EmptyString) "view"); [contradiction|].
  change (negb (3 =? 3)%nat) with false. cbv iota. now rewrite Hu.
Qed.

(** X23.  The exit status after an update that returned [True].  Its line
    is printed first.  When [tree.write] raises, the run ends there with
    status 1, the file holding what was written until then, and no prompt
    is shown.  When the write completes, the prompt is shown; the status is
    then 1 when the input ends at the prompt and when the restart was
    confirmed and the script cannot be started, neither [EOFError] nor
    [OSError] being caught, and 0 otherwise: the restart declined, the
    prompt or the script interrupted, the script run to its end with any
    exit status. *)
Theorem main_status_after_update
    (argv : list string) (root root' : element) (msg : message)
    (write : write_run) (typed : answer) (run : restart_run) :
  List.length argv = 3 -> nth 1 argv EmptyString <> "view" ->
  update_config root (nth 1 argv EmptyString) (nth 2 argv EmptyString)
  = Return (root', msg, true) ->
  let o := main_w argv (Loaded root) write typed run in
  match write with
  | WriteRaises done =>
      trace o = Print msg :: map FileOp (firstn done (tree_write XML_PATH root'))
      /\ status o = 1
  | WriteDone =>
      (exists after,
         trace o
         = Print msg :: map FileOp (tree_write XML_PATH root') ++ Prompt :: after)
      /\ status o
         = match typed with
           | EndOfInput => 1
           | CtrlC => 0
           | Typed line =>
               if String.eqb (lower (Py.strip line)) "y"
                  || String.eqb (lower (Py.strip line)) "yes"
               then match run with CannotStart => 1 | _ => 0 end
               else 0
           end
  end.
Proof.
  intros Hl Hv Hu o. unfold o. rewrite (main_w_update _ _ _ _ _ _ _ Hl Hv Hu).
  destruct write as [|done]; [|split; reflexivity].
  unfold ask_restart. destruct typed as [line| |].
  - destruct (_ || _).
    + destruct run; cbn [status trace]; (split; [now eexists | reflexivity]).
    + cbn [status trace]. split; [now eexists | reflexivity].
  - cbn [status trace]. split; [now eexists | reflexivity].
  - cbn [status trace]. split; [now eexists | reflexivity].
Qed.

Lemma main_status_after_update_witness :
  ((exists after,
      trace (main_w ["xmledit.py"; "symbol"; "EURUSD"] (Loaded config_doc)
                    WriteDone (Typed "y") CannotStart)
      = Print (MsgUpdated "symbol" (Some "USDJPY") "EURUSD")
        :: map FileOp (tree_write XML_PATH
                         (set_text [1; 1] (Some "EURUSD") config_doc))
        ++ Prompt :: after)
   /\ status (main_w ["xmledit.py"; "symbol"; "EURUSD"] (Loaded config_doc)
                     WriteDone (Typed "y") CannotStart)
      = 1)
  /\ (trace (main_w ["xmledit.py"; "symbol"; "EURUSD"] (Loaded config_doc)
                    (WriteRaises 1) (Typed "y") Exit0)
      = Print (MsgUpdated "symbol" (Some "USDJPY") "EURUSD")
        :: map FileOp (firstn 1 (tree_write XML_PATH
                                   (set_text [1; 1] (Some "EURUSD") config_doc)))
      /\ status (main_w ["xmledit.py"; "symbol"; "EURUSD"] (Loaded config_doc)
                        (WriteRaises 1) (Typed "y") Exit0)
         = 1).
Proof.
  split.
  - apply (main_status_after_update ["xmledit.py"; "symbol"; "EURUSD"] config_doc
             (set_text [1; 1] (Some "EURUSD") config_doc)
             (MsgUpdated "symbol" (Some "USDJPY") "EURUSD")
             WriteDone (Typed "y") CannotStart);
      [reflexivity | discriminate | reflexivity].
  - apply (main_status_after_update ["xmledit.py"; "symbol"; "EURUSD"] config_doc
             (set_text [1; 1] (Some "EURUSD") config_doc)
             (MsgUpdated "symbol" (Some "USDJPY") "EURUSD")
             (WriteRaises 1) (Typed "y") Exit0);
      [reflexivity | discriminate | reflexivity].
Defined.

End XmlEditFacts.
